(** * Sandbox container backend lifecycle: a shallow embedding

    The development follows the two source units of the subsystem:
    - [Manage]: the registry reconciler (listing and removal of sandbox
      containers and browser containers);
    - [BackendCmd]: the [sandbox backend] command, its configuration patch
      and the Podman provisioning wizard.

    Asynchronous code is embedded as an interaction tree over the calls the
    code makes to its collaborators (shell probe, prompts, runtime logger,
    registry, configuration writer).  A promise that is awaited either
    fulfils with a value or rejects with an error; [try]/[catch] is a match
    on that outcome. *)

From Stdlib Require Import ZArith Lia Bool Ascii String.
From stdpp Require Import base option list strings.

Local Open Scope string_scope.
Local Open Scope list_scope.
Local Open Scope Z_scope.

(** ** JavaScript strings

    A string is its sequence of code units; the model keeps the code units
    below 256.  The one character of the source outside that range, the
    dash of three fixed messages, stands as its UTF-8 bytes; no code
    inspects it. *)

Module Js.

Definition code (c : ascii) : N := Ascii.N_of_ascii c.

(** White space and line terminators removed by [String.prototype.trim]
    (TAB, LF, VT, FF, CR, SP, NBSP). *)
Definition isWhiteSpace (c : ascii) : bool :=
  let n := code c in
  (((9 <=? n) && (n <=? 13)) || (n =? 32) || (n =? 160))%N.

Fixpoint trimStart (s : string) : string :=
  match s with
  | EmptyString => EmptyString
  | String c s' => if isWhiteSpace c then trimStart s' else s
  end.

Fixpoint trimEnd (s : string) : string :=
  match s with
  | EmptyString => EmptyString
  | String c s' =>
      match trimEnd s' with
      | EmptyString => if isWhiteSpace c then EmptyString else String c EmptyString
      | t => String c t
      end
  end.

Definition trim (s : string) : string := trimEnd (trimStart s).

(** [String.prototype.toLowerCase] on code units below 256. *)
Definition lowerChar (c : ascii) : ascii :=
  let n := code c in
  if (((65 <=? n) && (n <=? 90))
      || ((192 <=? n) && (n <=? 222) && negb (n =? 215)))%N
  then Ascii.ascii_of_N (n + 32) else c.

Fixpoint toLowerCase (s : string) : string :=
  match s with
  | EmptyString => EmptyString
  | String c s' => String (lowerChar c) (toLowerCase s')
  end.

(** Truthiness of a string, and [a || b] on strings. *)
Definition truthy (s : string) : bool := negb (String.eqb s "").

Definition orElse (a b : string) : string := if truthy a then a else b.

(** [xs.join(sep)] *)
Fixpoint join (sep : string) (xs : list string) : string :=
  match xs with
  | [] => ""
  | [x] => x
  | x :: rest => x +:+ sep +:+ join sep rest
  end.

(** [hay.includes(needle)] on strings. *)
Fixpoint contains (needle hay : string) : bool :=
  String.prefix needle hay
  || match hay with
     | EmptyString => false
     | String _ rest => contains needle rest
     end.

Definition newline : string := String (Ascii.ascii_of_N 10) EmptyString.

Definition quote : string := String (Ascii.ascii_of_N 34) EmptyString.

(** [s.split(c)] for a one-character separator. *)
Fixpoint split (c : ascii) (s : string) : list string :=
  match s with
  | EmptyString => [EmptyString]
  | String x s' =>
      if Ascii.eqb x c then EmptyString :: split c s'
      else match split c s' with
           | hd :: tl => String x hd :: tl
           | [] => [String x EmptyString]
           end
  end.

(** [JSON.stringify] of a string. *)
Definition hexDigit (n : N) : ascii :=
  if (n <? 10)%N then Ascii.ascii_of_N (48 + n) else Ascii.ascii_of_N (87 + n).

Definition backslash : string := String (Ascii.ascii_of_N 92) EmptyString.

Definition jsonEscape (c : ascii) : string :=
  let n := code c in
  if (n =? 34)%N then backslash +:+ quote
  else if (n =? 92)%N then backslash +:+ backslash
  else if (n =? 8)%N then backslash +:+ "b"
  else if (n =? 12)%N then backslash +:+ "f"
  else if (n =? 10)%N then backslash +:+ "n"
  else if (n =? 13)%N then backslash +:+ "r"
  else if (n =? 9)%N then backslash +:+ "t"
  else if (n <? 32)%N then
    backslash +:+ "u00"
    +:+ String (hexDigit (n / 16)) (String (hexDigit (n mod 16)) EmptyString)
  else String c EmptyString.

Fixpoint jsonEscapeAll (s : string) : string :=
  match s with
  | EmptyString => EmptyString
  | String c s' => jsonEscape c +:+ jsonEscapeAll s'
  end.

Definition jsonString (s : string) : string := quote +:+ jsonEscapeAll s +:+ quote.

Example trim_both_ends :
  trim (String (Ascii.ascii_of_N 9) " testuser:100000:65536 " +:+ newline)
  = "testuser:100000:65536".
Proof. reflexivity. Qed.

Example trim_inner_space_kept : trim " a b " = "a b".
Proof. reflexivity. Qed.

Example toLowerCase_mixed : toLowerCase "PodMan" = "podman".
Proof. reflexivity. Qed.

Example split_range : split ":" "user:100000:65536" = ["user"; "100000"; "65536"].
Proof. reflexivity. Qed.

Example split_empty : split ":" "" = [""].
Proof. reflexivity. Qed.

(** ** Facts about [trim] and [split] *)

Lemma trimEnd_cons c s :
  trimEnd (String c s)
  = match trimEnd s with
    | EmptyString => if isWhiteSpace c then EmptyString else String c EmptyString
    | t => String c t
    end.
Proof. reflexivity. Qed.

Lemma trimEnd_idem s : trimEnd (trimEnd s) = trimEnd s.
Proof.
  induction s as [|c s IH]; [reflexivity|]. rewrite trimEnd_cons.
  destruct (trimEnd s) as [|d t] eqn:Ht.
  - destruct (isWhiteSpace c) eqn:Hc; [reflexivity|]. cbn [trimEnd]. now rewrite Hc.
  - rewrite trimEnd_cons. now rewrite IH.
Qed.

(** A string that does not start with white space. *)
Definition startsClean (s : string) : bool :=
  match s with
  | EmptyString => true
  | String c _ => negb (isWhiteSpace c)
  end.

Lemma trimStart_clean s : startsClean s = true -> trimStart s = s.
Proof.
  destruct s as [|c s]; [reflexivity|]. cbn [startsClean trimStart].
  now destruct (isWhiteSpace c).
Qed.

Lemma startsClean_trimStart s : startsClean (trimStart s) = true.
Proof.
  induction s as [|c s IH]; [reflexivity|]. cbn [trimStart].
  destruct (isWhiteSpace c) eqn:Hc; [exact IH|]. cbn [startsClean]. now rewrite Hc.
Qed.

Lemma startsClean_trimEnd s : startsClean s = true -> startsClean (trimEnd s) = true.
Proof.
  destruct s as [|c s]; [reflexivity|]. cbn [startsClean trimEnd]. intros Hc.
  destruct (trimEnd s); [|exact Hc].
  apply negb_true_iff in Hc. rewrite Hc. cbn [startsClean]. now rewrite Hc.
Qed.

Lemma trim_idem s : trim (trim s) = trim s.
Proof.
  unfold trim.
  rewrite (trimStart_clean (trimEnd (trimStart s)))
    by apply startsClean_trimEnd, startsClean_trimStart.
  apply trimEnd_idem.
Qed.

(** Whether a string consists of white space only. *)
Fixpoint blank (s : string) : bool :=
  match s with
  | EmptyString => true
  | String c s' => isWhiteSpace c && blank s'
  end.

Lemma trimEnd_blank s : truthy (trimEnd s) = negb (blank s).
Proof.
  induction s as [|c s IH]; [reflexivity|]. cbn [trimEnd blank].
  destruct (trimEnd s) as [|d t].
  - cbn in IH. apply (f_equal negb) in IH. rewrite negb_involutive in IH.
    cbn in IH. rewrite <- IH, andb_true_r. now destruct (isWhiteSpace c).
  - cbn in IH. apply (f_equal negb) in IH. rewrite negb_involutive in IH.
    cbn in IH. rewrite <- IH, andb_false_r. reflexivity.
Qed.

Lemma blank_trimStart s : blank (trimStart s) = blank s.
Proof.
  induction s as [|c s IH]; [reflexivity|]. cbn [trimStart blank].
  destruct (isWhiteSpace c) eqn:Hc; [exact IH|]. cbn [blank]. now rewrite Hc.
Qed.

Lemma trim_blank s : truthy (trim s) = negb (blank s).
Proof. unfold trim. now rewrite trimEnd_blank, blank_trimStart. Qed.

Lemma append_cons c a b : String c a +:+ b = String c (a +:+ b).
Proof. reflexivity. Qed.

Lemma blank_app a b : blank (a +:+ b) = blank a && blank b.
Proof.
  induction a as [|c a IH]; [reflexivity|]. rewrite append_cons. cbn [blank].
  now rewrite IH, andb_assoc.
Qed.

(** The number of occurrences of a character. *)
Fixpoint count (c : ascii) (s : string) : nat :=
  match s with
  | EmptyString => 0
  | String x s' => (if Ascii.eqb x c then 1 else 0) + count c s'
  end.

Lemma split_length c s : length (split c s) = S (count c s).
Proof.
  induction s as [|x s IH]; [reflexivity|]. cbn [split count].
  destruct (Ascii.eqb x c); cbn [length Nat.add]; [now rewrite IH|].
  destruct (split c s) as [|hd tl]; [discriminate|]. exact IH.
Qed.

Lemma split_parts c s : Forall (fun part => count c part = 0%nat) (split c s).
Proof.
  induction s as [|x s IH]; [repeat constructor|]. cbn [split].
  destruct (Ascii.eqb x c) eqn:Hx; [constructor; [reflexivity|exact IH]|].
  destruct (split c s) as [|hd tl]; [repeat constructor; cbn; now rewrite Hx|].
  inversion IH as [|? ? Hhd Htl]; subst. constructor; [|exact Htl].
  cbn [count]. now rewrite Hx.
Qed.

Lemma split_whole c s : count c s = 0%nat -> split c s = [s].
Proof.
  induction s as [|x s IH]; [reflexivity|]. cbn [split count].
  destruct (Ascii.eqb x c); [discriminate|]. intros H. now rewrite (IH H).
Qed.

Lemma split_app c a b :
  count c a = 0%nat -> split c (a +:+ String c b) = a :: split c b.
Proof.
  induction a as [|x a IH].
  - intros _. change ("" +:+ String c b) with (String c b). cbn [split].
    now rewrite Ascii.eqb_refl.
  - rewrite append_cons. cbn [split count].
    destruct (Ascii.eqb x c); [discriminate|]. intros H. now rewrite (IH H).
Qed.

End Js.

(** ** Awaited promises *)

Inductive Settled (A : Type) : Type :=
| Fulfilled (a : A)
| Rejected (err : string).
Arguments Fulfilled {A} a.
Arguments Rejected {A} err.

Definition isFulfilled {A} (r : Settled A) : bool :=
  match r with Fulfilled _ => true | Rejected _ => false end.

(** ** Occurrences in a list of observations *)

Lemma occurs_past {A} (t : A -> bool) (l1 l2 pre post : list A) (o : A) :
  l1 ++ l2 = pre ++ o :: post ->
  existsb t l1 = false -> t o = true ->
  exists pre', pre = l1 ++ pre' /\ l2 = pre' ++ o :: post.
Proof.
  revert pre. induction l1 as [|x l1 IH]; intros pre Heq Hq Ht.
  - exists pre. auto.
  - cbn [existsb] in Hq. apply orb_false_elim in Hq as [Hx Hq].
    destruct pre as [|y pre]; cbn [app] in Heq; injection Heq as -> Heq.
    + congruence.
    + destruct (IH pre Heq Hq Ht) as (pre' & -> & ->). exists pre'. auto.
Qed.

Lemma occurs_before {A} (t : A -> bool) (l1 l2 pre post : list A) (o : A) :
  l1 ++ l2 = pre ++ o :: post ->
  existsb t l2 = false -> t o = true ->
  exists post', post = post' ++ l2 /\ l1 = pre ++ o :: post'.
Proof.
  revert pre. induction l1 as [|x l1 IH]; intros pre Heq Hq Ht.
  - cbn [app] in Heq. subst l2. rewrite existsb_app in Hq. cbn [existsb] in Hq.
    rewrite Ht, orb_true_r in Hq. discriminate.
  - destruct pre as [|y pre]; cbn [app] in Heq; injection Heq as -> Heq.
    + exists l1. auto.
    + destruct (IH pre Heq Hq Ht) as (post' & -> & ->). exists post'. auto.
Qed.

Lemma occurs_nowhere {A} (t : A -> bool) (l pre post : list A) (o : A) :
  l = pre ++ o :: post -> existsb t l = false -> t o = true -> False.
Proof.
  intros -> Hq Ht. rewrite existsb_app in Hq. cbn [existsb] in Hq.
  rewrite Ht, orb_true_r in Hq. discriminate.
Qed.

Lemma none_of {A} (P t : A -> bool) (l : list A) :
  (forall o, P o = true -> t o = false) -> forallb P l = true -> existsb t l = false.
Proof.
  intros HP Hl. apply not_true_is_false. intros Hex.
  apply existsb_exists in Hex as (o & Ho & Ht).
  rewrite forallb_forall in Hl. rewrite (HP o (Hl o Ho)) in Ht. discriminate.
Qed.

Lemma occurs_where {A} (l1 l2 pre post : list A) (o : A) :
  l1 ++ l2 = pre ++ o :: post ->
  (exists post1, l1 = pre ++ o :: post1 /\ post = post1 ++ l2)
  \/ (exists pre2, pre = l1 ++ pre2 /\ l2 = pre2 ++ o :: post).
Proof.
  revert pre. induction l1 as [|x l1 IH]; intros pre Heq.
  - right. exists pre. auto.
  - destruct pre as [|y pre]; cbn [app] in Heq; injection Heq as -> Heq.
    + left. exists l1. auto.
    + destruct (IH pre Heq) as [(post1 & -> & ->)|(pre2 & -> & ->)]; [left|right]; eauto.
Qed.

(** ** Programs over an interface of external calls

    [E X] is a call whose answer has type [X]; [observe] records a call
    together with its answer. *)

Section Programs.

Context {E : Type -> Type} {Obs : Type}.
Variable observe : forall X, E X -> X -> Obs.

Inductive Prog (A : Type) : Type :=
| Ret (a : A)
| Vis {X : Type} (e : E X) (k : X -> Prog A).
Arguments Ret {A} a.
Arguments Vis {A X} e k.

Fixpoint bind {A B} (p : Prog A) (f : A -> Prog B) : Prog B :=
  match p with
  | Ret a => f a
  | Vis e k => Vis e (fun x => bind (k x) f)
  end.

Definition call {X} (e : E X) : Prog X := Vis e Ret.

(** The environment: a state [W] and an answer to every call. *)
Definition Handler (W : Type) : Type := forall X, E X -> W -> X * W.

Fixpoint run {W A} (h : Handler W) (p : Prog A) (w : W) : A * W * list Obs :=
  match p with
  | Ret a => (a, w, [])
  | Vis e k =>
      let xw := h _ e w in
      let r := run h (k (fst xw)) (snd xw) in
      (fst (fst r), snd (fst r), observe _ e (fst xw) :: snd r)
  end.

Definition result {W A} (r : A * W * list Obs) : A := fst (fst r).
Definition world {W A} (r : A * W * list Obs) : W := snd (fst r).
Definition trace {W A} (r : A * W * list Obs) : list Obs := snd r.

(** [exec p tr a]: some environment makes [p] produce the observations
    [tr] and return [a]. *)
Inductive exec {A} : Prog A -> list Obs -> A -> Prop :=
| exec_ret a : exec (Ret a) [] a
| exec_vis X (e : E X) k x tr a :
    exec (k x) tr a -> exec (Vis e k) (observe _ e x :: tr) a.

Lemma run_exec {W A} (h : Handler W) (p : Prog A) (w : W) :
  exec p (trace (run h p w)) (result (run h p w)).
Proof.
  revert w. induction p as [a | X e k IH]; intros w; simpl.
  - constructor.
  - unfold trace, result in *. simpl. constructor. apply IH.
Qed.

Lemma run_bind {W A B} (h : Handler W) (p : Prog A) (f : A -> Prog B) (w : W) :
  let r1 := run h p w in
  let r2 := run h (f (result r1)) (world r1) in
  run h (bind p f) w = (result r2, world r2, trace r1 ++ trace r2).
Proof.
  revert w. induction p as [a | X e k IH]; intros w; simpl.
  - unfold result, world, trace. simpl. now destruct (run h (f a) w) as [[b w2] tr].
  - rewrite IH. reflexivity.
Qed.

Lemma exec_ret_inv {A} (a b : A) tr : exec (Ret a) tr b -> tr = [] /\ b = a.
Proof. inversion 1; subst; auto. Qed.

Lemma exec_vis_inv {A X} (e : E X) (k : X -> Prog A) tr a :
  exec (Vis e k) tr a ->
  exists x tr', tr = observe _ e x :: tr' /\ exec (k x) tr' a.
Proof.
  intros H.
  refine (match H in exec p tr0 a0
                return match p with
                       | Ret _ => True
                       | Vis e0 k0 =>
                           exists x tr', tr0 = observe _ e0 x :: tr' /\ exec (k0 x) tr' a0
                       end
          with
          | exec_ret _ => I
          | exec_vis _ e0 k0 x tr0 a0 H0 => _
          end).
  eauto.
Qed.

Lemma exec_bind {A B} (p : Prog A) (f : A -> Prog B) tr b :
  exec (bind p f) tr b <->
  exists tr1 a tr2, exec p tr1 a /\ exec (f a) tr2 b /\ tr = tr1 ++ tr2.
Proof.
  split.
  - revert tr. induction p as [a | X e k IH]; intros tr H; simpl in H.
    + exists [], a, tr. repeat split; auto. constructor.
    + apply exec_vis_inv in H as (x & tr' & -> & H).
      apply IH in H as (tr1 & a & tr2 & H1 & H2 & ->).
      exists (observe _ e x :: tr1), a, tr2. repeat split; auto.
      now constructor.
  - intros (tr1 & a & tr2 & H1 & H2 & ->).
    revert H2. induction H1 as [a | X e k x tr1 a H1 IH]; intros H2; simpl.
    + exact H2.
    + constructor. now apply IH.
Qed.

(** *** Properties of every run

    [Always R p]: whenever an observation [o] occurs in a run of [p], the
    rest of that run, [post], satisfies [R o post]. *)
Definition Always {A} (R : Obs -> list Obs -> Prop) (p : Prog A) : Prop :=
  forall tr a, exec p tr a ->
  forall pre o post, tr = pre ++ o :: post -> R o post.

(** [Quiet t p]: no observation of a run of [p] is selected by [t]. *)
Definition Quiet {A} (t : Obs -> bool) (p : Prog A) : Prop :=
  forall tr a, exec p tr a -> forallb (fun o => negb (t o)) tr = true.

(** [Reaches t p]: every run of [p] contains an observation selected
    by [t]. *)
Definition Reaches {A} (t : Obs -> bool) (p : Prog A) : Prop :=
  forall tr a, exec p tr a -> existsb t tr = true.

Lemma always_ret {A} R (a : A) : Always R (Ret a).
Proof.
  intros tr b H pre o post ->. apply exec_ret_inv in H as [H _].
  destruct pre; discriminate.
Qed.

Lemma always_vis {A X} R (e : E X) (k : X -> Prog A) :
  (forall x tr a, exec (k x) tr a -> R (observe _ e x) tr) ->
  (forall x, Always R (k x)) ->
  Always R (Vis e k).
Proof.
  intros Hhere Hlater tr a H pre o post ->.
  apply exec_vis_inv in H as (x & tr' & Heq & H).
  destruct pre as [|o' pre]; simpl in Heq; injection Heq as -> <-.
  - eapply Hhere; eauto.
  - eapply Hlater; eauto.
Qed.

Lemma quiet_ret {A} t (a : A) : Quiet t (Ret a).
Proof. intros tr b H. apply exec_ret_inv in H as [-> _]. reflexivity. Qed.

Lemma quiet_vis {A X} t (e : E X) (k : X -> Prog A) :
  (forall x, t (observe _ e x) = false) ->
  (forall x, Quiet t (k x)) ->
  Quiet t (Vis e k).
Proof.
  intros H1 H2 tr a H.
  apply exec_vis_inv in H as (x & tr' & -> & H).
  simpl. rewrite H1. simpl. eapply H2; eauto.
Qed.

Lemma quiet_bind {A B} t (p : Prog A) (f : A -> Prog B) :
  Quiet t p -> (forall a, Quiet t (f a)) -> Quiet t (bind p f).
Proof.
  intros Hp Hf tr b H.
  apply exec_bind in H as (tr1 & a & tr2 & H1 & H2 & ->).
  rewrite forallb_app. rewrite (Hp _ _ H1), (Hf _ _ _ H2). reflexivity.
Qed.

Lemma quiet_no_occurrence t (tr pre post : list Obs) o :
  forallb (fun o => negb (t o)) tr = true ->
  tr = pre ++ o :: post -> t o = false.
Proof.
  intros H ->. rewrite forallb_app in H. simpl in H.
  destruct (t o); auto. rewrite andb_false_r in H. discriminate.
Qed.

(** A quiet prefix: the observations that matter all lie in the
    continuation. *)
Lemma always_bind_quiet {A B} (t : Obs -> bool) R (p : Prog A) (f : A -> Prog B) :
  (forall o post, t o = false -> R o post) ->
  Quiet t p -> (forall a, Always R (f a)) -> Always R (bind p f).
Proof.
  intros Hskip Hp Hf tr b H pre o post Heq.
  apply exec_bind in H as (tr1 & a & tr2 & H1 & H2 & ->).
  specialize (Hp _ _ H1). clear H1.
  revert pre Heq. induction tr1 as [|o1 tr1 IH]; intros pre Heq.
  - simpl in Heq. eapply Hf; eauto.
  - simpl in Hp. apply andb_prop in Hp as [Ho1 Hp].
    destruct pre as [|o' pre]; simpl in Heq; injection Heq as -> Heq.
    + apply Hskip. now destruct (t o).
    + apply IH with (pre := pre); auto.
Qed.

(** A prefix that is not quiet: what follows one of its observations is
    the rest of the prefix and then the run of the continuation. *)
Lemma always_bind {A B} R (p : Prog A) (f : A -> Prog B) :
  (forall tr1 a tr2 b pre o post,
      exec p tr1 a -> exec (f a) tr2 b -> tr1 = pre ++ o :: post -> R o (post ++ tr2)) ->
  (forall a, Always R (f a)) -> Always R (bind p f).
Proof.
  intros Hp Hf tr b H pre o post Heq.
  apply exec_bind in H as (tr1 & a & tr2 & H1 & H2 & ->).
  destruct (occurs_where _ _ _ _ _ Heq) as [(post1 & Htr1 & ->)|(pre2 & -> & Htr2)].
  - exact (Hp tr1 a tr2 b pre o post1 H1 H2 Htr1).
  - exact (Hf a tr2 b H2 pre2 o post Htr2).
Qed.

Lemma exec_bind_assoc {A B C} (p : Prog A) (f : A -> Prog B) (g : B -> Prog C) tr c :
  exec (bind (bind p f) g) tr c <-> exec (bind p (fun a => bind (f a) g)) tr c.
Proof.
  rewrite !exec_bind. split.
  - intros (tr12 & b & tr3 & H12 & H3 & ->).
    apply exec_bind in H12 as (tr1 & a & tr2 & H1 & H2 & ->).
    exists tr1, a, (tr2 ++ tr3). rewrite app_assoc. repeat split; auto.
    apply exec_bind. eauto 6.
  - intros (tr1 & a & tr23 & H1 & H23 & ->).
    apply exec_bind in H23 as (tr2 & b & tr3 & H2 & H3 & ->).
    exists (tr1 ++ tr2), b, tr3. rewrite app_assoc. repeat split; auto.
    apply exec_bind. eauto 6.
Qed.

Lemma always_bind_assoc {A B C} R (p : Prog A) (f : A -> Prog B) (g : B -> Prog C) :
  Always R (bind p (fun a => bind (f a) g)) -> Always R (bind (bind p f) g).
Proof. intros H tr c Hex. apply (H tr c). now apply exec_bind_assoc. Qed.

Lemma always_quiet {A} (t : Obs -> bool) R (p : Prog A) :
  (forall o post, t o = false -> R o post) -> Quiet t p -> Always R p.
Proof.
  intros Hskip Hp tr a H pre o post Heq. apply Hskip.
  eapply quiet_no_occurrence; eauto.
Qed.

Lemma quiet_weaken {A} (t t' : Obs -> bool) (p : Prog A) :
  (forall o, t o = true -> t' o = true) -> Quiet t' p -> Quiet t p.
Proof.
  intros Htt Hp tr a H. specialize (Hp tr a H).
  apply forallb_forall. intros o Hin.
  rewrite forallb_forall in Hp. specialize (Hp o Hin).
  destruct (t o) eqn:Ht; auto. rewrite (Htt o Ht) in Hp. discriminate.
Qed.

Lemma reaches_vis_here {A X} t (e : E X) (k : X -> Prog A) :
  (forall x, t (observe _ e x) = true) -> Reaches t (Vis e k).
Proof.
  intros Ht tr a H. apply exec_vis_inv in H as (x & tr' & -> & H).
  simpl. now rewrite Ht.
Qed.

Lemma reaches_vis {A X} t (e : E X) (k : X -> Prog A) :
  (forall x, Reaches t (k x)) -> Reaches t (Vis e k).
Proof.
  intros Hk tr a H. apply exec_vis_inv in H as (x & tr' & -> & H).
  simpl. rewrite (Hk x tr' a H). apply orb_true_r.
Qed.

Lemma reaches_bind {A B} t (p : Prog A) (f : A -> Prog B) :
  (forall a, Reaches t (f a)) -> Reaches t (bind p f).
Proof.
  intros Hf tr b H. apply exec_bind in H as (tr1 & a & tr2 & H1 & H2 & ->).
  rewrite existsb_app, (Hf a tr2 b H2). apply orb_true_r.
Qed.

Lemma quiet_none {A} (t : Obs -> bool) (p : Prog A) tr a :
  Quiet t p -> exec p tr a -> existsb t tr = false.
Proof.
  intros Hq H. apply (none_of (fun o => negb (t o))); [|exact (Hq tr a H)].
  intros o Ho. now apply negb_true_iff in Ho.
Qed.

(** *** What came before

    [Past hist Q t p]: whenever an observation [o] selected by [t] occurs
    in a run of [p] that started after the observations [hist], [Q] holds
    of what was observed before [o], and of [o]. *)
Definition Past {A} (hist : list Obs) (Q : list Obs -> Obs -> Prop) (t : Obs -> bool)
    (p : Prog A) : Prop :=
  forall tr a, exec p tr a ->
  forall pre o post, tr = pre ++ o :: post -> t o = true -> Q (hist ++ pre) o.

Lemma past_ret {A} hist Q t (a : A) : Past hist Q t (Ret a).
Proof.
  intros tr b H pre o post ->. apply exec_ret_inv in H as [H _].
  destruct pre; discriminate.
Qed.

Lemma past_vis {A X} hist Q t (e : E X) (k : X -> Prog A) :
  (forall x, t (observe _ e x) = true -> Q hist (observe _ e x)) ->
  (forall x, Past (hist ++ [observe _ e x]) Q t (k x)) ->
  Past hist Q t (Vis e k).
Proof.
  intros Hhere Hlater tr a H pre o post -> Ht.
  apply exec_vis_inv in H as (x & tr' & Heq & H).
  destruct pre as [|o' pre]; cbn [app] in Heq; injection Heq as Ho Htr; subst.
  - rewrite app_nil_r. now apply Hhere.
  - specialize (Hlater x _ a H pre o post eq_refl Ht).
    now rewrite <- app_assoc in Hlater.
Qed.

Lemma past_quiet {A} hist Q t (p : Prog A) : Quiet t p -> Past hist Q t p.
Proof.
  intros Hq tr a H pre o post Heq Ht. exfalso.
  pose proof (quiet_no_occurrence t tr pre post o (Hq tr a H) Heq). congruence.
Qed.

Lemma past_bind {A B} hist Q t (p : Prog A) (f : A -> Prog B) :
  Past hist Q t p ->
  (forall a tr1, exec p tr1 a -> Past (hist ++ tr1) Q t (f a)) ->
  Past hist Q t (bind p f).
Proof.
  intros Hp Hf tr b H pre o post Heq Ht.
  apply exec_bind in H as (tr1 & a & tr2 & H1 & H2 & ->).
  assert (Hcase : (exists post1, tr1 = pre ++ o :: post1)
                  \/ (exists pre2, pre = tr1 ++ pre2 /\ tr2 = pre2 ++ o :: post)).
  { clear -Heq. revert pre Heq. induction tr1 as [|x tr1 IH]; intros pre Heq.
    - right. exists pre. auto.
    - destruct pre as [|y pre]; cbn [app] in Heq; injection Heq as -> Heq.
      + left. eauto.
      + destruct (IH pre Heq) as [(post1 & ->)|(pre2 & -> & ->)]; [left|right]; eauto. }
  destruct Hcase as [(post1 & Htr1)|(pre2 & -> & Htr2)].
  - exact (Hp tr1 a H1 pre o post1 Htr1 Ht).
  - specialize (Hf a tr1 H1 tr2 b H2 pre2 o post Htr2 Ht).
    now rewrite <- app_assoc in Hf.
Qed.

End Programs.

Arguments Prog E A : clear implicits.
Arguments Ret {E A} a.
Arguments Vis {E A X} e k.
Arguments Handler E W : clear implicits.

Declare Scope prog_scope.
Delimit Scope prog_scope with prog.
Notation "x <- p ;; q" := (bind p (fun x => q))
  (at level 100, p at next level, right associativity) : prog_scope.
Notation "p ;; q" := (bind p (fun _ => q))
  (at level 100, right associativity) : prog_scope.

(** ** Reading runs *)

Ltac exec_step H :=
  first
    [ apply exec_ret_inv in H as [? ?]
    | let x := fresh "x" in
      let tr := fresh "tr" in
      let E := fresh "Etr" in
      apply exec_vis_inv in H as (x & tr & E & H) ];
  simpl in *; subst.

Ltac exec_all H := unfold call in H; simpl in H; repeat exec_step H.

(** * The registry reconciler *)

Module Manage.

Record ContainerState := { state_exists : bool; state_running : bool }.

Record DockerResult := { stdout : string; stderr : string; code : Z }.

Inductive RegistryKind := PlainRegistry | BrowserRegistry.

Section Reconciler.

(** [T]: the fields of a registry entry other than the three the
    reconciler reads; [Server]: a browser bridge server handle;
    [Config]: the loaded configuration. *)
Variables T Server Config : Type.

Record Entry := {
  containerName : string;
  image : string;
  sessionKey : string;
  others : T
}.

Definition withImage (e : Entry) (img : string) : Entry :=
  {| containerName := containerName e; image := img;
     sessionKey := sessionKey e; others := others e |}.

(** [{ ...entry, image, running, imageMatch }] *)
Record Info := {
  info_entry : Entry;
  info_running : bool;
  imageMatch : bool
}.

Inductive Eff : Type -> Type :=
| LoadConfig : Eff Config
| ReadRegistryFile (kind : RegistryKind) : Eff (Settled (list Entry))
| RemoveRegistryEntryFile (kind : RegistryKind) (name : string) : Eff (Settled unit)
| DockerContainerState (name command : string) : Eff (Settled ContainerState)
| ExecDocker (args : list string) (allowFailure : bool) (command : string) :
    Eff (Settled DockerResult)
| StopBrowserBridgeServer (server : Server) : Eff (Settled unit).

Inductive Obs : Type :=
| OLoadConfig (cfg : Config)
| OReadRegistry (kind : RegistryKind) (r : Settled (list Entry))
| ORemoveRegistryEntry (kind : RegistryKind) (name : string) (r : Settled unit)
| OContainerState (name command : string) (r : Settled ContainerState)
| OExecDocker (args : list string) (allowFailure : bool) (command : string)
    (r : Settled DockerResult)
| OStopBridge (server : Server) (r : Settled unit).

Definition observe X (e : Eff X) : X -> Obs :=
  match e in Eff X return X -> Obs with
  | LoadConfig => OLoadConfig
  | ReadRegistryFile kind => OReadRegistry kind
  | RemoveRegistryEntryFile kind name => ORemoveRegistryEntry kind name
  | DockerContainerState name command => OContainerState name command
  | ExecDocker args allow command => OExecDocker args allow command
  | StopBrowserBridgeServer server => OStopBridge server
  end.

Local Open Scope prog_scope.

Definition loadConfig : Prog Eff Config := call LoadConfig.
Definition readRegistry := call (ReadRegistryFile PlainRegistry).
Definition readBrowserRegistry := call (ReadRegistryFile BrowserRegistry).
Definition removeRegistryEntry (name : string) :=
  call (RemoveRegistryEntryFile PlainRegistry name).
Definition removeBrowserRegistryEntry (name : string) :=
  call (RemoveRegistryEntryFile BrowserRegistry name).
Definition dockerContainerState (name command : string) :=
  call (DockerContainerState name command).
Definition execDocker (args : list string) (allowFailure : bool) (command : string) :=
  call (ExecDocker args allowFailure command).
Definition stopBrowserBridgeServer (server : Server) :=
  call (StopBrowserBridgeServer server).

(** ** Listing *)

Record EntryConfig := { configuredImage : string; command : string }.

(** [resolveSandboxAgentId] belongs to [./shared.js]. *)
Variable resolveSandboxAgentId : string -> option string.

Definition inspectArgs (name : string) : list string :=
  ["inspect"; "-f"; "{{.Config.Image}}"; name].

(** The body of the [for] loop for one entry: the container state is
    awaited outside any [try], so its rejection rejects the listing. *)
Definition listEntry (resolveEntryConfig : option string -> EntryConfig)
    (entry : Entry) : Prog Eff (Settled Info) :=
  let agentId := resolveSandboxAgentId (sessionKey entry) in
  let cfg := resolveEntryConfig agentId in
  st <- dockerContainerState (containerName entry) (command cfg) ;;
  match st with
  | Rejected err => Ret (Rejected err)
  | Fulfilled state =>
      actualImage <-
        (if state_exists state then
           r <- execDocker (inspectArgs (containerName entry)) true (command cfg) ;;
           Ret (match r with
                | Fulfilled result =>
                    if code result =? 0 then Js.trim (stdout result) else image entry
                | Rejected _ => image entry
                end)
         else Ret (image entry)) ;;
      Ret (Fulfilled
             {| info_entry := withImage entry actualImage;
                info_running := state_running state;
                imageMatch := String.eqb actualImage (configuredImage cfg) |})
  end.

Fixpoint listLoop (resolveEntryConfig : option string -> EntryConfig)
    (entries : list Entry) (results : list Info) : Prog Eff (Settled (list Info)) :=
  match entries with
  | [] => Ret (Fulfilled results)
  | entry :: rest =>
      r <- listEntry resolveEntryConfig entry ;;
      match r with
      | Rejected err => Ret (Rejected err)
      | Fulfilled item => listLoop resolveEntryConfig rest (results ++ [item])
      end
  end.

Definition listSandboxRegistryItems
    (read : Prog Eff (Settled (list Entry)))
    (resolveEntryConfig : option string -> EntryConfig) :
    Prog Eff (Settled (list Info)) :=
  registry <- read ;;
  match registry with
  | Rejected err => Ret (Rejected err)
  | Fulfilled entries => listLoop resolveEntryConfig entries []
  end.

Inductive SandboxBackend := docker | podman.

(** The three fields the reconciler reads of a resolved sandbox
    configuration: [backend], [docker.image], [browser.image]. *)
Record SandboxConfig := {
  cfg_backend : SandboxBackend;
  cfg_docker_image : string;
  cfg_browser_image : string
}.

(** [resolveSandboxConfigForAgent] belongs to [./config.js]. *)
Variable resolveSandboxConfigForAgent : Config -> option string -> SandboxConfig.

Definition backendCommand (b : SandboxBackend) : string :=
  match b with podman => "podman" | docker => "docker" end.

Definition listSandboxContainers : Prog Eff (Settled (list Info)) :=
  config <- loadConfig ;;
  listSandboxRegistryItems readRegistry
    (fun agentId =>
       let cfg := resolveSandboxConfigForAgent config agentId in
       {| configuredImage := cfg_docker_image cfg;
          command := backendCommand (cfg_backend cfg) |}).

Definition listSandboxBrowsers : Prog Eff (Settled (list Info)) :=
  config <- loadConfig ;;
  listSandboxRegistryItems readBrowserRegistry
    (fun agentId =>
       let cfg := resolveSandboxConfigForAgent config agentId in
       {| configuredImage := cfg_browser_image cfg;
          command := backendCommand (cfg_backend cfg) |}).

(** ** Removal *)

Definition rmArgs (name : string) : list string := ["rm"; "-f"; name].

Definition removeSandboxContainer (name : string) : Prog Eff (Settled unit) :=
  _ <- execDocker (rmArgs name) true "docker" ;;
  _ <- execDocker (rmArgs name) true "podman" ;;
  removeRegistryEntry name.

(** [BROWSER_BRIDGES]: a [Map] from session key to bridge, iterated in
    insertion order, its keys distinct; the process-wide map is passed in
    and out.  The loop visits the entries the map had when it started and
    deletes the visited entry from the map. *)
Record Bridge := { bridge_server : Server; bridge_containerName : string }.

Definition BridgeMap := list (string * Bridge).

Definition mapDelete (key : string) (m : BridgeMap) : BridgeMap :=
  List.filter (fun kv => negb (String.eqb (fst kv) key)) m.

Fixpoint stopBridges (name : string) (pending : list (string * Bridge))
    (bridges : BridgeMap) : Prog Eff BridgeMap :=
  match pending with
  | [] => Ret bridges
  | (key, bridge) :: rest =>
      if String.eqb (bridge_containerName bridge) name then
        _ <- stopBrowserBridgeServer (bridge_server bridge) ;;
        stopBridges name rest (mapDelete key bridges)
      else stopBridges name rest bridges
  end.

Definition removeSandboxBrowserContainer (name : string) (bridges : BridgeMap) :
    Prog Eff (Settled unit * BridgeMap) :=
  _ <- execDocker (rmArgs name) true "docker" ;;
  _ <- execDocker (rmArgs name) true "podman" ;;
  r <- removeBrowserRegistryEntry name ;;
  match r with
  | Rejected err => Ret (Rejected err, bridges)
  | Fulfilled _ =>
      bridges' <- stopBridges name bridges bridges ;;
      Ret (Fulfilled tt, bridges')
  end.


(** ** What a listing reports

    The reconciliation rule in the words of the specification: the actual
    image is the one read back from the live container when the container
    exists and the read succeeds, and the registry's persisted image
    otherwise; [imageMatch] compares it with the configured image. *)

Definition spec_actualImage (containerExists : bool) (liveImage : option string)
    (persisted : string) : string :=
  match containerExists, liveImage with
  | true, Some img => img
  | _, _ => persisted
  end.

Definition spec_imageMatch (actualImage configured : string) : bool :=
  String.eqb actualImage configured.

(** The image a successful read-back reported, taken from the observations
    made for one entry. *)
Definition readBack (seg : list Obs) : option string :=
  match seg with
  | [_; OExecDocker _ _ _ (Fulfilled result)] =>
      if code result =? 0 then Some (Js.trim (stdout result)) else None
  | _ => None
  end.

Definition item_spec (resolveEntryConfig : option string -> EntryConfig)
    (entry : Entry) (seg : list Obs) (item : Info) : Prop :=
  let cfg := resolveEntryConfig (resolveSandboxAgentId (sessionKey entry)) in
  exists state,
    (if state_exists state then
       exists r,
         seg = [OContainerState (containerName entry) (command cfg) (Fulfilled state);
                OExecDocker (inspectArgs (containerName entry)) true (command cfg) r]
     else seg = [OContainerState (containerName entry) (command cfg) (Fulfilled state)])
    /\ let actualImage :=
         spec_actualImage (state_exists state) (readBack seg) (image entry) in
       item = {| info_entry := withImage entry actualImage;
                 info_running := state_running state;
                 imageMatch := spec_imageMatch actualImage (configuredImage cfg) |}.

(** One listing call: the registry is read, then every entry is probed in
    registry order, and every reported item follows the rule on the
    observations of this very call. *)
Definition listing_spec (read : Prog Eff (Settled (list Entry)))
    (resolveEntryConfig : option string -> EntryConfig)
    (tr : list Obs) (results : list Info) : Prop :=
  exists tr0 entries segs,
    exec observe read tr0 (Fulfilled entries)
    /\ tr = tr0 ++ concat segs
    /\ Forall3 (item_spec resolveEntryConfig) entries segs results.

Definition listTwice (read : Prog Eff (Settled (list Entry)))
    (resolveEntryConfig : option string -> EntryConfig) :
    Prog Eff (Settled (list Info) * Settled (list Info)) :=
  (first <- listSandboxRegistryItems read resolveEntryConfig ;;
   second <- listSandboxRegistryItems read resolveEntryConfig ;;
   Ret (first, second))%prog.

Lemma listEntry_item resolveEntryConfig entry seg item :
  exec observe (listEntry resolveEntryConfig entry) seg (Fulfilled item) ->
  item_spec resolveEntryConfig entry seg item.
Proof.
  intros H. unfold listEntry, dockerContainerState, execDocker in H.
  exec_all H. destruct x as [state | err].
  - exists state. destruct (state_exists state) eqn:Hex.
    + exec_all H. injection H0 as ->. split; [eauto|].
      simpl. destruct x as [result | err]; [destruct (code result =? 0)|]; reflexivity.
    + exec_all H. injection H0 as ->. split; reflexivity.
  - exec_all H. discriminate.
Qed.

Lemma listLoop_items resolveEntryConfig entries :
  forall acc tr results,
    exec observe (listLoop resolveEntryConfig entries acc) tr (Fulfilled results) ->
    exists segs items,
      tr = concat segs /\ results = acc ++ items
      /\ Forall3 (item_spec resolveEntryConfig) entries segs items.
Proof.
  induction entries as [|entry rest IH]; intros acc tr results H;
    cbn [listLoop] in H.
  - exec_all H. injection H0 as ->. exists [], []. rewrite app_nil_r.
    repeat split; constructor.
  - apply exec_bind in H as (seg & r & tr2 & H1 & H2 & ->).
    destruct r as [item | err].
    + apply listEntry_item in H1.
      apply IH in H2 as (segs & items & -> & -> & HF).
      exists (seg :: segs), (item :: items). rewrite <- app_assoc.
      repeat split; auto. now constructor.
    + exec_all H2. discriminate.
Qed.

Lemma listSandboxRegistryItems_listing read resolveEntryConfig tr results :
  exec observe (listSandboxRegistryItems read resolveEntryConfig) tr (Fulfilled results) ->
  listing_spec read resolveEntryConfig tr results.
Proof.
  intros H. unfold listSandboxRegistryItems in H.
  apply exec_bind in H as (tr0 & r & tr2 & H1 & H2 & ->).
  destruct r as [entries | err].
  - apply listLoop_items in H2 as (segs & items & -> & -> & HF).
    exists tr0, entries, segs. auto.
  - exec_all H2. discriminate.
Qed.

(** Conversely, a run that follows the rule is a run of the code: the
    entry is listed whatever the read-back answered, a rejection
    included. *)
Lemma item_listEntry resolveEntryConfig entry seg item :
  item_spec resolveEntryConfig entry seg item ->
  exec observe (listEntry resolveEntryConfig entry) seg (Fulfilled item).
Proof.
  intros (state & Hseg & ->).
  unfold listEntry, dockerContainerState, execDocker, call. cbn [bind].
  destruct (state_exists state) eqn:Hex.
  - destruct Hseg as (r & ->).
    apply (exec_vis observe _ (DockerContainerState _ _) _ (Fulfilled state)).
    rewrite Hex. cbn [bind].
    apply (exec_vis observe _ (ExecDocker _ _ _) _ r).
    cbn [spec_actualImage readBack spec_imageMatch].
    destruct r as [result|err]; [destruct (code result =? 0)|]; constructor.
  - subst seg.
    apply (exec_vis observe _ (DockerContainerState _ _) _ (Fulfilled state)).
    rewrite Hex. cbn [bind spec_actualImage spec_imageMatch]. constructor.
Qed.

Lemma items_listLoop resolveEntryConfig entries segs items :
  Forall3 (item_spec resolveEntryConfig) entries segs items ->
  forall acc,
    exec observe (listLoop resolveEntryConfig entries acc) (concat segs)
      (Fulfilled (acc ++ items)).
Proof.
  induction 1 as [|entry seg item entries segs items Hitem HF IH]; intros acc;
    cbn [listLoop concat].
  - rewrite app_nil_r. constructor.
  - apply exec_bind. exists seg, (Fulfilled item), (concat segs).
    split; [now apply item_listEntry|]. split; [|reflexivity].
    replace (acc ++ item :: items) with ((acc ++ [item]) ++ items)
      by (now rewrite <- app_assoc).
    apply IH.
Qed.

Lemma listing_listSandboxRegistryItems read resolveEntryConfig tr results :
  listing_spec read resolveEntryConfig tr results ->
  exec observe (listSandboxRegistryItems read resolveEntryConfig) tr (Fulfilled results).
Proof.
  intros (tr0 & entries & segs & Hread & -> & HF). unfold listSandboxRegistryItems.
  apply exec_bind. exists tr0, (Fulfilled entries), (concat segs).
  split; [exact Hread|]. split; [|reflexivity].
  exact (items_listLoop _ _ _ _ HF []).
Qed.

(** C3. The listings that complete are exactly the runs that follow the
    rule: the registry is read, every entry is probed in registry order and
    is listed, with [imageMatch = (actualImage == configuredImage)], where
    the actual image is the one read back from the live container when the
    container exists and the read succeeds (fulfilled, exit code 0), and
    the registry's persisted image otherwise; a read-back that fails,
    rejected or with another exit code, does not fail the listing.  The
    image an item carries is the one compared.  Nothing is kept between
    calls: two listings in a row complete exactly when each follows the
    rule on its own observations, whatever the other one observed. *)
Theorem imageMatch_reconciled read resolveEntryConfig :
  (forall tr results,
      exec observe (listSandboxRegistryItems read resolveEntryConfig) tr
        (Fulfilled results)
      <-> listing_spec read resolveEntryConfig tr results)
  /\ (forall tr results,
         exec observe (listSandboxRegistryItems read resolveEntryConfig) tr
           (Fulfilled results) ->
         Forall (fun item =>
                   imageMatch item =
                   String.eqb (image (info_entry item))
                     (configuredImage
                        (resolveEntryConfig
                           (resolveSandboxAgentId (sessionKey (info_entry item))))))
           results)
  /\ (forall tr first second,
         exec observe (listTwice read resolveEntryConfig) tr
           (Fulfilled first, Fulfilled second)
         <-> exists tr1 tr2,
               tr = tr1 ++ tr2
               /\ listing_spec read resolveEntryConfig tr1 first
               /\ listing_spec read resolveEntryConfig tr2 second).
Proof.
  split; [|split].
  - intros tr results. split.
    + apply listSandboxRegistryItems_listing.
    + apply listing_listSandboxRegistryItems.
  - intros tr results H.
    apply listSandboxRegistryItems_listing in H as (tr0 & entries & segs & _ & _ & HF).
    induction HF as [|entry seg item entries segs items Hitem HF IH];
      constructor; auto.
    destruct Hitem as (state & _ & ->). reflexivity.
  - intros tr first second. unfold listTwice. split.
    + intros H.
      apply exec_bind in H as (tr1 & r1 & tr' & H1 & H & ->).
      apply exec_bind in H as (tr2 & r2 & tr3 & H2 & H & ->).
      exec_all H. injection H0 as <- <-.
      exists tr1, tr2. rewrite app_nil_r.
      auto using listSandboxRegistryItems_listing.
    + intros (tr1 & tr2 & -> & H1 & H2).
      apply exec_bind. exists tr1, (Fulfilled first), tr2.
      split; [now apply listing_listSandboxRegistryItems|]. split; [|reflexivity].
      apply exec_bind. exists tr2, (Fulfilled second), [].
      split; [now apply listing_listSandboxRegistryItems|].
      split; [constructor|now rewrite app_nil_r].
Qed.


(** ** Removal: what every run does *)

Definition isBridgeStop (o : Obs) : bool :=
  match o with OStopBridge _ _ => true | _ => false end.

Definition boundTo (name : string) (kv : string * Bridge) : bool :=
  String.eqb (bridge_containerName (snd kv)) name.

Definition boundKeys (name : string) (pending : list (string * Bridge)) : list string :=
  map fst (List.filter (boundTo name) pending).

Definition deleteKeys (keys : list string) (m : BridgeMap) : BridgeMap :=
  List.filter (fun kv => negb (existsb (String.eqb (fst kv)) keys)) m.

Lemma filter_filter_and {A} (P Q : A -> bool) (l : list A) :
  List.filter P (List.filter Q l) = List.filter (fun a => Q a && P a) l.
Proof.
  induction l as [|a l IH]; simpl; auto.
  destruct (Q a); simpl; [destruct (P a)|]; now rewrite IH.
Qed.

Lemma filter_ext_bool {A} (P Q : A -> bool) (l : list A) :
  (forall a, P a = Q a) -> List.filter P l = List.filter Q l.
Proof. intros H. induction l as [|a l IH]; simpl; auto. now rewrite H, IH. Qed.

Lemma deleteKeys_mapDelete key keys m :
  deleteKeys keys (mapDelete key m) = deleteKeys (key :: keys) m.
Proof.
  unfold deleteKeys, mapDelete. rewrite filter_filter_and.
  apply filter_ext_bool. intros [k b]. simpl.
  now rewrite negb_orb.
Qed.

Lemma deleteKeys_nil m : deleteKeys [] m = m.
Proof.
  unfold deleteKeys. induction m as [|a m IH]; [reflexivity|].
  cbn [List.filter existsb negb]. f_equal. exact IH.
Qed.

Lemma boundKeys_cons name key bridge rest :
  boundKeys name ((key, bridge) :: rest) =
  if String.eqb (bridge_containerName bridge) name
  then key :: boundKeys name rest else boundKeys name rest.
Proof.
  unfold boundKeys. simpl. unfold boundTo at 1. simpl.
  now destruct (String.eqb (bridge_containerName bridge) name).
Qed.

Lemma stopBridges_runs name pending :
  forall bridges tr out,
    exec observe (stopBridges name pending bridges) tr out ->
    out = deleteKeys (boundKeys name pending) bridges
    /\ forallb isBridgeStop tr = true
    /\ length tr = length (boundKeys name pending).
Proof.
  induction pending as [|[key bridge] rest IH]; intros bridges tr out H;
    cbn [stopBridges] in H.
  - exec_all H. now rewrite deleteKeys_nil.
  - rewrite boundKeys_cons.
    destruct (String.eqb (bridge_containerName bridge) name).
    + unfold stopBrowserBridgeServer, call in H. simpl in H. exec_step H.
      apply IH in H as (-> & Hs & Hl). simpl.
      rewrite deleteKeys_mapDelete. auto.
    + now apply IH in H.
Qed.

Lemma boundKeys_none name bridges :
  forallb (fun kv => negb (boundTo name kv)) bridges = true ->
  boundKeys name bridges = [].
Proof.
  unfold boundKeys. induction bridges as [|kv m IH]; simpl; auto.
  intros H. apply andb_prop in H as [H1 H2].
  destruct (boundTo name kv); [discriminate|auto].
Qed.

Lemma deleteKeys_bound_gone name bridges :
  forallb (fun kv => negb (boundTo name kv))
    (deleteKeys (boundKeys name bridges) bridges) = true.
Proof.
  unfold deleteKeys. apply forallb_forall. intros kv Hin.
  apply filter_In in Hin as [Hin Hk].
  destruct (boundTo name kv) eqn:Hb; auto.
  assert (Hex : existsb (String.eqb (fst kv)) (boundKeys name bridges) = true).
  { apply existsb_exists. exists (fst kv). split; [|apply String.eqb_refl].
    unfold boundKeys. apply in_map. apply filter_In. auto. }
  rewrite Hex in Hk. discriminate.
Qed.

(** ** The persisted registry *)

(** Modelled from the spec: the registry's own read/write layer
    ([./registry.js]) is not part of these sources.  There are two
    registries of the same shape, keyed by container name. *)
Record Registry := { plainEntries : list Entry; browserEntries : list Entry }.

Definition registryEntries (kind : RegistryKind) (reg : Registry) : list Entry :=
  match kind with
  | PlainRegistry => plainEntries reg
  | BrowserRegistry => browserEntries reg
  end.

(** Modelled from the spec: [removeRegistryEntry] and
    [removeBrowserRegistryEntry] delete the entry of that container name;
    deleting an entry that is not there is a no-op. *)
Definition dropEntry (name : string) (entries : list Entry) : list Entry :=
  List.filter (fun e => negb (String.eqb (containerName e) name)) entries.

Definition deleteEntry (kind : RegistryKind) (name : string) (reg : Registry) : Registry :=
  match kind with
  | PlainRegistry =>
      {| plainEntries := dropEntry name (plainEntries reg);
         browserEntries := browserEntries reg |}
  | BrowserRegistry =>
      {| plainEntries := plainEntries reg;
         browserEntries := dropEntry name (browserEntries reg) |}
  end.

Definition hasEntry (kind : RegistryKind) (name : string) (reg : Registry) : bool :=
  existsb (fun e => String.eqb (containerName e) name) (registryEntries kind reg).

(** The container runtimes and the bridge servers answer as they please:
    any state [S], any answers. *)
Record Host (S : Type) := {
  host_config : S -> Config;
  host_state : string -> string -> S -> Settled ContainerState * S;
  host_exec : list string -> bool -> string -> S -> Settled DockerResult * S;
  host_stop : Server -> S -> Settled unit * S
}.
Arguments host_config {S} _ _.
Arguments host_state {S} _ _ _ _.
Arguments host_exec {S} _ _ _ _ _.
Arguments host_stop {S} _ _ _.

Definition onHost {S X} (reg : Registry) (r : X * S) : X * (S * Registry) :=
  (fst r, (snd r, reg)).

(** Modelled from the spec: the registry calls read and delete as above
    and always fulfil; everything else is the host's answer. *)
Definition hostHandler {S} (host : Host S) : Handler Eff (S * Registry) :=
  fun X (e : Eff X) =>
    match e in Eff X return S * Registry -> X * (S * Registry) with
    | LoadConfig => fun w => (host_config host (fst w), w)
    | ReadRegistryFile kind => fun w => (Fulfilled (registryEntries kind (snd w)), w)
    | RemoveRegistryEntryFile kind name =>
        fun w => (Fulfilled tt, (fst w, deleteEntry kind name (snd w)))
    | DockerContainerState name command =>
        fun w => onHost (snd w) (host_state host name command (fst w))
    | ExecDocker args allow command =>
        fun w => onHost (snd w) (host_exec host args allow command (fst w))
    | StopBrowserBridgeServer server =>
        fun w => onHost (snd w) (host_stop host server (fst w))
    end.

Lemma dropEntry_idem name entries :
  dropEntry name (dropEntry name entries) = dropEntry name entries.
Proof.
  unfold dropEntry. rewrite filter_filter_and. apply filter_ext_bool.
  intros e. now rewrite andb_diag.
Qed.

Lemma deleteEntry_idem kind name reg :
  deleteEntry kind name (deleteEntry kind name reg) = deleteEntry kind name reg.
Proof. destruct kind; unfold deleteEntry; simpl; now rewrite dropEntry_idem. Qed.

Lemma deleteEntry_gone kind name reg :
  hasEntry kind name (deleteEntry kind name reg) = false.
Proof.
  unfold hasEntry. apply not_true_is_false. intros H.
  apply existsb_exists in H as (e & Hin & He).
  destruct kind; simpl in Hin; apply filter_In in Hin as [_ Hn];
    rewrite He in Hn; discriminate.
Qed.

(** Under [hostHandler] the registry calls of a run answer from, and act
    on, the registry the run started with. *)
Fixpoint follows (reg : Registry) (tr : list Obs) (reg' : Registry) : Prop :=
  match tr with
  | [] => reg' = reg
  | OReadRegistry kind r :: tr' =>
      r = Fulfilled (registryEntries kind reg) /\ follows reg tr' reg'
  | ORemoveRegistryEntry kind name r :: tr' =>
      r = Fulfilled tt /\ follows (deleteEntry kind name reg) tr' reg'
  | _ :: tr' => follows reg tr' reg'
  end.

Lemma run_follows {S A} (host : Host S) (p : Prog Eff A) :
  forall s reg,
    let r := run observe (hostHandler host) p (s, reg) in
    follows reg (trace r) (snd (world r)).
Proof.
  induction p as [a | X e k IH]; intros s reg; simpl; [reflexivity|].
  unfold trace, world in *. simpl.
  destruct e; simpl; try split; try reflexivity; apply IH.
Qed.

Lemma follows_stops reg tr reg' :
  forallb isBridgeStop tr = true -> follows reg tr reg' -> reg' = reg.
Proof.
  induction tr as [|o tr IH]; simpl; auto.
  intros H. apply andb_prop in H as [Ho H].
  destruct o; try discriminate. auto.
Qed.


Lemma removeSandboxContainer_runs name tr out :
  exec observe (removeSandboxContainer name) tr out ->
  exists r1 r2,
    tr = [OExecDocker (rmArgs name) true "docker" r1;
          OExecDocker (rmArgs name) true "podman" r2;
          ORemoveRegistryEntry PlainRegistry name out].
Proof.
  intros H. unfold removeSandboxContainer, execDocker, removeRegistryEntry in H.
  exec_all H. eauto.
Qed.

Lemma removeSandboxBrowserContainer_runs name bridges tr res :
  exec observe (removeSandboxBrowserContainer name bridges) tr res ->
  exists r1 r2 r3 stops,
    tr = [OExecDocker (rmArgs name) true "docker" r1;
          OExecDocker (rmArgs name) true "podman" r2;
          ORemoveRegistryEntry BrowserRegistry name r3] ++ stops
    /\ forallb isBridgeStop stops = true
    /\ match r3 with
       | Fulfilled _ =>
           res = (Fulfilled tt, deleteKeys (boundKeys name bridges) bridges)
           /\ length stops = length (boundKeys name bridges)
       | Rejected err => res = (Rejected err, bridges) /\ stops = []
       end.
Proof.
  intros H.
  unfold removeSandboxBrowserContainer, execDocker, removeBrowserRegistryEntry, call in H.
  simpl in H. do 3 exec_step H.
  exists x, x0, x1. destruct x1 as [[] | err].
  - apply exec_bind in H as (stops & b & tr2 & H1 & H2 & ->).
    apply stopBridges_runs in H1 as (-> & Hs & Hl). exec_all H2.
    exists stops. rewrite app_nil_r. auto.
  - exec_all H. exists []. auto.
Qed.

Lemma run_removeSandboxContainer {S} (host : Host S) name s reg :
  let r := run observe (hostHandler host) (removeSandboxContainer name) (s, reg) in
  result r = Fulfilled tt
  /\ snd (world r) = deleteEntry PlainRegistry name reg.
Proof.
  intros r.
  pose proof (run_exec observe (hostHandler host) (removeSandboxContainer name) (s, reg))
    as Hex.
  pose proof (run_follows host (removeSandboxContainer name) s reg) as Hf.
  cbv zeta in Hf. fold r in Hex, Hf.
  apply removeSandboxContainer_runs in Hex as (r1 & r2 & Htr).
  rewrite Htr in Hf. cbn [follows] in Hf. exact Hf.
Qed.

Lemma run_removeSandboxBrowserContainer {S} (host : Host S) name bridges s reg :
  let r := run observe (hostHandler host)
             (removeSandboxBrowserContainer name bridges) (s, reg) in
  result r = (Fulfilled tt, deleteKeys (boundKeys name bridges) bridges)
  /\ snd (world r) = deleteEntry BrowserRegistry name reg
  /\ forallb isBridgeStop (skipn 3 (trace r)) = true
  /\ length (skipn 3 (trace r)) = length (boundKeys name bridges).
Proof.
  intros r.
  pose proof (run_exec observe (hostHandler host)
                (removeSandboxBrowserContainer name bridges) (s, reg)) as Hex.
  pose proof (run_follows host (removeSandboxBrowserContainer name bridges) s reg) as Hf.
  cbv zeta in Hf. fold r in Hex, Hf.
  apply removeSandboxBrowserContainer_runs in Hex as (r1 & r2 & r3 & stops & Htr & Hs & Hr).
  rewrite Htr in Hf |- *. cbn [follows app] in Hf. destruct Hf as [-> Hf].
  apply follows_stops in Hf; auto. destruct Hr as [-> Hl]. simpl. auto.
Qed.

Lemma deleteKeys_settled name bridges :
  let bridges' := deleteKeys (boundKeys name bridges) bridges in
  deleteKeys (boundKeys name bridges') bridges' = bridges'.
Proof.
  intros bridges'. rewrite (boundKeys_none name bridges').
  - apply deleteKeys_nil.
  - apply deleteKeys_bound_gone.
Qed.

(** C2. Removal, of a plain and of a browser container alike, runs
    [rm -f] on docker and on podman whatever the first answered, ignores
    what either answered (a rejection included), and then deletes the
    registry entry; the outcome is that of the registry deletion alone.
    Removing the same name again completes the same way and changes
    nothing further. *)
Theorem remove_forces_both_backends :
  (forall name tr out,
      exec observe (removeSandboxContainer name) tr out ->
      exists r1 r2,
        tr = [OExecDocker (rmArgs name) true "docker" r1;
              OExecDocker (rmArgs name) true "podman" r2;
              ORemoveRegistryEntry PlainRegistry name out])
  /\ (forall name bridges tr res,
         exec observe (removeSandboxBrowserContainer name bridges) tr res ->
         exists r1 r2 r3 stops,
           tr = [OExecDocker (rmArgs name) true "docker" r1;
                 OExecDocker (rmArgs name) true "podman" r2;
                 ORemoveRegistryEntry BrowserRegistry name r3] ++ stops
           /\ forallb isBridgeStop stops = true
           /\ isFulfilled (fst res) = isFulfilled r3)
  /\ (forall S (host : Host S) name s reg,
         let first :=
           run observe (hostHandler host) (removeSandboxContainer name) (s, reg) in
         let again :=
           run observe (hostHandler host) (removeSandboxContainer name) (world first) in
         result first = Fulfilled tt
         /\ hasEntry PlainRegistry name (snd (world first)) = false
         /\ result again = Fulfilled tt
         /\ snd (world again) = snd (world first))
  /\ (forall S (host : Host S) name bridges s reg,
         let first :=
           run observe (hostHandler host)
             (removeSandboxBrowserContainer name bridges) (s, reg) in
         let again :=
           run observe (hostHandler host)
             (removeSandboxBrowserContainer name (snd (result first))) (world first) in
         fst (result first) = Fulfilled tt
         /\ hasEntry BrowserRegistry name (snd (world first)) = false
         /\ result again = result first
         /\ snd (world again) = snd (world first)).
Proof.
  split; [exact removeSandboxContainer_runs|]. split; [|split].
  - intros name bridges tr res H.
    apply removeSandboxBrowserContainer_runs in H as (r1 & r2 & r3 & stops & Htr & Hs & Hr).
    exists r1, r2, r3, stops. repeat split; auto.
    destruct r3; destruct Hr as [-> _]; reflexivity.
  - intros S host name s reg first again.
    destruct (run_removeSandboxContainer host name s reg) as [Hr Hw].
    fold first in Hr, Hw. subst again.
    destruct (world first) as [s1 reg1] eqn:Hw1. cbn [snd] in Hw. subst reg1.
    destruct (run_removeSandboxContainer host name s1
                (deleteEntry PlainRegistry name reg)) as [Hr2 Hw2].
    cbn [snd]. rewrite Hr, Hr2, Hw2, deleteEntry_idem, deleteEntry_gone. auto.
  - intros S host name bridges s reg first again.
    destruct (run_removeSandboxBrowserContainer host name bridges s reg)
      as (Hr & Hw & _).
    fold first in Hr, Hw. subst again.
    destruct (world first) as [s1 reg1] eqn:Hw1. cbn [snd] in Hw. subst reg1.
    rewrite Hr. cbn [snd fst].
    destruct (run_removeSandboxBrowserContainer host name
                (deleteKeys (boundKeys name bridges) bridges) s1
                (deleteEntry BrowserRegistry name reg)) as (Hr2 & Hw2 & _).
    rewrite Hr2, Hw2, deleteEntry_idem, deleteEntry_gone.
    rewrite deleteKeys_settled. auto.
Qed.

(** C10, as the code has it. The bridge scan looks at the process-wide
    bridge map only: when no bridge of the map is bound to the container
    name, removal completes without error, stops no bridge and leaves the
    map as it was, whether or not the persisted registry has an entry for
    the name. *)
Theorem browser_remove_without_bound_bridge
    S (host : Host S) (name : string) (bridges : BridgeMap) (s : S) (reg : Registry) :
  forallb (fun kv => negb (boundTo name kv)) bridges = true ->
  let r := run observe (hostHandler host)
             (removeSandboxBrowserContainer name bridges) (s, reg) in
  result r = (Fulfilled tt, bridges)
  /\ existsb isBridgeStop (trace r) = false.
Proof.
  intros Hnone r.
  destruct (run_removeSandboxBrowserContainer host name bridges s reg)
    as (Hr & _ & _ & Hl).
  pose proof (run_exec observe (hostHandler host)
                (removeSandboxBrowserContainer name bridges) (s, reg)) as Hex.
  fold r in Hr, Hl, Hex.
  rewrite (boundKeys_none _ _ Hnone) in Hr, Hl. rewrite deleteKeys_nil in Hr.
  split; [exact Hr|].
  apply removeSandboxBrowserContainer_runs in Hex as (r1 & r2 & r3 & stops & Htr & _).
  rewrite Htr in Hl |- *. simpl in Hl. destruct stops; [reflexivity|discriminate].
Qed.

(** ** Listing: what it never does, and how it fails *)

(** A call that only reads: the configuration, a registry, the state of a
    container, or an [inspect] that is allowed to fail. *)
Definition isReadOnly (o : Obs) : bool :=
  match o with
  | OLoadConfig _ | OReadRegistry _ _ | OContainerState _ _ _ => true
  | OExecDocker args allowFailure _ _ =>
      allowFailure && String.eqb (hd "" args) "inspect"
  | ORemoveRegistryEntry _ _ _ | OStopBridge _ _ => false
  end.

Definition mutates (o : Obs) : bool := negb (isReadOnly o).

Lemma quiet_listEntry resolveEntryConfig entry :
  Quiet observe mutates (listEntry resolveEntryConfig entry).
Proof.
  unfold listEntry, dockerContainerState, execDocker, call. cbn [bind].
  apply quiet_vis; [reflexivity|intros [state|err]]; [|apply quiet_ret].
  destruct (state_exists state); cbn [bind]; [|apply quiet_ret].
  apply quiet_vis; [reflexivity|intros r]. apply quiet_ret.
Qed.

Lemma quiet_listLoop resolveEntryConfig entries :
  forall acc, Quiet observe mutates (listLoop resolveEntryConfig entries acc).
Proof.
  induction entries as [|entry rest IH]; intros acc; cbn [listLoop].
  - apply quiet_ret.
  - apply quiet_bind; [apply quiet_listEntry|].
    intros [item|err]; [apply IH|apply quiet_ret].
Qed.

Lemma quiet_listSandboxRegistryItems read resolveEntryConfig :
  Quiet observe mutates read ->
  Quiet observe mutates (listSandboxRegistryItems read resolveEntryConfig).
Proof.
  intros Hread. unfold listSandboxRegistryItems.
  apply quiet_bind; [exact Hread|].
  intros [entries|err]; [apply quiet_listLoop|apply quiet_ret].
Qed.

Lemma quiet_read_only {A} (p : Prog Eff A) tr a :
  Quiet observe mutates p -> exec observe p tr a -> forallb isReadOnly tr = true.
Proof.
  intros Hq H. specialize (Hq tr a H).
  rewrite forallb_forall in Hq |- *. intros o Hin. specialize (Hq o Hin).
  unfold mutates in Hq. now rewrite negb_involutive in Hq.
Qed.

(** X1. A listing, of plain containers or of browser containers, only
    reads: in every run, completed or failed, each call is the
    configuration load, the registry read, a container state probe or an
    [inspect] that is allowed to fail.  No registry entry is removed, no
    bridge is stopped, no other container command is run. *)
Theorem listing_only_reads :
  (forall tr out, exec observe listSandboxContainers tr out ->
     forallb isReadOnly tr = true)
  /\ (forall tr out, exec observe listSandboxBrowsers tr out ->
        forallb isReadOnly tr = true).
Proof.
  split; intros tr out H; refine (quiet_read_only _ tr out _ H);
    unfold listSandboxContainers, listSandboxBrowsers, loadConfig, call; cbn [bind];
    (apply quiet_vis; [reflexivity|intros config]);
    apply quiet_listSandboxRegistryItems;
    unfold readRegistry, readBrowserRegistry, call;
    (apply quiet_vis; [reflexivity|intros r; apply quiet_ret]).
Qed.

Definition rejectedState (o : Obs) : bool :=
  match o with OContainerState _ _ (Rejected _) => true | _ => false end.

(** The state probe of an entry, rejected. *)
Definition failedProbe (resolveEntryConfig : option string -> EntryConfig)
    (entry : Entry) (err : string) : Obs :=
  OContainerState (containerName entry)
    (command (resolveEntryConfig (resolveSandboxAgentId (sessionKey entry))))
    (Rejected err).

Lemma listEntry_rejected resolveEntryConfig entry seg err :
  exec observe (listEntry resolveEntryConfig entry) seg (Rejected err) ->
  seg = [failedProbe resolveEntryConfig entry err].
Proof.
  intros H. unfold listEntry, dockerContainerState, execDocker in H.
  exec_all H. destruct x as [state|err'].
  - destruct (state_exists state); exec_all H; discriminate.
  - exec_all H. now injection H0 as ->.
Qed.

Lemma listEntry_fulfilled resolveEntryConfig entry seg item :
  exec observe (listEntry resolveEntryConfig entry) seg (Fulfilled item) ->
  existsb rejectedState seg = false.
Proof.
  intros H. unfold listEntry, dockerContainerState, execDocker in H.
  exec_all H. destruct x as [state|err'].
  - destruct (state_exists state); exec_all H; reflexivity.
  - exec_all H. discriminate.
Qed.

Lemma listLoop_rejected resolveEntryConfig entries :
  forall acc tr err,
    exec observe (listLoop resolveEntryConfig entries acc) tr (Rejected err) ->
    exists probed entry,
      In entry entries
      /\ tr = probed ++ [failedProbe resolveEntryConfig entry err]
      /\ existsb rejectedState probed = false.
Proof.
  induction entries as [|entry rest IH]; intros acc tr err H; cbn [listLoop] in H.
  - exec_all H. discriminate.
  - apply exec_bind in H as (seg & r & tr2 & H1 & H2 & ->).
    destruct r as [item|err'].
    + apply listEntry_fulfilled in H1.
      apply IH in H2 as (probed & e & Hin & -> & Hnone).
      exists (seg ++ probed), e. rewrite <- app_assoc, existsb_app, H1, Hnone.
      repeat split; auto. now right.
    + exec_all H2. injection H0 as ->. apply listEntry_rejected in H1 as ->.
      exists [], entry. split; [now left|]. split; reflexivity.
Qed.

(** X2. A listing fails only where the registry read fails or where a
    container state probe fails, and with that very error: in the first
    case nothing is probed; in the second the failed probe, of one of the
    registry's entries, is the last call of the run, no earlier state
    probe having failed.  (A failing [inspect], by contrast, is
    absorbed.) *)
Theorem listing_fails_at_first_failed_probe read resolveEntryConfig tr err :
  exec observe (listSandboxRegistryItems read resolveEntryConfig) tr (Rejected err) ->
  exec observe read tr (Rejected err)
  \/ exists tr0 entries probed entry,
       exec observe read tr0 (Fulfilled entries)
       /\ In entry entries
       /\ tr = tr0 ++ probed ++ [failedProbe resolveEntryConfig entry err]
       /\ existsb rejectedState probed = false.
Proof.
  intros H. unfold listSandboxRegistryItems in H.
  apply exec_bind in H as (tr0 & r & tr2 & H1 & H2 & ->).
  destruct r as [entries|err'].
  - right. apply listLoop_rejected in H2 as (probed & entry & Hin & -> & Hnone).
    exists tr0, entries, probed, entry. auto.
  - left. exec_all H2. injection H0 as ->. now rewrite app_nil_r.
Qed.

(** How the two listings resolve an entry's configuration: they differ
    in the image they take, [docker.image] or [browser.image]. *)
Definition entryConfigWith (image_of : SandboxConfig -> string) (config : Config)
    (agentId : option string) : EntryConfig :=
  let cfg := resolveSandboxConfigForAgent config agentId in
  {| configuredImage := image_of cfg;
     command := backendCommand (cfg_backend cfg) |}.

(** The sandbox configuration in effect for an entry. *)
Definition configOf (config : Config) (entry : Entry) : SandboxConfig :=
  resolveSandboxConfigForAgent config (resolveSandboxAgentId (sessionKey entry)).

(** A call made for one of the entries, on the runtime of that entry's
    backend. *)
Definition probeOf (config : Config) (entries : list Entry) (o : Obs) : Prop :=
  match o with
  | OContainerState name command _ | OExecDocker [_; _; _; name] _ command _ =>
      exists entry,
        In entry entries /\ name = containerName entry
        /\ command = backendCommand (cfg_backend (configOf config entry))
  | _ => False
  end.

Lemma item_spec_probes config image_of entries entry seg item :
  In entry entries ->
  item_spec (entryConfigWith image_of config) entry seg item ->
  Forall (probeOf config entries) seg
  /\ imageMatch item
     = String.eqb (image (info_entry item)) (image_of (configOf config (info_entry item))).
Proof.
  intros Hin (state & Hseg & Hitem). cbv zeta in Hitem. split.
  - destruct (state_exists state); [destruct Hseg as (r & ->)|subst seg];
      repeat constructor; exists entry; auto.
  - subst item. reflexivity.
Qed.

Lemma listing_spec_probes config image_of kind tr results :
  listing_spec (call (ReadRegistryFile kind)) (entryConfigWith image_of config)
    tr results ->
  exists entries probes,
    tr = OReadRegistry kind (Fulfilled entries) :: probes
    /\ Forall (probeOf config entries) probes
    /\ Forall (fun item =>
                 imageMatch item
                 = String.eqb (image (info_entry item))
                     (image_of (configOf config (info_entry item))))
         results.
Proof.
  intros (tr0 & entries & segs & Hread & -> & HF).
  unfold call in Hread. exec_all Hread.
  exists entries, (concat segs). split; [reflexivity|].
  assert (Hall : forall es, (forall e, In e es -> In e entries) ->
            forall ss rs, Forall3 (item_spec (entryConfigWith image_of config)) es ss rs ->
            Forall (probeOf config entries) (concat ss)
            /\ Forall (fun item =>
                         imageMatch item
                         = String.eqb (image (info_entry item))
                             (image_of (configOf config (info_entry item)))) rs).
  { clear. intros es Hsub ss rs HF.
    induction HF as [|entry seg item es ss rs Hitem HF IH].
    - split; constructor.
    - destruct IH as [IH1 IH2]; [intros e He; apply Hsub; now right|].
      destruct (item_spec_probes config image_of entries entry seg item) as [Hp Hm];
        [apply Hsub; now left|exact Hitem|].
      split; [cbn [concat]; apply Forall_app; auto|constructor; auto]. }
  apply (Hall entries (fun e He => He) segs results HF).
Qed.

(** X3. A listing loads the configuration once, before it reads the
    registry, and judges every entry against that one configuration: plain
    containers against [docker.image], browser containers against
    [browser.image], of the configuration resolved for the entry's agent;
    and every probe of an entry goes to [podman] when that configuration's
    backend is podman and to [docker] otherwise. *)
Theorem listing_uses_one_configuration :
  (forall tr results,
      exec observe listSandboxContainers tr (Fulfilled results) ->
      exists config entries probes,
        tr = OLoadConfig config :: OReadRegistry PlainRegistry (Fulfilled entries) :: probes
        /\ Forall (probeOf config entries) probes
        /\ Forall (fun item =>
                     imageMatch item
                     = String.eqb (image (info_entry item))
                         (cfg_docker_image (configOf config (info_entry item))))
             results)
  /\ (forall tr results,
         exec observe listSandboxBrowsers tr (Fulfilled results) ->
         exists config entries probes,
           tr = OLoadConfig config
                :: OReadRegistry BrowserRegistry (Fulfilled entries) :: probes
           /\ Forall (probeOf config entries) probes
           /\ Forall (fun item =>
                        imageMatch item
                        = String.eqb (image (info_entry item))
                            (cfg_browser_image (configOf config (info_entry item))))
                results).
Proof.
  split; intros tr results H;
    unfold listSandboxContainers, listSandboxBrowsers, loadConfig, call in H;
    cbn [bind] in H; apply exec_vis_inv in H as (config & rest & -> & H);
    apply listSandboxRegistryItems_listing in H;
    [destruct (listing_spec_probes config cfg_docker_image _ _ _ H)
       as (entries & probes & -> & Hp & Hm)
    |destruct (listing_spec_probes config cfg_browser_image _ _ _ H)
       as (entries & probes & -> & Hp & Hm)];
    exists config, entries, probes; auto.
Qed.

(** ** Browser removal: which bridges are stopped *)

Definition stoppedServer (o : Obs) : option Server :=
  match o with OStopBridge server _ => Some server | _ => None end.

Definition serverOf (kv : string * Bridge) : option Server :=
  Some (bridge_server (snd kv)).

Lemma stopBridges_servers name pending :
  forall bridges tr out,
    exec observe (stopBridges name pending bridges) tr out ->
    map stoppedServer tr = map serverOf (List.filter (boundTo name) pending).
Proof.
  induction pending as [|[key bridge] rest IH]; intros bridges tr out H;
    cbn [stopBridges] in H.
  - exec_all H. reflexivity.
  - cbn [List.filter]. unfold boundTo at 1. cbn [snd].
    destruct (String.eqb (bridge_containerName bridge) name).
    + unfold stopBrowserBridgeServer, call in H. simpl in H. exec_step H.
      apply IH in H. cbn [map stoppedServer]. now rewrite H.
    + now apply IH in H.
Qed.

Lemma boundKeys_in name (m : BridgeMap) key :
  In key (boundKeys name m) -> In key (map fst m).
Proof.
  unfold boundKeys. intros H. apply in_map_iff in H as (kv & <- & Hin).
  apply filter_In in Hin as [Hin _]. now apply in_map.
Qed.

Lemma bound_key_unique name (m : BridgeMap) kv :
  NoDup (map fst m) -> In kv m ->
  existsb (String.eqb (fst kv)) (boundKeys name m) = boundTo name kv.
Proof.
  induction m as [|[k b] m IH]; [intros _ []|].
  cbn [map fst]. intros Hnd Hin. apply NoDup_cons in Hnd as [Hk Hnd].
  rewrite list_elem_of_In in Hk. rewrite boundKeys_cons.
  destruct Hin as [<-|Hin].
  - unfold boundTo. cbn [fst snd].
    destruct (String.eqb (bridge_containerName b) name).
    + cbn [existsb]. now rewrite String.eqb_refl.
    + apply not_true_is_false. intros Hex.
      apply existsb_exists in Hex as (k' & Hin' & Heq).
      apply String.eqb_eq in Heq. subst k'. now apply Hk, (boundKeys_in name).
  - rewrite <- (IH Hnd Hin).
    destruct (String.eqb (bridge_containerName b) name); [|reflexivity].
    cbn [existsb]. destruct (String.eqb (fst kv) k) eqn:Heq; [|reflexivity].
    apply String.eqb_eq in Heq. subst k. exfalso. apply Hk. now apply in_map.
Qed.

Lemma deleteKeys_unbound name (m : BridgeMap) :
  NoDup (map fst m) ->
  deleteKeys (boundKeys name m) m = List.filter (fun kv => negb (boundTo name kv)) m.
Proof.
  intros Hnd. unfold deleteKeys. apply filter_ext_in. intros kv Hin.
  now rewrite (bound_key_unique name m kv Hnd Hin).
Qed.

(** X4. When browser removal completes, [BROWSER_BRIDGES] (its keys are
    distinct) is left with the bridges bound to other containers, in their
    order; the bridges bound to the removed container are each stopped
    once, in map order, after the registry deletion, and are dropped from
    the map whatever stopping them answered. *)
Theorem browser_remove_stops_bound_bridges
    (name : string) (bridges : BridgeMap) (tr : list Obs) (bridges' : BridgeMap) :
  NoDup (map fst bridges) ->
  exec observe (removeSandboxBrowserContainer name bridges) tr (Fulfilled tt, bridges') ->
  bridges' = List.filter (fun kv => negb (boundTo name kv)) bridges
  /\ exists r1 r2 stops,
       tr = [OExecDocker (rmArgs name) true "docker" r1;
             OExecDocker (rmArgs name) true "podman" r2;
             ORemoveRegistryEntry BrowserRegistry name (Fulfilled tt)] ++ stops
       /\ map stoppedServer stops = map serverOf (List.filter (boundTo name) bridges).
Proof.
  intros Hnd H.
  unfold removeSandboxBrowserContainer, execDocker, removeBrowserRegistryEntry, call in H.
  simpl in H. do 3 exec_step H. destruct x1 as [[]|err].
  - apply exec_bind in H as (stops & b & tr2 & H1 & H2 & ->).
    pose proof (stopBridges_servers _ _ _ _ _ H1) as Hservers.
    apply stopBridges_runs in H1 as (-> & _ & _). exec_all H2.
    injection H0 as ->. split; [now apply deleteKeys_unbound|].
    exists x, x0, stops. now rewrite app_nil_r.
  - exec_all H. discriminate.
Qed.

(** X5. When the deletion of the browser registry entry fails, browser
    removal fails with that error before it looks at the bridges: no
    bridge is stopped and [BROWSER_BRIDGES] is left as it was. *)
Theorem browser_remove_registry_failure_keeps_bridges
    (name : string) (bridges : BridgeMap) (tr : list Obs)
    (res : Settled unit * BridgeMap) (err : string) :
  exec observe (removeSandboxBrowserContainer name bridges) tr res ->
  In (ORemoveRegistryEntry BrowserRegistry name (Rejected err)) tr ->
  res = (Rejected err, bridges)
  /\ existsb isBridgeStop tr = false
  /\ last tr = Some (ORemoveRegistryEntry BrowserRegistry name (Rejected err)).
Proof.
  intros H Hin.
  apply removeSandboxBrowserContainer_runs in H as (r1 & r2 & r3 & stops & -> & Hs & Hr).
  cbn [app] in Hin. destruct Hin as [Heq|[Heq|[Heq|Hin]]]; try discriminate.
  - injection Heq as ->. destruct Hr as [-> ->]. auto.
  - rewrite forallb_forall in Hs. apply Hs in Hin. discriminate.
Qed.

End Reconciler.

(** The claim read literally: a name without a registry entry is removed
    without error and without touching the bridge map. *)
Definition claimedNoTeardown {T Server Config S}
    (host : Host Server Config S) (s : S) (reg : Registry T)
    (name : string) (bridges : list (string * Bridge Server)) : Prop :=
  hasEntry T BrowserRegistry name reg = false ->
  let r := run (observe T Server Config) (hostHandler T Server Config host)
             (removeSandboxBrowserContainer T Server Config name bridges) (s, reg) in
  result r = (Fulfilled tt, bridges)
  /\ existsb (isBridgeStop T Server Config) (trace r) = false.

(** A host on which every command succeeds. *)
Definition calmHost : Host nat unit unit :=
  {| host_config := fun _ => tt;
     host_state := fun _ _ s =>
       (Fulfilled {| state_exists := false; state_running := false |}, s);
     host_exec := fun _ _ _ s =>
       (Fulfilled {| stdout := ""; stderr := ""; code := 0 |}, s);
     host_stop := fun _ s => (Fulfilled tt, s) |}.

Definition emptyRegistry : Registry unit :=
  {| plainEntries := []; browserEntries := [] |}.

Definition staleBridge : list (string * Bridge nat) :=
  [("agent:main:main", {| bridge_server := 7%nat; bridge_containerName := "sbx-browser-1" |})].

(** A listing on a host where one container runs an older image and the
    other container is gone. *)
Definition driftHost : Host nat unit unit :=
  {| host_config := fun _ => tt;
     host_state := fun name _ s =>
       (Fulfilled {| state_exists := String.eqb name "sbx-a";
                     state_running := String.eqb name "sbx-a" |}, s);
     host_exec := fun _ _ _ s =>
       (Fulfilled {| stdout := "openclaw-sandbox:old" +:+ Js.newline;
                     stderr := ""; code := 0 |}, s);
     host_stop := fun _ s => (Fulfilled tt, s) |}.

Definition sandboxA : Entry unit :=
  {| containerName := "sbx-a"; image := "openclaw-sandbox:new";
     sessionKey := "agent:main:main"; others := tt |}.

Definition sandboxB : Entry unit :=
  {| containerName := "sbx-b"; image := "openclaw-sandbox:new";
     sessionKey := "agent:work:main"; others := tt |}.

Definition newImage (cfg : unit) (agentId : option string) : SandboxConfig :=
  {| cfg_backend := docker; cfg_docker_image := "openclaw-sandbox:new";
     cfg_browser_image := "openclaw-browser:new" |}.

Example listing_flags_drift :
  result
    (run (observe unit nat unit) (hostHandler unit nat unit driftHost)
       (listSandboxContainers unit nat unit (fun _ => None) newImage)
       (tt, {| plainEntries := [sandboxA; sandboxB]; browserEntries := [] |}))
  = Fulfilled
      [ {| info_entry := withImage unit sandboxA "openclaw-sandbox:old";
           info_running := true; imageMatch := false |};
        {| info_entry := sandboxB; info_running := false; imageMatch := true |} ].
Proof. reflexivity. Qed.

(** A host that counts the read-backs: the first one is refused, the
    later ones report the older image the container runs. *)
Definition flakyHost : Host nat unit nat :=
  {| host_config := fun _ => tt;
     host_state := fun _ _ s =>
       (Fulfilled {| state_exists := true; state_running := true |}, s);
     host_exec := fun _ _ _ s =>
       (match s with
        | O => Rejected "Error: Cannot connect to the Docker daemon"
        | S _ => Fulfilled {| stdout := "openclaw-sandbox:old" +:+ Js.newline;
                              stderr := ""; code := 0 |}
        end, S s);
     host_stop := fun _ s => (Fulfilled tt, s) |}.

(** Two listings in a row on that host.  The first falls back on the
    persisted image and reports a match; the second reads the image back
    and reports the drift. *)
Lemma imageMatch_reconciled_witness :
  let read := readRegistry unit nat unit in
  let resolve := entryConfigWith unit newImage cfg_docker_image tt in
  let r := run (observe unit nat unit) (hostHandler unit nat unit flakyHost)
             (listTwice unit nat unit (fun _ => None) read resolve)
             (0%nat, {| plainEntries := [sandboxA]; browserEntries := [] |}) in
  exists tr1 tr2,
    trace r = tr1 ++ tr2
    /\ listing_spec unit nat unit (fun _ => None) read resolve tr1
         [ {| info_entry := sandboxA; info_running := true; imageMatch := true |} ]
    /\ listing_spec unit nat unit (fun _ => None) read resolve tr2
         [ {| info_entry := withImage unit sandboxA "openclaw-sandbox:old";
              info_running := true; imageMatch := false |} ].
Proof.
  intros read resolve r.
  apply (proj1 (proj2 (proj2 (imageMatch_reconciled unit nat unit (fun _ => None)
                                read resolve))
                 (trace r)
                 [ {| info_entry := sandboxA; info_running := true; imageMatch := true |} ]
                 [ {| info_entry := withImage unit sandboxA "openclaw-sandbox:old";
                      info_running := true; imageMatch := false |} ])).
  exact (run_exec (observe unit nat unit) (hostHandler unit nat unit flakyHost)
           (listTwice unit nat unit (fun _ => None) read resolve)
           (0%nat, {| plainEntries := [sandboxA]; browserEntries := [] |})).
Defined.

(** C10, counterexample. The registry is empty, yet a bridge bound to the
    name is still in the process-wide map: removal stops it and deletes
    it from the map. *)
Lemma browser_remove_stops_stale_bridge :
  hasEntry unit BrowserRegistry "sbx-browser-1" emptyRegistry = false
  /\ (let r := run (observe unit nat unit) (hostHandler unit nat unit calmHost)
                 (removeSandboxBrowserContainer unit nat unit "sbx-browser-1" staleBridge)
                 (tt, emptyRegistry) in
      result r = (Fulfilled tt, [])
      /\ trace r =
         [OExecDocker unit nat unit (rmArgs "sbx-browser-1") true "docker"
            (Fulfilled {| stdout := ""; stderr := ""; code := 0 |});
          OExecDocker unit nat unit (rmArgs "sbx-browser-1") true "podman"
            (Fulfilled {| stdout := ""; stderr := ""; code := 0 |});
          ORemoveRegistryEntry unit nat unit BrowserRegistry "sbx-browser-1" (Fulfilled tt);
          OStopBridge unit nat unit 7%nat (Fulfilled tt)])
  /\ ~ claimedNoTeardown calmHost tt emptyRegistry "sbx-browser-1" staleBridge.
Proof.
  split; [reflexivity|]. split; [split; reflexivity|].
  intros H. destruct (H eq_refl) as [Hres _]. discriminate.
Qed.

(** Another name: the bridge stays. *)
Lemma browser_remove_without_bound_bridge_witness :
  forallb (fun kv => negb (boundTo nat "sbx-browser-2" kv)) staleBridge = true
  /\ (let r := run (observe unit nat unit) (hostHandler unit nat unit calmHost)
                 (removeSandboxBrowserContainer unit nat unit "sbx-browser-2" staleBridge)
                 (tt, emptyRegistry) in
      result r = (Fulfilled tt, staleBridge)
      /\ existsb (isBridgeStop unit nat unit) (trace r) = false).
Proof.
  split; [reflexivity|].
  apply (browser_remove_without_bound_bridge unit nat unit unit calmHost
           "sbx-browser-2" staleBridge tt emptyRegistry).
  reflexivity.
Defined.

(** ** Runs that illustrate the properties above *)

(** A host whose container runtime cannot be reached. *)
Definition unreachableHost : Host nat unit unit :=
  {| host_config := fun _ => tt;
     host_state := fun _ _ s =>
       (Rejected "Error: Cannot connect to the Docker daemon", s);
     host_exec := fun _ _ _ s =>
       (Rejected "Error: Cannot connect to the Docker daemon", s);
     host_stop := fun _ s => (Fulfilled tt, s) |}.

(** The listing of two entries on that host stops at the first probe. *)
Lemma listing_fails_at_first_failed_probe_witness :
  let read := readRegistry unit nat unit in
  let resolve := entryConfigWith unit newImage cfg_docker_image tt in
  let r := run (observe unit nat unit) (hostHandler unit nat unit unreachableHost)
             (listSandboxRegistryItems unit nat unit (fun _ => None) read resolve)
             (tt, {| plainEntries := [sandboxA; sandboxB]; browserEntries := [] |}) in
  exec (observe unit nat unit) read (trace r)
    (Rejected "Error: Cannot connect to the Docker daemon")
  \/ exists tr0 entries probed entry,
       exec (observe unit nat unit) read tr0 (Fulfilled entries)
       /\ In entry entries
       /\ trace r
          = tr0 ++ probed
            ++ [failedProbe unit nat unit (fun _ => None) resolve entry
                  "Error: Cannot connect to the Docker daemon"]
       /\ existsb (rejectedState unit nat unit) probed = false.
Proof.
  intros read resolve r.
  apply (listing_fails_at_first_failed_probe unit nat unit (fun _ => None) read resolve
           (trace r) "Error: Cannot connect to the Docker daemon").
  exact (run_exec (observe unit nat unit) (hostHandler unit nat unit unreachableHost)
           (listSandboxRegistryItems unit nat unit (fun _ => None) read resolve)
           (tt, {| plainEntries := [sandboxA; sandboxB]; browserEntries := [] |})).
Defined.

(** Two bridges, of two browser containers, on a host where a bridge
    server does not stop cleanly. *)
Definition twoBridges : list (string * Bridge nat) :=
  [("agent:main:main", {| bridge_server := 7%nat; bridge_containerName := "sbx-browser-1" |});
   ("agent:work:main", {| bridge_server := 8%nat; bridge_containerName := "sbx-browser-2" |})].

Definition stuckBridgeHost : Host nat unit unit :=
  {| host_config := fun _ => tt;
     host_state := fun _ _ s =>
       (Fulfilled {| state_exists := false; state_running := false |}, s);
     host_exec := fun _ _ _ s =>
       (Fulfilled {| stdout := ""; stderr := ""; code := 0 |}, s);
     host_stop := fun _ s => (Rejected "Error: server is not running", s) |}.

Lemma browser_remove_stops_bound_bridges_witness :
  let r := run (observe unit nat unit) (hostHandler unit nat unit stuckBridgeHost)
             (removeSandboxBrowserContainer unit nat unit "sbx-browser-1" twoBridges)
             (tt, emptyRegistry) in
  snd (result r)
  = List.filter (fun kv => negb (boundTo nat "sbx-browser-1" kv)) twoBridges
  /\ exists r1 r2 stops,
       trace r
       = [OExecDocker unit nat unit (rmArgs "sbx-browser-1") true "docker" r1;
          OExecDocker unit nat unit (rmArgs "sbx-browser-1") true "podman" r2;
          ORemoveRegistryEntry unit nat unit BrowserRegistry "sbx-browser-1"
            (Fulfilled tt)] ++ stops
       /\ map (stoppedServer unit nat unit) stops
          = map (serverOf nat) (List.filter (boundTo nat "sbx-browser-1") twoBridges).
Proof.
  intros r.
  apply (browser_remove_stops_bound_bridges unit nat unit "sbx-browser-1" twoBridges
           (trace r) (snd (result r))).
  - cbn [map fst twoBridges]. apply NoDup_cons. split; [|apply NoDup_singleton].
    apply not_elem_of_cons. split; [discriminate|apply not_elem_of_nil].
  - exact (run_exec (observe unit nat unit) (hostHandler unit nat unit stuckBridgeHost)
             (removeSandboxBrowserContainer unit nat unit "sbx-browser-1" twoBridges)
             (tt, emptyRegistry)).
Defined.

(** A host on which the registry file cannot be written. *)
Definition lockedRegistry : Handler (Eff unit nat unit) unit :=
  fun X (e : Eff unit nat unit X) =>
    match e in Eff _ _ _ X return unit -> X * unit with
    | LoadConfig _ _ _ => fun w => (tt, w)
    | ReadRegistryFile _ _ _ kind => fun w => (Fulfilled [], w)
    | RemoveRegistryEntryFile _ _ _ kind name =>
        fun w => (Rejected "Error: EACCES: permission denied", w)
    | DockerContainerState _ _ _ name command =>
        fun w => (Fulfilled {| state_exists := false; state_running := false |}, w)
    | ExecDocker _ _ _ args allow command =>
        fun w => (Fulfilled {| stdout := ""; stderr := ""; code := 0 |}, w)
    | StopBrowserBridgeServer _ _ _ server => fun w => (Fulfilled tt, w)
    end.

Lemma browser_remove_registry_failure_keeps_bridges_witness :
  let r := run (observe unit nat unit) lockedRegistry
             (removeSandboxBrowserContainer unit nat unit "sbx-browser-1" twoBridges) tt in
  result r = (Rejected "Error: EACCES: permission denied", twoBridges)
  /\ existsb (isBridgeStop unit nat unit) (trace r) = false
  /\ last (trace r)
     = Some (ORemoveRegistryEntry unit nat unit BrowserRegistry "sbx-browser-1"
               (Rejected "Error: EACCES: permission denied")).
Proof.
  intros r.
  apply (browser_remove_registry_failure_keeps_bridges unit nat unit "sbx-browser-1"
           twoBridges (trace r) (result r) "Error: EACCES: permission denied").
  - exact (run_exec (observe unit nat unit) lockedRegistry
             (removeSandboxBrowserContainer unit nat unit "sbx-browser-1" twoBridges) tt).
  - vm_compute. auto.
Defined.

End Manage.

(** * The [sandbox backend] command *)

Module BackendCmd.

Inductive SandboxBackend := docker | podman.

Definition backendName (b : SandboxBackend) : string :=
  match b with docker => "docker" | podman => "podman" end.

Definition VALID_BACKENDS : list SandboxBackend := [docker; podman].

(** ** Configuration objects

    The configuration is a graph of JavaScript objects.  Objects live in a
    store and are referred to by their address, so that sharing and
    in-place assignment are what they are in the source. *)

Inductive value :=
| VUndefined
| VNull
| VBool (b : bool)
| VNumber (n : Z)
| VString (s : string)
| VRef (l : nat).

(** An object has named properties, in insertion order; an array has
    elements besides. *)
Record object := {
  props : list (string * value);
  elems : option (list value)
}.

Abbreviation heap := (list object).

Record Config := { store : heap; root : value }.

Definition emptyObject : object := {| props := []; elems := None |}.
Definition emptyArray : object := {| props := []; elems := Some [] |}.

Fixpoint assoc (key : string) (ps : list (string * value)) : option value :=
  match ps with
  | [] => None
  | (k, v) :: rest => if String.eqb k key then Some v else assoc key rest
  end.

Fixpoint assocSet (key : string) (v : value) (ps : list (string * value)) :
    list (string * value) :=
  match ps with
  | [] => [(key, v)]
  | (k, w) :: rest =>
      if String.eqb k key then (k, v) :: rest else (k, w) :: assocSet key v rest
  end.

(** Synchronous code on the store: it returns or throws. *)
Definition Mem (A : Type) : Type := heap -> Settled A * heap.

Definition mret {A} (a : A) : Mem A := fun h => (Fulfilled a, h).

Definition mthrow {A} (err : string) : Mem A := fun h => (Rejected err, h).

Definition mbind {A B} (m : Mem A) (f : A -> Mem B) : Mem B :=
  fun h =>
    match m h with
    | (Fulfilled a, h') => f a h'
    | (Rejected err, h') => (Rejected err, h')
    end.

Declare Scope mem_scope.
Delimit Scope mem_scope with mem.
Notation "x <- p ;; q" := (mbind p (fun x => q))
  (at level 100, p at next level, right associativity) : mem_scope.
Notation "p ;; q" := (mbind p (fun _ => q))
  (at level 100, right associativity) : mem_scope.

Local Open Scope mem_scope.

(** [{ ... }] and [[]]: a new object at the next free address. *)
Definition alloc (o : object) : Mem value :=
  fun h => (Fulfilled (VRef (length h)), h ++ [o]).

(** [v.key] *)
Definition getProp (v : value) (key : string) : Mem value :=
  fun h =>
    match v with
    | VUndefined | VNull =>
        (Rejected "TypeError: Cannot read properties of undefined", h)
    | VRef l =>
        match h !! l with
        | Some o => (Fulfilled (default VUndefined (assoc key (props o))), h)
        | None => (Rejected "ReferenceError", h)
        end
    | _ => (Fulfilled VUndefined, h)
    end.

(** [v.key = w], in strict mode *)
Definition setProp (v : value) (key : string) (w : value) : Mem unit :=
  fun h =>
    match v with
    | VRef l =>
        match h !! l with
        | Some o =>
            (Fulfilled tt,
             <[l := {| props := assocSet key w (props o); elems := elems o |}]> h)
        | None => (Rejected "ReferenceError", h)
        end
    | _ => (Rejected "TypeError: Cannot create property", h)
    end.

(** [a ?? b] *)
Definition nullish (v : value) : bool :=
  match v with VUndefined | VNull => true | _ => false end.

Definition orNew (v : value) (o : object) : Mem value :=
  if nullish v then alloc o else mret v.

Definition truthy (v : value) : bool :=
  match v with
  | VUndefined | VNull => false
  | VBool b => b
  | VNumber n => negb (n =? 0)
  | VString s => Js.truthy s
  | VRef _ => true
  end.

Fixpoint findFirst (pred : value -> Mem bool) (es : list value) : Mem value :=
  match es with
  | [] => mret VUndefined
  | e :: rest =>
      found <- pred e ;;
      if found then mret e else findFirst pred rest
  end.

(** [list.find(pred)] *)
Definition arrayFind (list : value) (pred : value -> Mem bool) : Mem value :=
  fun h =>
    match list with
    | VRef l =>
        match h !! l with
        | Some {| elems := Some es |} => findFirst pred es h
        | _ => (Rejected "TypeError: list.find is not a function", h)
        end
    | _ => (Rejected "TypeError: list.find is not a function", h)
    end.

(** [list.push(v)] *)
Definition arrayPush (list : value) (v : value) : Mem unit :=
  fun h =>
    match list with
    | VRef l =>
        match h !! l with
        | Some {| props := ps; elems := Some es |} =>
            (Fulfilled tt, <[l := {| props := ps; elems := Some (es ++ [v]) |}]> h)
        | _ => (Rejected "TypeError: list.push is not a function", h)
        end
    | _ => (Rejected "TypeError: list.push is not a function", h)
    end.

(** [structuredClone]: the copy is the same graph at new addresses.  The
    copy of the object at address [l] is placed at [l + length h]; copies
    of objects the value does not reach are never referred to. *)
Definition shift (n : nat) (v : value) : value :=
  match v with VRef l => VRef (l + n) | _ => v end.

Definition shiftObject (n : nat) (o : object) : object :=
  {| props := map (fun kv => (fst kv, shift n (snd kv))) (props o);
     elems := option_map (map (shift n)) (elems o) |}.

Definition structuredClone (v : value) : Mem value :=
  fun h => (Fulfilled (shift (length h) v), h ++ (shiftObject (length h) <$> h)).

Section Patch.

(** [normalizeAgentId] belongs to [../routing/session-key.js]. *)
Variable normalizeAgentId : string -> string.

(** [normalizeAgentId(typeof e.id === "string" ? e.id : "")] *)
Definition entryAgentId (e : value) : Mem string :=
  id <- getProp e "id" ;;
  mret (normalizeAgentId (match id with VString s => s | _ => "" end)).

(** [list.find(...)], and a new [{ id: agentId }] pushed on the list when
    nothing is found. *)
Definition findOrCreateEntry (list : value) (agentId : string) : Mem value :=
  found <- arrayFind list
             (fun e => id <- entryAgentId e ;; mret (String.eqb id agentId)) ;;
  if negb (truthy found) then
    entry <- alloc {| props := [("id", VString agentId)]; elems := None |} ;;
    arrayPush list entry ;;
    mret entry
  else mret found.

(** The last three lines of either branch: [owner.sandbox ?? {}], stored
    back, and its [backend] assigned. *)
Definition setSandboxBackend (owner : value) (backend : SandboxBackend) : Mem unit :=
  s <- getProp owner "sandbox" ;;
  sandbox <- orNew s emptyObject ;;
  setProp owner "sandbox" sandbox ;;
  setProp sandbox "backend" (VString (backendName backend)).

(** The per-agent branch. *)
Definition patchAgent (nextConfig : value) (agentId : string)
    (backend : SandboxBackend) : Mem unit :=
  a <- getProp nextConfig "agents" ;;
  agents <- orNew a emptyObject ;;
  setProp nextConfig "agents" agents ;;
  l <- getProp agents "list" ;;
  list <- orNew l emptyArray ;;
  setProp agents "list" list ;;
  entry <- findOrCreateEntry list agentId ;;
  setSandboxBackend entry backend.

(** The global-default branch. *)
Definition patchDefaults (nextConfig : value) (backend : SandboxBackend) : Mem unit :=
  a <- getProp nextConfig "agents" ;;
  agents <- orNew a emptyObject ;;
  setProp nextConfig "agents" agents ;;
  d <- getProp agents "defaults" ;;
  defaults <- orNew d emptyObject ;;
  setProp agents "defaults" defaults ;;
  setSandboxBackend defaults backend.

(** The synchronous part of [applyBackend]: clone, then assign along the
    per-agent or the global path. *)
Definition patchConfig (cfg : value) (agentId : option string)
    (backend : SandboxBackend) : Mem value :=
  nextConfig <- structuredClone cfg ;;
  (if Js.truthy (default "" agentId)
   then patchAgent nextConfig (default "" agentId) backend
   else patchDefaults nextConfig backend) ;;
  mret nextConfig.

End Patch.

(** ** Copy on write

    Everything [patchConfig] assigns to was made by the clone or after
    it.  [n] is the size of the caller's store [h0]; a value is new when it
    is not a reference below [n]. *)

Section CopyOnWrite.

Variable normalizeAgentId : string -> string.
Variable h0 : heap.

Let n := length h0.

Definition newValue (v : value) : Prop :=
  match v with VRef l => (n <= l)%nat | _ => True end.

Definition newObject (o : object) : Prop :=
  Forall (fun kv => newValue (snd kv)) (props o)
  /\ forall es, elems o = Some es -> Forall newValue es.

(** The caller's objects are where and what they were, and the objects
    added since refer to added objects only. *)
Definition extends (h : heap) : Prop :=
  exists ext, h = h0 ++ ext /\ Forall newObject ext.

Definition keeps {A} (m : Mem A) (Q : A -> Prop) : Prop :=
  forall h, extends h ->
    extends (snd (m h)) /\ forall a, fst (m h) = Fulfilled a -> Q a.

Lemma keeps_ret {A} (a : A) (Q : A -> Prop) : Q a -> keeps (mret a) Q.
Proof. intros HQ h Hh. simpl. split; auto. now intros ? [= <-]. Qed.

Lemma keeps_bind {A B} (m : Mem A) (f : A -> Mem B) (Q : A -> Prop) (R : B -> Prop) :
  keeps m Q -> (forall a, Q a -> keeps (f a) R) -> keeps (mbind m f) R.
Proof.
  intros Hm Hf h Hh. unfold mbind.
  destruct (Hm h Hh) as [He HQ].
  destruct (m h) as [[a | err] h']; simpl in *.
  - apply Hf; auto.
  - split; auto. discriminate.
Qed.

Lemma keeps_weaken {A} (m : Mem A) (Q R : A -> Prop) :
  keeps m Q -> (forall a, Q a -> R a) -> keeps m R.
Proof. intros Hm HQR h Hh. destruct (Hm h Hh). split; auto. Qed.

Lemma extends_new_lookup h l o :
  extends h -> (n <= l)%nat -> h !! l = Some o -> newObject o.
Proof.
  intros (ext & -> & Hext) Hl Hlook.
  rewrite lookup_app_r in Hlook by exact Hl.
  eapply Forall_lookup_1; eauto.
Qed.

Lemma extends_insert h l o :
  extends h -> (n <= l)%nat -> newObject o -> extends (<[l := o]> h).
Proof.
  intros (ext & -> & Hext) Hl Ho.
  exists (<[(l - n)%nat := o]> ext). split.
  - rewrite insert_app_r_alt by exact Hl. reflexivity.
  - now apply Forall_insert.
Qed.

Lemma extends_snoc h o : extends h -> newObject o -> extends (h ++ [o]).
Proof.
  intros (ext & -> & Hext) Ho. exists (ext ++ [o]). split.
  - now rewrite app_assoc.
  - apply Forall_app. auto.
Qed.

Lemma extends_length h : extends h -> (n <= length h)%nat.
Proof. intros (ext & -> & _). rewrite length_app. unfold n. lia. Qed.

Lemma newValue_assoc key ps :
  Forall (fun kv => newValue (snd kv)) ps ->
  newValue (default VUndefined (assoc key ps)).
Proof.
  induction 1 as [|[k v] ps Hv Hps IH]; simpl; auto.
  destruct (String.eqb k key); auto.
Qed.

Lemma newValue_assocSet key v ps :
  newValue v ->
  Forall (fun kv => newValue (snd kv)) ps ->
  Forall (fun kv => newValue (snd kv)) (assocSet key v ps).
Proof.
  intros Hv. induction 1 as [|[k w] ps Hw Hps IH]; simpl.
  - repeat constructor. exact Hv.
  - destruct (String.eqb k key); constructor; auto.
Qed.

Lemma keeps_alloc o : newObject o -> keeps (alloc o) newValue.
Proof.
  intros Ho h Hh. simpl. split.
  - now apply extends_snoc.
  - intros a [= <-]. simpl. now apply extends_length.
Qed.

Lemma keeps_getProp v key : newValue v -> keeps (getProp v key) newValue.
Proof.
  intros Hv h Hh. unfold getProp.
  destruct v as [| | b | z | s | l]; simpl; try (split; [exact Hh|]);
    try discriminate; try (now intros a [= <-]).
  destruct (h !! l) as [o|] eqn:Hl; simpl; (split; [exact Hh|]); [|discriminate].
  intros a [= <-]. apply newValue_assoc.
  now destruct (extends_new_lookup h l o Hh Hv Hl).
Qed.

Lemma keeps_setProp v key w :
  newValue v -> newValue w -> keeps (setProp v key w) (fun _ => True).
Proof.
  intros Hv Hw h Hh. unfold setProp.
  destruct v as [| | b | z | s | l]; simpl; try (split; [exact Hh|auto]).
  destruct (h !! l) as [o|] eqn:Hl; simpl; (split; [|auto]); [|exact Hh].
  apply extends_insert; auto.
  destruct (extends_new_lookup h l o Hh Hv Hl) as [Hp He].
  split; simpl; auto using newValue_assocSet.
Qed.

Lemma newObject_empty : newObject emptyObject /\ newObject emptyArray.
Proof.
  split; split; simpl; try constructor; intros es [= <-]; try discriminate; constructor.
Qed.

Lemma keeps_orNew v o : newValue v -> newObject o -> keeps (orNew v o) newValue.
Proof.
  intros Hv Ho. unfold orNew. destruct (nullish v).
  - now apply keeps_alloc.
  - now apply keeps_ret.
Qed.

Lemma keeps_findFirst pred es :
  Forall newValue es ->
  (forall e, newValue e -> keeps (pred e) (fun _ => True)) ->
  keeps (findFirst pred es) newValue.
Proof.
  intros Hes Hpred. induction Hes as [|e es He Hes IH]; simpl.
  - now apply keeps_ret.
  - eapply keeps_bind; [apply Hpred, He|].
    intros [] _; [now apply keeps_ret | exact IH].
Qed.

Lemma keeps_arrayFind list pred :
  newValue list ->
  (forall e, newValue e -> keeps (pred e) (fun _ => True)) ->
  keeps (arrayFind list pred) newValue.
Proof.
  intros Hl Hpred h Hh. unfold arrayFind.
  destruct list as [| | b | z | s | l]; simpl; try (split; [exact Hh|discriminate]).
  destruct (h !! l) as [[ps [es|]]|] eqn:Hlook; simpl;
    try (split; [exact Hh|discriminate]).
  apply keeps_findFirst; auto.
  destruct (extends_new_lookup h l _ Hh Hl Hlook) as [_ He]. now apply He.
Qed.

Lemma keeps_arrayPush list v :
  newValue list -> newValue v -> keeps (arrayPush list v) (fun _ => True).
Proof.
  intros Hl Hv h Hh. unfold arrayPush.
  destruct list as [| | b | z | s | l]; simpl; try (split; [exact Hh|auto]).
  destruct (h !! l) as [[ps [es|]]|] eqn:Hlook; simpl;
    try (split; [exact Hh|auto]).
  split; [|auto]. apply extends_insert; auto.
  destruct (extends_new_lookup h l _ Hh Hl Hlook) as [Hp He].
  split; simpl; auto. intros es' [= <-]. apply Forall_app. split; auto.
Qed.

Lemma keeps_entryAgentId e :
  newValue e -> keeps (entryAgentId normalizeAgentId e) (fun _ => True).
Proof.
  intros He. unfold entryAgentId.
  eapply keeps_bind; [now apply keeps_getProp|]. intros id _. now apply keeps_ret.
Qed.

Lemma newValue_shift v : newValue (shift n v).
Proof. destruct v; simpl; auto. lia. Qed.

Lemma newObject_shift o : newObject (shiftObject n o).
Proof.
  split; simpl.
  - apply Forall_forall. intros kv Hin.
    apply list_elem_of_In, in_map_iff in Hin as (kv' & <- & _).
    apply newValue_shift.
  - intros es Hes. destruct (elems o) as [es0|]; simpl in Hes; [|discriminate].
    injection Hes as <-. apply Forall_forall. intros v Hin.
    apply list_elem_of_In, in_map_iff in Hin as (v' & <- & _). apply newValue_shift.
Qed.

Lemma extends_clone : extends (h0 ++ (shiftObject n <$> h0)).
Proof.
  exists (shiftObject n <$> h0). split; auto.
  apply Forall_fmap, Forall_forall. intros o _. apply newObject_shift.
Qed.

Ltac keeps_step :=
  first
    [ apply keeps_ret
    | apply keeps_getProp
    | apply keeps_setProp
    | apply keeps_orNew
    | apply keeps_alloc
    | apply keeps_arrayPush
    | apply keeps_entryAgentId
    | apply newObject_empty
    | assumption
    | exact I ].

Lemma keeps_findOrCreateEntry list agentId :
  newValue list -> keeps (findOrCreateEntry normalizeAgentId list agentId) newValue.
Proof.
  intros Hlist. unfold findOrCreateEntry.
  eapply keeps_bind with (Q := newValue).
  { apply keeps_arrayFind; auto. intros e He.
    eapply keeps_bind; [now apply keeps_entryAgentId|].
    intros; now apply keeps_ret. }
  intros found Hfound.
  destruct (negb (truthy found)); [|now apply keeps_ret].
  eapply keeps_bind with (Q := newValue).
  - apply keeps_alloc. split; simpl; [repeat constructor|discriminate].
  - intros entry Hentry.
    eapply keeps_bind; [now apply keeps_arrayPush|].
    intros; now apply keeps_ret.
Qed.

Lemma keeps_setSandboxBackend owner backend :
  newValue owner -> keeps (setSandboxBackend owner backend) (fun _ => True).
Proof.
  intros Howner. unfold setSandboxBackend.
  eapply keeps_bind; [keeps_step; keeps_step|]. intros s Hs.
  eapply keeps_bind; [keeps_step; keeps_step|]. intros sandbox Hsandbox.
  eapply keeps_bind; [keeps_step; keeps_step|]. intros _ _.
  apply keeps_setProp; simpl; auto.
Qed.

Lemma patchConfig_extends cfg agentId backend :
  let r := patchConfig normalizeAgentId cfg agentId backend h0 in
  extends (snd r)
  /\ forall next, fst r = Fulfilled next -> next = shift n cfg.
Proof.
  unfold patchConfig. unfold mbind at 1. cbn [structuredClone]. fold n.
  set (rest := mbind _ _).
  assert (Hk : keeps rest (fun next => next = shift n cfg)).
  { subst rest. pose proof (newValue_shift cfg) as Hnext.
    eapply keeps_bind with (Q := fun _ => True); [|intros; now apply keeps_ret].
    destruct (Js.truthy (default "" agentId)); [unfold patchAgent|unfold patchDefaults].
    - eapply keeps_bind; [keeps_step; keeps_step|]. intros a Ha.
      eapply keeps_bind; [keeps_step; keeps_step|]. intros agents Hagents.
      eapply keeps_bind; [keeps_step; keeps_step|]. intros _ _.
      eapply keeps_bind; [keeps_step; keeps_step|]. intros l Hl.
      eapply keeps_bind; [keeps_step; keeps_step|]. intros list Hlist.
      eapply keeps_bind; [keeps_step; keeps_step|]. intros _ _.
      eapply keeps_bind; [now apply keeps_findOrCreateEntry|]. intros entry Hentry.
      now apply keeps_setSandboxBackend.
    - eapply keeps_bind; [keeps_step; keeps_step|]. intros a Ha.
      eapply keeps_bind; [keeps_step; keeps_step|]. intros agents Hagents.
      eapply keeps_bind; [keeps_step; keeps_step|]. intros _ _.
      eapply keeps_bind; [keeps_step; keeps_step|]. intros d Hd.
      eapply keeps_bind; [keeps_step; keeps_step|]. intros defaults Hdefaults.
      eapply keeps_bind; [keeps_step; keeps_step|]. intros _ _.
      now apply keeps_setSandboxBackend. }
  apply Hk. apply extends_clone.
Qed.

End CopyOnWrite.

(** ** Reading a configuration *)

Definition readProp (h : heap) (v : value) (key : string) : value :=
  match v with
  | VRef l =>
      match h !! l with
      | Some o => default VUndefined (assoc key (props o))
      | None => VUndefined
      end
  | _ => VUndefined
  end.

Definition readElems (h : heap) (v : value) : list value :=
  match v with
  | VRef l =>
      match h !! l with
      | Some {| elems := Some es |} => es
      | _ => []
      end
  | _ => []
  end.

(** [cfg.agents.list], empty when there is none. *)
Definition agentList (h : heap) (cfg : value) : list value :=
  readElems h (readProp h (readProp h cfg "agents") "list").

Definition isObject (h : heap) (v : value) : bool :=
  match v with
  | VRef l => match h !! l with Some {| elems := None |} => true | _ => false end
  | _ => false
  end.

Definition isArray (h : heap) (v : value) : bool :=
  match v with
  | VRef l => match h !! l with Some {| elems := Some _ |} => true | _ => false end
  | _ => false
  end.

(** The configuration type, as far as the agent path reads it: [agents]
    is optional and an object, [agents.list] is optional and an array of
    objects. *)
Definition wellTyped (h : heap) (cfg : value) : bool :=
  isObject h cfg
  && (let agents := readProp h cfg "agents" in
      nullish agents
      || (isObject h agents
          && (let list := readProp h agents "list" in
              nullish list
              || (isArray h list && forallb (isObject h) (readElems h list))))).

Section AgentEntry.

Variable normalizeAgentId : string -> string.

(** The normalized id of an entry of the list. *)
Definition agentIdOf (h : heap) (e : value) : string :=
  normalizeAgentId (match readProp h e "id" with VString s => s | _ => "" end).

(** No entry of the list has the agent id. *)
Definition absent (h : heap) (cfg : value) (agentId : string) : bool :=
  forallb (fun e => negb (String.eqb (agentIdOf h e) agentId)) (agentList h cfg).

Lemma mbind_step {A B} (m : Mem A) (f : A -> Mem B) h a h' :
  m h = (Fulfilled a, h') -> mbind m f h = f a h'.
Proof. unfold mbind. now intros ->. Qed.

Lemma getProp_ref h l o key :
  h !! l = Some o ->
  getProp (VRef l) key h = (Fulfilled (default VUndefined (assoc key (props o))), h).
Proof. unfold getProp. now intros ->. Qed.

Lemma setProp_ref h l o key w :
  h !! l = Some o ->
  setProp (VRef l) key w h =
  (Fulfilled tt, <[l := {| props := assocSet key w (props o); elems := elems o |}]> h).
Proof. unfold setProp. now intros ->. Qed.

Lemma assocSet_same key v ps : assoc key ps = Some v -> assocSet key v ps = ps.
Proof.
  induction ps as [|[k w] ps IH]; simpl; [discriminate|].
  destruct (String.eqb k key); [now intros [= ->]|]. intros H. now rewrite IH.
Qed.

Lemma assoc_assocSet key v ps : assoc key (assocSet key v ps) = Some v.
Proof.
  induction ps as [|[k w] ps IH]; simpl.
  - now rewrite String.eqb_refl.
  - destruct (String.eqb k key) eqn:Hk; simpl; now rewrite Hk.
Qed.

Lemma assoc_shift n key ps :
  assoc key (map (fun kv => (fst kv, shift n (snd kv))) ps) = shift n <$> assoc key ps.
Proof.
  induction ps as [|[k w] ps IH]; simpl; [reflexivity|].
  destruct (String.eqb k key); [reflexivity|exact IH].
Qed.

Lemma clone_lookup (h : heap) l :
  (h ++ (shiftObject (length h) <$> h)) !! (l + length h)%nat
  = shiftObject (length h) <$> h !! l.
Proof.
  rewrite lookup_app_r by lia.
  replace (l + length h - length h)%nat with l by lia.
  apply list_lookup_fmap.
Qed.

(** [v.key ?? fresh], stored back under [key]: the value in place stays,
    a missing one is made. *)
Lemma ensure_child {B} h p po key fresh (k : value -> Mem B) :
  h !! p = Some po ->
  mbind (getProp (VRef p) key)
    (fun a => mbind (orNew a fresh)
       (fun c => mbind (setProp (VRef p) key c) (fun _ => k c))) h
  = let v := default VUndefined (assoc key (props po)) in
    if nullish v then
      k (VRef (length h))
        (<[p := {| props := assocSet key (VRef (length h)) (props po);
                   elems := elems po |}]> (h ++ [fresh]))
    else k v h.
Proof.
  intros Hp. cbv zeta.
  rewrite (mbind_step _ _ _ _ _ (getProp_ref h p po key Hp)).
  unfold orNew.
  destruct (nullish (default VUndefined (assoc key (props po)))) eqn:Hnull.
  - unfold mbind at 1. cbn [alloc].
    assert (Hp' : (h ++ [fresh]) !! p = Some po).
    { rewrite lookup_app_l; [exact Hp|]. eapply lookup_lt_Some; eauto. }
    now rewrite (mbind_step _ _ _ _ _ (setProp_ref _ p po key _ Hp')).
  - unfold mbind at 1. cbn [mret].
    rewrite (mbind_step _ _ _ _ _ (setProp_ref h p po key _ Hp)).
    destruct (assoc key (props po)) as [v|] eqn:Hv; [|discriminate].
    cbn [default from_option id]. rewrite (assocSet_same _ _ _ Hv).
    destruct po as [ps es]. cbn [props elems]. now rewrite list_insert_id.
Qed.

Lemma isObject_ref h e :
  isObject h e = true ->
  exists l ps, e = VRef l /\ h !! l = Some {| props := ps; elems := None |}.
Proof.
  destruct e as [| | | | |l]; try discriminate. simpl.
  destruct (h !! l) as [[ps [es|]]|] eqn:Hl; try discriminate. intros _. eauto.
Qed.

Lemma findFirst_absent h es agentId :
  forallb (isObject h) es = true ->
  forallb (fun e => negb (String.eqb (agentIdOf h e) agentId)) es = true ->
  findFirst
    (fun e => (id <- entryAgentId normalizeAgentId e ;; mret (String.eqb id agentId))%mem)
    es h
  = (Fulfilled VUndefined, h).
Proof.
  induction es as [|e es IH]; [reflexivity|].
  cbn [forallb findFirst]. intros Hobj Habs.
  apply andb_prop in Hobj as [He Hobj]. apply andb_prop in Habs as [Hne Habs].
  apply isObject_ref in He as (l & ps & -> & Hl).
  unfold agentIdOf, readProp in Hne. rewrite Hl in Hne.
  unfold mbind at 1, entryAgentId. unfold mbind at 1 2.
  rewrite (getProp_ref h l _ "id" Hl). cbn [mret].
  apply negb_true_iff in Hne. rewrite Hne. now apply IH.
Qed.

Definition newEntry (agentId : string) : object :=
  {| props := [("id", VString agentId)]; elems := None |}.

Lemma findOrCreateEntry_new h L lps es agentId :
  h !! L = Some {| props := lps; elems := Some es |} ->
  forallb (isObject h) es = true ->
  forallb (fun e => negb (String.eqb (agentIdOf h e) agentId)) es = true ->
  findOrCreateEntry normalizeAgentId (VRef L) agentId h
  = (Fulfilled (VRef (length h)),
     <[L := {| props := lps; elems := Some (es ++ [VRef (length h)]) |}]>
       (h ++ [newEntry agentId])).
Proof.
  intros HL Hobj Habs. unfold findOrCreateEntry.
  assert (Hfind : arrayFind (VRef L)
            (fun e => (id <- entryAgentId normalizeAgentId e ;;
                       mret (String.eqb id agentId))%mem) h
          = (Fulfilled VUndefined, h)).
  { unfold arrayFind. rewrite HL. now apply findFirst_absent. }
  rewrite (mbind_step _ _ _ _ _ Hfind). cbn [truthy negb].
  unfold mbind at 1. cbn [alloc]. unfold mbind at 1, arrayPush.
  rewrite lookup_app_l by (eapply lookup_lt_Some; eauto).
  rewrite HL. reflexivity.
Qed.

Definition backendObject (backend : SandboxBackend) : object :=
  {| props := [("backend", VString (backendName backend))]; elems := None |}.

Lemma setSandboxBackend_new h E ps el backend :
  h !! E = Some {| props := ps; elems := el |} ->
  assoc "sandbox" ps = None ->
  setSandboxBackend (VRef E) backend h
  = (Fulfilled tt,
     <[length h := backendObject backend]>
       (<[E := {| props := assocSet "sandbox" (VRef (length h)) ps; elems := el |}]>
          (h ++ [emptyObject]))).
Proof.
  intros HE Hnone. unfold setSandboxBackend.
  rewrite (ensure_child h E _ "sandbox" emptyObject
             (fun sandbox => setProp sandbox "backend" (VString (backendName backend)))
             HE).
  cbv zeta. cbn [props elems]. rewrite Hnone. cbn [default from_option id nullish].
  assert (HE' : (E < length h)%nat) by (eapply lookup_lt_Some; eauto).
  rewrite (setProp_ref _ (length h) emptyObject); [reflexivity|].
  rewrite list_lookup_insert_ne by lia.
  now apply list_lookup_middle.
Qed.

(** The agent path from the list on: the list, reached from the root
    through [agents], gets one entry more. *)
Lemma entry_added h R A L ro ao lps es agentId backend :
  h !! R = Some ro -> assoc "agents" (props ro) = Some (VRef A) ->
  h !! A = Some ao -> assoc "list" (props ao) = Some (VRef L) ->
  h !! L = Some {| props := lps; elems := Some es |} ->
  R <> L -> A <> L ->
  forallb (isObject h) es = true ->
  forallb (fun e => negb (String.eqb (agentIdOf h e) agentId)) es = true ->
  exists h',
    (entry <- findOrCreateEntry normalizeAgentId (VRef L) agentId ;;
     setSandboxBackend entry backend)%mem h = (Fulfilled tt, h')
    /\ agentList h' (VRef R) = es ++ [VRef (length h)]
    /\ h' !! length h
       = Some {| props := [("id", VString agentId); ("sandbox", VRef (S (length h)))];
                 elems := None |}
    /\ h' !! S (length h) = Some (backendObject backend)
    /\ (forall l, (l < length h)%nat -> l <> L -> h' !! l = h !! l)
    /\ readProp h' (VRef R) "agents" = VRef A
    /\ readProp h' (VRef A) "list" = VRef L.
Proof.
  intros HR Hagents HA Hlist HL HRL HAL Hobj Habs.
  pose proof (lookup_lt_Some _ _ _ HR) as HRlt.
  pose proof (lookup_lt_Some _ _ _ HA) as HAlt.
  pose proof (lookup_lt_Some _ _ _ HL) as HLlt.
  set (E := length h).
  set (h1 := <[L := {| props := lps; elems := Some (es ++ [VRef E]) |}]>
               (h ++ [newEntry agentId])).
  assert (Hlen1 : length h1 = S E).
  { subst h1. rewrite length_insert, length_app. simpl. subst E. lia. }
  assert (HE1 : h1 !! E = Some (newEntry agentId)).
  { subst h1. rewrite list_lookup_insert_ne by (subst E; lia).
    now apply list_lookup_middle. }
  eexists. split.
  { rewrite (mbind_step _ _ _ _ _
               (findOrCreateEntry_new h L lps es agentId HL Hobj Habs)).
    fold E. fold h1.
    rewrite (setSandboxBackend_new h1 E _ _ backend HE1 eq_refl).
    rewrite Hlen1. reflexivity. }
  cbn [assocSet String.eqb]. 
  set (h' := <[S E := backendObject backend]> _).
  assert (Hold : forall l, (l < E)%nat -> l <> L -> h' !! l = h !! l).
  { intros l Hl HlL. subst h' h1.
    rewrite !list_lookup_insert_ne by lia.
    rewrite lookup_app_l by (rewrite length_insert, length_app; simpl; subst E; lia).
    rewrite list_lookup_insert_ne by lia.
    now rewrite lookup_app_l by (subst E; lia). }
  assert (HL' : h' !! L = Some {| props := lps; elems := Some (es ++ [VRef E]) |}).
  { subst h' h1. rewrite !list_lookup_insert_ne by (subst E; lia).
    rewrite lookup_app_l by (rewrite length_insert, length_app; simpl; subst E; lia).
    apply list_lookup_insert_eq. rewrite length_app. lia. }
  repeat split.
  - unfold agentList, readProp.
    rewrite (Hold R HRlt HRL), HR, Hagents. cbn [default from_option id].
    rewrite (Hold A HAlt HAL), HA, Hlist. cbn [default from_option id].
    unfold readElems. now rewrite HL'.
  - subst h'. rewrite list_lookup_insert_ne by lia.
    apply list_lookup_insert_eq.
    rewrite length_app, Hlen1. simpl. lia.
  - subst h'. apply list_lookup_insert_eq.
    rewrite length_insert, length_app, Hlen1. simpl. lia.
  - exact Hold.
  - unfold readProp. now rewrite (Hold R HRlt HRL), HR, Hagents.
  - unfold readProp. now rewrite (Hold A HAlt HAL), HA, Hlist.
Qed.

Lemma nullish_shift n v : nullish (shift n v) = nullish v.
Proof. now destruct v. Qed.

Lemma default_shift n (o : option value) :
  default VUndefined (shift n <$> o) = shift n (default VUndefined o).
Proof. now destruct o. Qed.

Lemma assoc_assocSet_ne key key' v ps :
  String.eqb key' key = false -> assoc key (assocSet key' v ps) = assoc key ps.
Proof.
  intros Hne. induction ps as [|[k w] ps IH]; simpl.
  - now rewrite Hne.
  - destruct (String.eqb k key') eqn:Hk; simpl.
    + apply String.eqb_eq in Hk. subst k. now rewrite Hne.
    + destruct (String.eqb k key); [reflexivity|exact IH].
Qed.

Lemma isObject_clone (h : heap) e :
  isObject h e = true ->
  isObject (h ++ (shiftObject (length h) <$> h)) (shift (length h) e) = true.
Proof.
  intros He. apply isObject_ref in He as (l & ps & -> & Hl).
  cbn [shift isObject]. now rewrite clone_lookup, Hl.
Qed.

Lemma agentIdOf_clone (h : heap) e :
  isObject h e = true ->
  agentIdOf (h ++ (shiftObject (length h) <$> h)) (shift (length h) e) = agentIdOf h e.
Proof.
  intros He. apply isObject_ref in He as (l & ps & -> & Hl).
  unfold agentIdOf. cbn [shift readProp]. rewrite clone_lookup, Hl.
  cbn [fmap option_fmap option_map shiftObject props]. rewrite assoc_shift, default_shift.
  now destruct (default VUndefined (assoc "id" ps)).
Qed.

Lemma forallb_clone (h : heap) (P : heap -> value -> bool) es :
  (forall e, isObject h e = true ->
     P (h ++ (shiftObject (length h) <$> h)) (shift (length h) e) = P h e) ->
  forallb (isObject h) es = true ->
  forallb (P (h ++ (shiftObject (length h) <$> h))) (map (shift (length h)) es)
  = forallb (P h) es.
Proof.
  intros HP. induction es as [|e es IH]; [reflexivity|].
  cbn [forallb map]. intros Hobj. apply andb_prop in Hobj as [He Hobj].
  now rewrite HP, IH.
Qed.

(** The agent branch on the clone of a well-typed configuration that has
    no entry for the agent. *)
Lemma readProp_ref (h : heap) l o key :
  h !! l = Some o -> readProp h (VRef l) key = default VUndefined (assoc key (props o)).
Proof. unfold readProp. now intros ->. Qed.

Lemma patchAgent_new (h : heap) cfg agentId backend :
  wellTyped h cfg = true ->
  absent h cfg agentId = true ->
  let n := length h in
  exists h' e,
    patchAgent normalizeAgentId (shift n cfg) agentId backend
      (h ++ (shiftObject n <$> h)) = (Fulfilled tt, h')
    /\ agentList h' (shift n cfg) = map (shift n) (agentList h cfg) ++ [VRef e]
    /\ h' !! e
       = Some {| props := [("id", VString agentId); ("sandbox", VRef (S e))];
                 elems := None |}
    /\ h' !! S e = Some (backendObject backend)
    /\ (2 * n <= e)%nat
    /\ (forall l, In (VRef l) (agentList h cfg) ->
          h' !! (l + n)%nat = shiftObject n <$> h !! l)
    /\ (forall l, (l < n)%nat ->
          let agents := readProp h' (shift n cfg) "agents" in
          VRef (l + n) <> shift n cfg ->
          VRef (l + n) <> agents ->
          VRef (l + n) <> readProp h' agents "list" ->
          h' !! (l + n)%nat = shiftObject n <$> h !! l).
Proof.
  intros Hwt Habs n. unfold wellTyped in Hwt. cbv zeta in Hwt. unfold absent in Habs.
  apply andb_prop in Hwt as [Hroot Hwt].
  apply isObject_ref in Hroot as (r & rps & -> & Hr).
  set (H1 := h ++ (shiftObject n <$> h)).
  assert (Hlen1 : length H1 = (2 * n)%nat).
  { subst H1. rewrite length_app, length_fmap. subst n. lia. }
  assert (Hr1 : H1 !! (r + n)%nat = Some (shiftObject n {| props := rps; elems := None |})).
  { subst H1 n. now rewrite clone_lookup, Hr. }
  pose proof (lookup_lt_Some _ _ _ Hr) as Hrlt. fold n in Hrlt.
  pose proof (readProp_ref h r _ "agents" Hr) as Hva. cbn [props] in Hva.
  rewrite Hva in Hwt.
  cbn [shift]. unfold patchAgent.
  rewrite (ensure_child H1 (r + n) _ "agents" emptyObject _ Hr1). cbv zeta.
  cbn [shiftObject props elems option_map]. rewrite assoc_shift, default_shift, nullish_shift.
  destruct (nullish (default VUndefined (assoc "agents" rps))) eqn:Hnull.
  - (* no [agents] *)
    assert (Hnone : agentList h (VRef r) = []).
    { unfold agentList. rewrite Hva.
      now destruct (default VUndefined (assoc "agents" rps)). }
    rewrite Hnone. clear Hwt Habs. cbn [map app].
    rewrite Hlen1.
    set (A := (2 * n)%nat).
    set (ro2 := {| props := assocSet "agents" (VRef A) _; elems := None |}).
    set (H2 := <[(r + n)%nat := ro2]> (H1 ++ [emptyObject])).
    assert (Hlen2 : length H2 = S A).
    { subst H2. rewrite length_insert, length_app, Hlen1. simpl. lia. }
    assert (HA2 : H2 !! A = Some emptyObject).
    { subst H2. rewrite list_lookup_insert_ne by (subst A; lia).
      apply list_lookup_middle. now rewrite Hlen1. }
    rewrite (ensure_child H2 A _ "list" emptyArray _ HA2). cbv zeta.
    cbn [emptyObject props elems assoc default from_option id nullish assocSet].
    rewrite Hlen2.
    set (L := S A).
    set (H3 := <[A := _]> (H2 ++ [emptyArray])).
    assert (Hlen3 : length H3 = S L).
    { subst H3. rewrite length_insert, length_app, Hlen2. simpl. lia. }
    assert (HR3 : H3 !! (r + n)%nat = Some ro2).
    { subst H3 H2. rewrite list_lookup_insert_ne by (subst A; lia).
      rewrite lookup_app_l by (rewrite length_insert, length_app, Hlen1; simpl; lia).
      apply list_lookup_insert_eq. rewrite length_app, Hlen1. simpl. lia. }
    assert (HA3 : H3 !! A = Some {| props := [("list", VRef L)]; elems := None |}).
    { subst H3. apply list_lookup_insert_eq. rewrite length_app, Hlen2. simpl. lia. }
    assert (HL3 : H3 !! L = Some {| props := []; elems := Some [] |}).
    { subst H3. rewrite list_lookup_insert_ne by (subst L; lia).
      apply list_lookup_middle. now rewrite Hlen2. }
    destruct (entry_added H3 (r + n) A L ro2 _ [] [] agentId backend HR3
                (assoc_assocSet _ _ _) HA3 eq_refl HL3)
      as (h' & Hrun & Hlist & He & Hsb & Hold & HrA & HrL);
      [subst L A; lia|subst L; lia|reflexivity|reflexivity|].
    rewrite Hlen3 in Hlist, He, Hsb, Hold.
    exists h', (S L). repeat split; auto; try (subst L A; lia); try (now intros ? []).
    intros l Hl Hroot _ _. cbn [shift] in Hroot.
    rewrite Hold by (subst L A; lia).
    subst H3 H2. rewrite list_lookup_insert_ne by (subst A; lia).
    rewrite lookup_app_l by (rewrite length_insert, length_app, Hlen1; simpl; lia).
    rewrite list_lookup_insert_ne by congruence.
    rewrite lookup_app_l by (rewrite Hlen1; lia).
    subst H1 n. apply clone_lookup.
  - (* [agents] is there *)
    apply orb_prop in Hwt as [Hwt|Hwt]; [congruence|].
    apply andb_prop in Hwt as [Hagents Hwt].
    apply isObject_ref in Hagents as (a & aps & Hva' & Ha).
    rewrite Hva' in Hva, Hwt |- *. clear Hnull Hva'.
    pose proof (readProp_ref h a _ "list" Ha) as Hvl. cbn [props] in Hvl.
    rewrite Hvl in Hwt. cbn [shift].
    pose proof (lookup_lt_Some _ _ _ Ha) as Halt. fold n in Halt.
    assert (Ha1 : H1 !! (a + n)%nat
                  = Some (shiftObject n {| props := aps; elems := None |})).
    { subst H1 n. now rewrite clone_lookup, Ha. }
    rewrite (ensure_child H1 (a + n) _ "list" emptyArray _ Ha1). cbv zeta.
    cbn [shiftObject props elems option_map].
    rewrite assoc_shift, default_shift, nullish_shift.
    assert (HagentsR : assoc "agents" (props (shiftObject n {| props := rps; elems := None |}))
                       = Some (VRef (a + n))).
    { cbn [shiftObject props]. rewrite assoc_shift.
      pose proof Hva as Hva2. unfold readProp in Hva2. rewrite Hr in Hva2.
      cbn [props] in Hva2.
      destruct (assoc "agents" rps) as [v|]; [|discriminate].
      cbn [default from_option id] in Hva2. now subst v. }
    destruct (nullish (default VUndefined (assoc "list" aps))) eqn:Hnull.
    + (* no [list] *)
      assert (Hnone : agentList h (VRef r) = []).
      { unfold agentList. rewrite Hva, Hvl.
        now destruct (default VUndefined (assoc "list" aps)). }
      rewrite Hnone. clear Hwt Habs. cbn [map app]. rewrite Hlen1.
      set (L := (2 * n)%nat).
      set (ao2 := {| props := assocSet "list" (VRef L) _; elems := None |}).
      set (H2 := <[(a + n)%nat := ao2]> (H1 ++ [emptyArray])).
      assert (Hlen2 : length H2 = S L).
      { subst H2. rewrite length_insert, length_app, Hlen1. simpl. lia. }
      assert (HA2 : H2 !! (a + n)%nat = Some ao2).
      { subst H2. apply list_lookup_insert_eq. rewrite length_app, Hlen1. simpl. lia. }
      assert (HL2 : H2 !! L = Some {| props := []; elems := Some [] |}).
      { subst H2. rewrite list_lookup_insert_ne by (subst L; lia).
        apply list_lookup_middle. now rewrite Hlen1. }
      assert (HR2 : exists ro2, H2 !! (r + n)%nat = Some ro2
                                /\ assoc "agents" (props ro2) = Some (VRef (a + n))).
      { destruct (decide (r = a)) as [->|Hne].
        - exists ao2. split; [exact HA2|]. subst ao2. cbn [props].
          rewrite assoc_assocSet_ne by reflexivity.
          rewrite Hr in Ha. injection Ha as <-. exact HagentsR.
        - eexists. split; [|exact HagentsR]. subst H2.
          rewrite list_lookup_insert_ne by lia.
          rewrite lookup_app_l by (rewrite Hlen1; lia). exact Hr1. }
      destruct HR2 as (ro2 & HR2 & HagentsR2).
      destruct (entry_added H2 (r + n) (a + n) L ro2 ao2 [] [] agentId backend HR2
                  HagentsR2 HA2 (assoc_assocSet _ _ _) HL2)
        as (h' & Hrun & Hlist & He & Hsb & Hold & HrA & HrL);
        [subst L; lia|subst L; lia|reflexivity|reflexivity|].
      rewrite Hlen2 in Hlist, He, Hsb, Hold.
      exists h', (S L). repeat split; auto; try (subst L; lia); try (now intros ? []).
      intros l Hl _ Hagents _. cbv zeta in Hagents. rewrite HrA in Hagents.
      rewrite Hold by (subst L; lia).
      subst H2. rewrite list_lookup_insert_ne by congruence.
      rewrite lookup_app_l by (rewrite Hlen1; lia).
      subst H1 n. apply clone_lookup.
    + (* [list] is there *)
      apply orb_prop in Hwt as [Hwt|Hwt]; [congruence|].
      apply andb_prop in Hwt as [Harr Hobj].
      destruct (default VUndefined (assoc "list" aps)) as [| | | | |li] eqn:Hvl';
        try discriminate.
      cbn [isArray] in Harr. cbn [readElems] in Hobj.
      destruct (h !! li) as [[lps [es|]]|] eqn:Hli; try discriminate.
      assert (Hes : agentList h (VRef r) = es).
      { unfold agentList. rewrite Hva, Hvl. cbn [readElems]. now rewrite Hli. }
      rewrite Hes in Habs |- *. cbn [shift].
      pose proof (lookup_lt_Some _ _ _ Hli) as Hlilt. fold n in Hlilt.
      assert (Hli1 : H1 !! (li + n)%nat
                     = Some {| props := map (fun kv => (fst kv, shift n (snd kv))) lps;
                               elems := Some (map (shift n) es) |}).
      { subst H1 n. now rewrite clone_lookup, Hli. }
      assert (HlistA : assoc "list" (props (shiftObject n {| props := aps; elems := None |}))
                       = Some (VRef (li + n))).
      { cbn [shiftObject props]. rewrite assoc_shift.
        destruct (assoc "list" aps) as [v|]; [|discriminate].
        cbn [default from_option id] in Hvl'. now subst v. }
      assert (Hobj1 : forallb (isObject H1) (map (shift n) es) = true).
      { subst H1 n. rewrite (forallb_clone h isObject); auto.
        intros e He. rewrite He. now apply isObject_clone. }
      assert (Habs1 : forallb (fun e => negb (String.eqb (agentIdOf H1 e) agentId))
                        (map (shift n) es) = true).
      { subst H1 n.
        rewrite (forallb_clone h
                   (fun h e => negb (String.eqb (agentIdOf h e) agentId))); auto.
        intros e He. now rewrite agentIdOf_clone. }
      destruct (entry_added H1 (r + n) (a + n) (li + n) _ _ _ _ agentId backend Hr1
                  HagentsR Ha1 HlistA Hli1)
        as (h' & Hrun & Hlist & He & Hsb & Hold & HrA & HrL); auto.
      { intros Heq. assert (r = li) by lia. subst li. rewrite Hr in Hli. discriminate. }
      { intros Heq. assert (a = li) by lia. subst li. rewrite Ha in Hli. discriminate. }
      rewrite Hlen1 in Hlist, He, Hsb, Hold.
      exists h', (2 * n)%nat. repeat split; auto.
      * intros l Hin.
        assert (Hl : isObject h (VRef l) = true).
        { rewrite forallb_forall in Hobj. now apply Hobj. }
        apply isObject_ref in Hl as (l' & ps & [= <-] & Hl).
        pose proof (lookup_lt_Some _ _ _ Hl) as Hllt. fold n in Hllt.
        rewrite Hold.
        -- subst H1 n. apply clone_lookup.
        -- lia.
        -- intros Heq. assert (l = li) by lia. subst li. rewrite Hl in Hli. discriminate.
      * intros l Hl _ _ Hlist'. cbv zeta in Hlist'. rewrite HrA, HrL in Hlist'.
        rewrite Hold by (lia || congruence).
        subst H1 n. apply clone_lookup.
Qed.

(** ** Reading a patched configuration

    What an assignment and an allocation leave readable.  A step that
    assigns under the key [key] changes no other property of any object,
    no element of any array, and keeps objects objects and arrays
    arrays. *)

Definition adds (key : string) (h h2 : heap) : Prop :=
  (forall v key', key' <> key -> readProp h2 v key' = readProp h v key')
  /\ (forall v, readElems h2 v = readElems h v)
  /\ (forall v, isObject h v = true -> isObject h2 v = true)
  /\ (forall v, isArray h v = true -> isArray h2 v = true).

Lemma adds_refl key h : adds key h h.
Proof. repeat split; auto. Qed.

Lemma adds_trans key h1 h2 h3 : adds key h1 h2 -> adds key h2 h3 -> adds key h1 h3.
Proof.
  intros (Hp1 & He1 & Ho1 & Ha1) (Hp2 & He2 & Ho2 & Ha2). repeat split.
  - intros v key' Hk. now rewrite Hp2, Hp1.
  - intros v. now rewrite He2, He1.
  - auto.
  - auto.
Qed.

Lemma lookup_snoc (h : heap) (o : object) l :
  (h ++ [o]) !! l = if decide (l = length h) then Some o else h !! l.
Proof.
  destruct (decide (l = length h)) as [->|Hne].
  - now apply list_lookup_middle.
  - destruct (decide (l < length h)%nat).
    + now rewrite lookup_app_l by lia.
    + rewrite !lookup_ge_None_2; [reflexivity|lia|rewrite length_app; simpl; lia].
Qed.

(** A fresh object without properties and without elements. *)
Definition blankObject (o : object) : Prop :=
  props o = [] /\ (elems o = None \/ elems o = Some []).

Lemma adds_fresh key (h : heap) (o : object) : blankObject o -> adds key h (h ++ [o]).
Proof.
  intros [Hprops Helems]. repeat split.
  - intros [| | | | |l] key' _; try reflexivity. unfold readProp. rewrite lookup_snoc.
    destruct (decide (l = length h)) as [->|]; [|reflexivity].
    rewrite lookup_ge_None_2 by lia. now rewrite Hprops.
  - intros [| | | | |l]; try reflexivity. unfold readElems. rewrite lookup_snoc.
    destruct (decide (l = length h)) as [->|]; [|reflexivity].
    rewrite lookup_ge_None_2 by lia. destruct o as [ps es]. cbn [elems] in Helems.
    now destruct Helems as [->| ->].
  - intros [| | | | |l]; try discriminate. unfold isObject. rewrite lookup_snoc.
    destruct (decide (l = length h)) as [->|]; [|auto].
    now rewrite lookup_ge_None_2 by lia.
  - intros [| | | | |l]; try discriminate. unfold isArray. rewrite lookup_snoc.
    destruct (decide (l = length h)) as [->|]; [|auto].
    now rewrite lookup_ge_None_2 by lia.
Qed.

Lemma adds_snoc key (h : heap) : adds key h (h ++ [emptyObject]).
Proof. apply adds_fresh. split; [reflexivity|now left]. Qed.

Lemma eqb_neq (a b : string) : a <> b -> String.eqb a b = false.
Proof. intros H. now apply String.eqb_neq. Qed.

Lemma adds_insert key w (h : heap) l o :
  h !! l = Some o ->
  adds key h (<[l := {| props := assocSet key w (props o); elems := elems o |}]> h).
Proof.
  intros Hl. pose proof (lookup_lt_Some _ _ _ Hl) as Hlt. repeat split.
  - intros [| | | | |l'] key' Hk; try reflexivity. unfold readProp.
    destruct (decide (l' = l)) as [->|Hne].
    + rewrite list_lookup_insert_eq by exact Hlt. rewrite Hl. cbn [props].
      rewrite assoc_assocSet_ne; [reflexivity|]. apply eqb_neq. congruence.
    + now rewrite list_lookup_insert_ne by congruence.
  - intros [| | | | |l']; try reflexivity. unfold readElems.
    destruct (decide (l' = l)) as [->|Hne].
    + rewrite list_lookup_insert_eq by exact Hlt. rewrite Hl. now destruct o.
    + now rewrite list_lookup_insert_ne by congruence.
  - intros [| | | | |l']; try discriminate. unfold isObject.
    destruct (decide (l' = l)) as [->|Hne].
    + rewrite list_lookup_insert_eq by exact Hlt. rewrite Hl. now destruct o.
    + now rewrite list_lookup_insert_ne by congruence.
  - intros [| | | | |l']; try discriminate. unfold isArray.
    destruct (decide (l' = l)) as [->|Hne].
    + rewrite list_lookup_insert_eq by exact Hlt. rewrite Hl. now destruct o.
    + now rewrite list_lookup_insert_ne by congruence.
Qed.

(** A step that assigns to [owner.key] changes no other property: not
    another property of the owner, and no property of another object. *)
Definition assigns (owner : value) (key : string) (h h2 : heap) : Prop :=
  forall v key', ~ (v = owner /\ key' = key) -> readProp h2 v key' = readProp h v key'.

Lemma readProp_fresh (h : heap) (o : object) v key :
  blankObject o -> readProp (h ++ [o]) v key = readProp h v key.
Proof.
  intros [Hprops _]. destruct v as [| | | | |l]; try reflexivity.
  unfold readProp. rewrite lookup_snoc.
  destruct (decide (l = length h)) as [->|]; [|reflexivity].
  rewrite lookup_ge_None_2 by lia. now rewrite Hprops.
Qed.

Lemma assigns_insert key w (h : heap) l o :
  h !! l = Some o ->
  assigns (VRef l) key h
    (<[l := {| props := assocSet key w (props o); elems := elems o |}]> h).
Proof.
  intros Hl v key' Hne. pose proof (lookup_lt_Some _ _ _ Hl) as Hlt.
  destruct v as [| | | | |l']; try reflexivity. unfold readProp.
  destruct (decide (l' = l)) as [->|Hl'].
  - rewrite list_lookup_insert_eq by exact Hlt. rewrite Hl. cbn [props].
    rewrite assoc_assocSet_ne; [reflexivity|]. apply eqb_neq.
    intros Heq. apply Hne. split; congruence.
  - now rewrite list_lookup_insert_ne by congruence.
Qed.

Lemma readProp_insert key w (h : heap) l o :
  h !! l = Some o ->
  readProp (<[l := {| props := assocSet key w (props o); elems := elems o |}]> h)
    (VRef l) key = w.
Proof.
  intros Hl. unfold readProp.
  rewrite list_lookup_insert_eq by (eapply lookup_lt_Some; eauto).
  cbn [props]. now rewrite assoc_assocSet.
Qed.

(** [owner.key ?? {}], stored back: the child is an object afterwards and
    is read back under [key]; it is the child that was there unless there
    was none. *)
Lemma ensure_object {B} (h : heap) owner key (k : value -> Mem B) :
  isObject h owner = true ->
  (nullish (readProp h owner key) = false -> isObject h (readProp h owner key) = true) ->
  exists child h2,
    mbind (getProp owner key)
      (fun a => mbind (orNew a emptyObject)
         (fun c => mbind (setProp owner key c) (fun _ => k c))) h
    = k child h2
    /\ adds key h h2
    /\ readProp h2 owner key = child
    /\ isObject h2 child = true
    /\ isObject h2 owner = true
    /\ (if nullish (readProp h owner key)
        then forall key', readProp h2 child key' = VUndefined
        else child = readProp h owner key /\ h2 = h)
    /\ assigns owner key h h2.
Proof.
  intros Howner Hchild.
  apply isObject_ref in Howner as (p & ps & -> & Hp).
  rewrite (readProp_ref h p _ key Hp) in Hchild |- *. cbn [props] in Hchild |- *.
  rewrite (ensure_child h p _ key emptyObject k Hp). cbv zeta. cbn [props elems].
  destruct (nullish (default VUndefined (assoc key ps))) eqn:Hnull.
  - pose proof (lookup_lt_Some _ _ _ Hp) as Hlt.
    assert (Hp' : (h ++ [emptyObject]) !! p = Some {| props := ps; elems := None |}).
    { now rewrite lookup_app_l by exact Hlt. }
    set (h2 := <[p := _]> (h ++ [emptyObject])).
    assert (Hfresh : h2 !! length h = Some emptyObject).
    { subst h2. rewrite list_lookup_insert_ne by lia. now apply list_lookup_middle. }
    exists (VRef (length h)), h2. split; [reflexivity|]. split; [|split; [|split; [|split]]].
    + apply (adds_trans key _ (h ++ [emptyObject])); [apply adds_snoc|].
      apply (adds_insert key _ _ _ _ Hp').
    + apply (readProp_insert key _ _ _ _ Hp').
    + cbn [isObject]. now rewrite Hfresh.
    + cbn [isObject]. subst h2.
      rewrite list_lookup_insert_eq by (rewrite length_app; simpl; lia). reflexivity.
    + split; [intros key'; unfold readProp; now rewrite Hfresh|].
      intros v key' Hne. subst h2.
      pose proof (assigns_insert key (VRef (length h)) _ p _ Hp' v key' Hne) as Hins.
      cbn [props elems] in Hins. rewrite Hins.
      apply readProp_fresh. split; [reflexivity|now left].
  - exists (default VUndefined (assoc key ps)), h. split; [reflexivity|].
    split; [apply adds_refl|]. split; [apply (readProp_ref h p _ key Hp)|].
    split; [auto|]. split; [cbn [isObject]; now rewrite Hp|].
    split; [auto|]. intros v key' _. reflexivity.
Qed.

(** The clone reads like the original, at the new addresses. *)
Lemma readProp_clone (h : heap) v key :
  readProp (h ++ (shiftObject (length h) <$> h)) (shift (length h) v) key
  = shift (length h) (readProp h v key).
Proof.
  destruct v as [| | | | |l]; try reflexivity. cbn [shift readProp].
  rewrite clone_lookup. destruct (h !! l) as [o|]; [|reflexivity].
  cbn [fmap option_fmap option_map shiftObject props].
  now rewrite assoc_shift, default_shift.
Qed.

Lemma readElems_clone (h : heap) v :
  readElems (h ++ (shiftObject (length h) <$> h)) (shift (length h) v)
  = map (shift (length h)) (readElems h v).
Proof.
  destruct v as [| | | | |l]; try reflexivity. cbn [shift readElems].
  rewrite clone_lookup. destruct (h !! l) as [[ps [es|]]|]; reflexivity.
Qed.

Lemma agentList_clone (h : heap) cfg :
  agentList (h ++ (shiftObject (length h) <$> h)) (shift (length h) cfg)
  = map (shift (length h)) (agentList h cfg).
Proof. unfold agentList. now rewrite !readProp_clone, readElems_clone. Qed.

(** The configuration type, as far as the global path reads it:
    [agents], [agents.defaults] and [agents.defaults.sandbox] are optional
    and objects. *)
Definition optionalObject (h : heap) (v : value) : bool := nullish v || isObject h v.


Lemma optionalObject_clone (h : heap) v :
  optionalObject h v = true ->
  optionalObject (h ++ (shiftObject (length h) <$> h)) (shift (length h) v) = true.
Proof.
  unfold optionalObject. rewrite nullish_shift. intros H.
  apply orb_prop in H as [->|H]; [reflexivity|].
  rewrite (isObject_clone h v H). apply orb_true_r.
Qed.

Lemma optionalObject_object (h : heap) v :
  optionalObject h v = true -> nullish v = false -> isObject h v = true.
Proof. unfold optionalObject. intros H Hn. now rewrite Hn in H. Qed.

Lemma readProp_nullish (h : heap) v key : nullish v = true -> readProp h v key = VUndefined.
Proof. now destruct v. Qed.

(** [sandbox.backend = backend] on an owner: the assignment is read back,
    and the other settings of the sandbox object are the ones it had. *)
Lemma setSandboxBackend_reads (h : heap) owner backend :
  isObject h owner = true ->
  optionalObject h (readProp h owner "sandbox") = true ->
  exists h',
    setSandboxBackend owner backend h = (Fulfilled tt, h')
    /\ readProp h' (readProp h' owner "sandbox") "backend" = VString (backendName backend)
    /\ (forall key, key <> "backend" ->
          readProp h' (readProp h' owner "sandbox") key
          = readProp h (readProp h owner "sandbox") key)
    /\ (forall v key, key <> "sandbox" -> key <> "backend" ->
          readProp h' v key = readProp h v key)
    /\ (forall v, readElems h' v = readElems h v)
    /\ (forall v, isObject h v = true -> isObject h' v = true)
    /\ (forall v, isArray h v = true -> isArray h' v = true)
    /\ isObject h' (readProp h' owner "sandbox") = true
    /\ (nullish (readProp h owner "sandbox") = false ->
        readProp h' owner "sandbox" = readProp h owner "sandbox")
    /\ (forall v key,
          ~ (v = owner /\ key = "sandbox") ->
          ~ (v = readProp h' owner "sandbox" /\ key = "backend") ->
          readProp h' v key = readProp h v key).
Proof.
  intros Howner Hsandbox. unfold setSandboxBackend.
  destruct (ensure_object h owner "sandbox"
              (fun sandbox => setProp sandbox "backend" (VString (backendName backend)))
              Howner (optionalObject_object _ _ Hsandbox))
    as (sandbox & h2 & -> & (Hp2 & He2 & Ho2 & Ha2) & Hread & Hobj & _ & Hchild & Hset).
  apply isObject_ref in Hobj as (s & sps & -> & Hs).
  pose proof (assigns_insert "backend" (VString (backendName backend)) h2 s _ Hs) as Hset3.
  cbn [props elems] in Hset3.
  rewrite (setProp_ref h2 s _ "backend" _ Hs). cbn [props elems].
  destruct (adds_insert "backend" (VString (backendName backend)) h2 s _ Hs)
    as (Hp3 & He3 & Ho3 & Ha3). cbn [props elems] in Hp3, He3, Ho3, Ha3.
  eexists. split; [reflexivity|].
  assert (Hsame : readProp (<[s := {| props := assocSet "backend"
                                         (VString (backendName backend)) sps;
                                      elems := None |}]> h2) owner "sandbox" = VRef s).
  { rewrite Hp3 by discriminate. exact Hread. }
  rewrite Hsame. repeat split.
  - apply (readProp_insert "backend" _ h2 s _ Hs).
  - intros key Hk. rewrite Hp3 by exact Hk.
    destruct (nullish (readProp h owner "sandbox")) eqn:Hnull.
    + rewrite Hchild. now rewrite readProp_nullish.
    + destruct Hchild as [-> ->]. reflexivity.
  - intros v key Hk1 Hk2. now rewrite Hp3, Hp2.
  - intros v. now rewrite He3, He2.
  - auto.
  - auto.
  - cbn [isObject]. now rewrite list_lookup_insert_eq by (eapply lookup_lt_Some; eauto).
  - intros Hn. rewrite Hn in Hchild. now destruct Hchild as [<- _].
  - intros v key Hn1 Hn2. rewrite (Hset3 v key Hn2). now apply Hset.
Qed.



(** ** An agent that has an entry *)

(** The first entry of a list with the agent id (what [find] returns). *)
Definition entryOf (h : heap) (agentId : string) (es : list value) : option value :=
  List.find (fun e => String.eqb (agentIdOf h e) agentId) es.

Lemma findFirst_entryOf h es agentId :
  forallb (isObject h) es = true ->
  findFirst
    (fun e => (id <- entryAgentId normalizeAgentId e ;; mret (String.eqb id agentId))%mem)
    es h
  = (Fulfilled (default VUndefined (entryOf h agentId es)), h).
Proof.
  unfold entryOf. induction es as [|e es IH]; [reflexivity|].
  cbn [forallb findFirst List.find]. intros Hobj.
  apply andb_prop in Hobj as [He Hobj].
  pose proof He as Href. apply isObject_ref in Href as (l & ps & -> & Hl).
  unfold mbind at 1, entryAgentId. unfold mbind at 1 2.
  rewrite (getProp_ref h l _ "id" Hl). cbn [mret].
  unfold agentIdOf at 1, readProp at 1. rewrite Hl. cbn [props].
  destruct (String.eqb _ agentId); [reflexivity|now apply IH].
Qed.

Lemma entryOf_some h agentId es e :
  entryOf h agentId es = Some e -> In e es /\ String.eqb (agentIdOf h e) agentId = true.
Proof. unfold entryOf. intros H. now apply find_some in H. Qed.

Lemma absent_entryOf h cfg agentId :
  absent h cfg agentId = false -> exists e, entryOf h agentId (agentList h cfg) = Some e.
Proof.
  unfold absent, entryOf. intros H.
  destruct (List.find _ (agentList h cfg)) as [e|] eqn:Hfind; [eauto|].
  exfalso. assert (Hall : forallb (fun e => negb (String.eqb (agentIdOf h e) agentId))
                            (agentList h cfg) = true).
  { apply forallb_forall. intros e He.
    apply (find_none _ _ Hfind) in He. now rewrite He. }
  congruence.
Qed.

(** The entry of the agent, when there is one, carries an optional object
    under [sandbox]. *)
Definition sandboxTyped (h : heap) (cfg : value) (agentId : string) : bool :=
  match entryOf h agentId (agentList h cfg) with
  | Some e => optionalObject h (readProp h e "sandbox")
  | None => true
  end.

(** The agent path on a well-typed configuration that has an entry for
    the agent: the entry found is assigned to, and nothing is added. *)
Lemma patchAgent_existing (h : heap) cfg agentId backend e :
  wellTyped h cfg = true ->
  sandboxTyped h cfg agentId = true ->
  entryOf h agentId (agentList h cfg) = Some e ->
  exists h',
    patchAgent normalizeAgentId cfg agentId backend h = (Fulfilled tt, h')
    /\ agentList h' cfg = agentList h cfg
    /\ readProp h' (readProp h' e "sandbox") "backend" = VString (backendName backend)
    /\ (forall key, key <> "backend" ->
          readProp h' (readProp h' e "sandbox") key
          = readProp h (readProp h e "sandbox") key)
    /\ (forall v key,
          ~ (v = e /\ key = "sandbox") ->
          ~ (v = readProp h' e "sandbox" /\ key = "backend") ->
          readProp h' v key = readProp h v key)
    /\ (forall v, readElems h' v = readElems h v)
    /\ (nullish (readProp h e "sandbox") = false ->
        readProp h' e "sandbox" = readProp h e "sandbox").
Proof.
  intros Hwt Htyped Hentry. unfold wellTyped in Hwt. cbv zeta in Hwt.
  apply andb_prop in Hwt as [Hroot Hwt].
  pose proof (entryOf_some _ _ _ _ Hentry) as [Hin _].
  (* the list is there, and so is [agents] *)
  assert (Hagents : nullish (readProp h cfg "agents") = false).
  { unfold agentList in Hin. destruct (readProp h cfg "agents"); auto; destruct Hin. }
  rewrite Hagents in Hwt. cbn [orb] in Hwt. apply andb_prop in Hwt as [Haobj Hwt].
  assert (Hlist : nullish (readProp h (readProp h cfg "agents") "list") = false).
  { unfold agentList in Hin.
    destruct (readProp h (readProp h cfg "agents") "list"); auto; destruct Hin. }
  rewrite Hlist in Hwt. cbn [orb] in Hwt. apply andb_prop in Hwt as [Harr Hobjs].
  fold (agentList h cfg) in Hobjs.
  apply isObject_ref in Hroot as (r & rps & -> & Hr).
  apply isObject_ref in Haobj as (a & aps & Ha & Hao).
  rewrite (readProp_ref h r _ "agents" Hr) in Ha, Hagents. cbn [props] in Ha, Hagents.
  assert (Hli : exists li lps es,
            readProp h (VRef a) "list" = VRef li
            /\ h !! li = Some {| props := lps; elems := Some es |}).
  { rewrite (readProp_ref h r _ "agents" Hr) in Harr. cbn [props] in Harr.
    rewrite Ha in Harr.
    destruct (readProp h (VRef a) "list") as [| | | | |li]; try discriminate.
    cbn [isArray] in Harr. destruct (h !! li) as [[lps [es|]]|] eqn:Hli; try discriminate.
    eauto. }
  destruct Hli as (li & lps & es & Hlv & Hli).
  assert (Hes : agentList h (VRef r) = es).
  { unfold agentList. rewrite (readProp_ref h r _ "agents" Hr). cbn [props].
    rewrite Ha, Hlv. cbn [readElems]. now rewrite Hli. }
  rewrite Hes in *.
  unfold patchAgent.
  rewrite (ensure_child h r _ "agents" emptyObject _ Hr). cbv zeta. cbn [props].
  rewrite Hagents, Ha.
  rewrite (ensure_child h a _ "list" emptyArray _ Hao). cbv zeta. cbn [props].
  rewrite (readProp_ref h a _ "list" Hao) in Hlv. cbn [props] in Hlv. rewrite Hlv.
  cbn [nullish].
  assert (Hfind : findOrCreateEntry normalizeAgentId (VRef li) agentId h = (Fulfilled e, h)).
  { unfold findOrCreateEntry.
    assert (Hf : arrayFind (VRef li)
                   (fun e => (id <- entryAgentId normalizeAgentId e ;;
                              mret (String.eqb id agentId))%mem) h
                 = (Fulfilled e, h)).
    { unfold arrayFind. rewrite Hli. rewrite (findFirst_entryOf h es agentId Hobjs).
      now rewrite Hentry. }
    rewrite (mbind_step _ _ _ _ _ Hf).
    assert (He : isObject h e = true) by (rewrite forallb_forall in Hobjs; auto).
    apply isObject_ref in He as (l & ps & -> & _). reflexivity. }
  rewrite (mbind_step _ _ _ _ _ Hfind).
  assert (He : isObject h e = true) by (rewrite forallb_forall in Hobjs; auto).
  assert (Hsb : optionalObject h (readProp h e "sandbox") = true).
  { unfold sandboxTyped in Htyped. rewrite Hes in Htyped. now rewrite Hentry in Htyped. }
  destruct (setSandboxBackend_reads h e backend He Hsb)
    as (h' & -> & Hbackend & Hkept & Hp & Hel & Ho & _ & _ & Hslot & Hset).
  exists h'. split; [reflexivity|]. split; [|auto 7].
  rewrite <- Hes. unfold agentList. now rewrite Hel, !Hp by discriminate.
Qed.

Lemma readElems_objects (h : heap) cfg :
  wellTyped h cfg = true -> forallb (isObject h) (agentList h cfg) = true.
Proof.
  unfold wellTyped, agentList. cbv zeta. intros Hwt.
  apply andb_prop in Hwt as [_ Hwt].
  destruct (nullish (readProp h cfg "agents")) eqn:Hn1.
  { now destruct (readProp h cfg "agents"). }
  cbn [orb] in Hwt. apply andb_prop in Hwt as [_ Hwt].
  destruct (nullish (readProp h (readProp h cfg "agents") "list")) eqn:Hn2.
  { now destruct (readProp h (readProp h cfg "agents") "list"). }
  cbn [orb] in Hwt. now apply andb_prop in Hwt as [_ Hwt].
Qed.

Lemma isArray_clone (h : heap) v :
  isArray h v = true ->
  isArray (h ++ (shiftObject (length h) <$> h)) (shift (length h) v) = true.
Proof.
  destruct v as [| | | | |l]; try discriminate. cbn [shift isArray].
  rewrite clone_lookup. now destruct (h !! l) as [[ps [es|]]|].
Qed.

Lemma wellTyped_clone (h : heap) cfg :
  wellTyped h cfg = true ->
  wellTyped (h ++ (shiftObject (length h) <$> h)) (shift (length h) cfg) = true.
Proof.
  intros Hwt. pose proof (readElems_objects h cfg Hwt) as Hobjs.
  unfold wellTyped in *. cbv zeta in *. rewrite !readProp_clone, !nullish_shift.
  apply andb_prop in Hwt as [Hroot Hwt]. rewrite (isObject_clone h cfg Hroot).
  cbn [andb]. destruct (nullish (readProp h cfg "agents")); [reflexivity|].
  cbn [orb] in *. apply andb_prop in Hwt as [Ha Hwt]. rewrite (isObject_clone _ _ Ha).
  cbn [andb]. destruct (nullish (readProp h (readProp h cfg "agents") "list"));
    [reflexivity|].
  cbn [orb] in *. apply andb_prop in Hwt as [Harr Hall].
  rewrite (isArray_clone _ _ Harr), readElems_clone. cbn [andb].
  rewrite (forallb_clone h isObject); [exact Hall| |exact Hall].
  intros e He. rewrite He. now apply isObject_clone.
Qed.

Lemma entryOf_clone (h : heap) agentId es :
  forallb (isObject h) es = true ->
  entryOf (h ++ (shiftObject (length h) <$> h)) agentId (map (shift (length h)) es)
  = shift (length h) <$> entryOf h agentId es.
Proof.
  unfold entryOf. induction es as [|e es IH]; [reflexivity|].
  cbn [forallb map List.find]. intros Hobj. apply andb_prop in Hobj as [He Hobj].
  rewrite (agentIdOf_clone h e He).
  destruct (String.eqb (agentIdOf h e) agentId); [reflexivity|now apply IH].
Qed.

Lemma sandboxTyped_clone (h : heap) cfg agentId :
  wellTyped h cfg = true ->
  sandboxTyped h cfg agentId = true ->
  sandboxTyped (h ++ (shiftObject (length h) <$> h)) (shift (length h) cfg) agentId = true.
Proof.
  unfold sandboxTyped. intros Hwt H.
  rewrite agentList_clone, entryOf_clone by now apply readElems_objects.
  destruct (entryOf h agentId (agentList h cfg)) as [e|]; [|reflexivity].
  cbn [fmap option_fmap option_map]. rewrite readProp_clone.
  now apply optionalObject_clone.
Qed.

(** ** Applying again

    The agent path keeps a well-typed configuration well-typed, and leaves
    an entry that a second lookup finds. *)

Lemma ensure_array {B} (h : heap) owner key (k : value -> Mem B) :
  isObject h owner = true ->
  (nullish (readProp h owner key) = false -> isArray h (readProp h owner key) = true) ->
  exists child h2,
    mbind (getProp owner key)
      (fun a => mbind (orNew a emptyArray)
         (fun c => mbind (setProp owner key c) (fun _ => k c))) h
    = k child h2
    /\ adds key h h2
    /\ readProp h2 owner key = child
    /\ isArray h2 child = true
    /\ readElems h2 child = readElems h (readProp h owner key).
Proof.
  intros Howner Hchild.
  apply isObject_ref in Howner as (p & ps & -> & Hp).
  rewrite (readProp_ref h p _ key Hp) in Hchild |- *. cbn [props] in Hchild |- *.
  rewrite (ensure_child h p _ key emptyArray k Hp). cbv zeta. cbn [props elems].
  destruct (nullish (default VUndefined (assoc key ps))) eqn:Hnull.
  - pose proof (lookup_lt_Some _ _ _ Hp) as Hlt.
    assert (Hp' : (h ++ [emptyArray]) !! p = Some {| props := ps; elems := None |}).
    { now rewrite lookup_app_l by exact Hlt. }
    set (h2 := <[p := _]> (h ++ [emptyArray])).
    assert (Hfresh : h2 !! length h = Some emptyArray).
    { subst h2. rewrite list_lookup_insert_ne by lia. now apply list_lookup_middle. }
    exists (VRef (length h)), h2. split; [reflexivity|]. split; [|split; [|split]].
    + apply (adds_trans key _ (h ++ [emptyArray])).
      * apply adds_fresh. split; [reflexivity|now right].
      * apply (adds_insert key _ _ _ _ Hp').
    + apply (readProp_insert key _ _ _ _ Hp').
    + cbn [isArray]. now rewrite Hfresh.
    + cbn [readElems]. rewrite Hfresh. cbn [emptyArray elems].
      now destruct (default VUndefined (assoc key ps)).
  - exists (default VUndefined (assoc key ps)), h. split; [reflexivity|].
    split; [apply adds_refl|]. split; [apply (readProp_ref h p _ key Hp)|].
    split; [auto|reflexivity].
Qed.

Lemma entryOf_ext (h h2 : heap) agentId es :
  (forall e, In e es -> agentIdOf h2 e = agentIdOf h e) ->
  entryOf h2 agentId es = entryOf h agentId es.
Proof.
  unfold entryOf. induction es as [|e es IH]; [reflexivity|].
  intros Hext. cbn [List.find]. rewrite (Hext e) by now left.
  destruct (String.eqb (agentIdOf h e) agentId); [reflexivity|].
  apply IH. intros e' He'. apply Hext. now right.
Qed.

Lemma entryOf_snoc (h : heap) agentId es e :
  entryOf h agentId es = None ->
  String.eqb (agentIdOf h e) agentId = true ->
  entryOf h agentId (es ++ [e]) = Some e.
Proof.
  unfold entryOf. induction es as [|e' es IH]; cbn [List.find app].
  - now intros _ ->.
  - destruct (String.eqb (agentIdOf h e') agentId); [discriminate|exact IH].
Qed.

Lemma absent_entryOf_none (h : heap) cfg agentId :
  absent h cfg agentId
  = match entryOf h agentId (agentList h cfg) with Some _ => false | None => true end.
Proof.
  unfold absent, entryOf. induction (agentList h cfg) as [|e es IH]; [reflexivity|].
  cbn [forallb List.find]. destruct (String.eqb (agentIdOf h e) agentId); [reflexivity|].
  exact IH.
Qed.

(** [list.find(...)], or a new entry pushed: the entry is an object, the
    objects that were there read as before, and the list is the one that
    was there, followed by the entry when it is new. *)
Lemma findOrCreateEntry_reads (h : heap) list agentId :
  isArray h list = true ->
  forallb (isObject h) (readElems h list) = true ->
  exists entry h2,
    findOrCreateEntry normalizeAgentId list agentId h = (Fulfilled entry, h2)
    /\ isObject h2 entry = true
    /\ (forall v key, isObject h v = true -> readProp h2 v key = readProp h v key)
    /\ (forall v, isObject h v = true -> isObject h2 v = true)
    /\ isArray h2 list = true
    /\ match entryOf h agentId (readElems h list) with
       | Some e => entry = e /\ h2 = h
       | None =>
           readElems h2 list = readElems h list ++ [entry]
           /\ readProp h2 entry "id" = VString agentId
           /\ readProp h2 entry "sandbox" = VUndefined
       end.
Proof.
  intros Harr Hobjs.
  destruct list as [| | | | |li]; try discriminate. cbn [isArray] in Harr.
  destruct (h !! li) as [[lps [es|]]|] eqn:Hli; try discriminate.
  assert (Hes : readElems h (VRef li) = es) by (cbn [readElems]; now rewrite Hli).
  rewrite Hes in *.
  unfold findOrCreateEntry.
  assert (Hf : arrayFind (VRef li)
                 (fun e => (id <- entryAgentId normalizeAgentId e ;;
                            mret (String.eqb id agentId))%mem) h
               = (Fulfilled (default VUndefined (entryOf h agentId es)), h)).
  { unfold arrayFind. rewrite Hli. now apply findFirst_entryOf. }
  rewrite (mbind_step _ _ _ _ _ Hf).
  destruct (entryOf h agentId es) as [e|] eqn:Hentry; cbn [from_option id].
  - pose proof (entryOf_some _ _ _ _ Hentry) as [Hin _].
    assert (He : isObject h e = true) by (rewrite forallb_forall in Hobjs; auto).
    pose proof He as He'. apply isObject_ref in He' as (l & ps & -> & _).
    cbn [truthy negb]. exists (VRef l), h. repeat split; auto.
    cbn [isArray]. now rewrite Hli.
  - cbn [truthy negb].
    pose proof (lookup_lt_Some _ _ _ Hli) as Hlt.
    set (entry := {| props := [("id", VString agentId)]; elems := None |}).
    assert (Hli' : (h ++ [entry]) !! li = Some {| props := lps; elems := Some es |}).
    { now rewrite lookup_app_l by exact Hlt. }
    set (h2 := <[li := {| props := lps; elems := Some (es ++ [VRef (length h)]) |}]>
                 (h ++ [entry])).
    assert (Hrun : (entry0 <- alloc entry ;; arrayPush (VRef li) entry0 ;; mret entry0)%mem h
                   = (Fulfilled (VRef (length h)), h2)).
    { unfold mbind at 1. cbn [alloc]. unfold mbind at 1. cbn [arrayPush].
      rewrite Hli'. reflexivity. }
    rewrite Hrun.
    assert (Hfresh : h2 !! length h = Some entry).
    { subst h2. rewrite list_lookup_insert_ne by lia. now apply list_lookup_middle. }
    assert (Hkept : forall l ps, h !! l = Some {| props := ps; elems := None |} ->
              h2 !! l = Some {| props := ps; elems := None |}).
    { intros l ps Hl. pose proof (lookup_lt_Some _ _ _ Hl). subst h2.
      rewrite list_lookup_insert_ne by (intros <-; rewrite Hli in Hl; discriminate).
      now rewrite lookup_app_l. }
    exists (VRef (length h)), h2. split; [reflexivity|].
    split; [cbn [isObject]; now rewrite Hfresh|].
    split; [|split; [|split; [|split; [|split]]]].
    + intros v key Hv. apply isObject_ref in Hv as (l & ps & -> & Hl).
      unfold readProp. now rewrite (Hkept l ps Hl), Hl.
    + intros v Hv. apply isObject_ref in Hv as (l & ps & -> & Hl).
      cbn [isObject]. now rewrite (Hkept l ps Hl).
    + cbn [isArray]. subst h2.
      rewrite list_lookup_insert_eq by (rewrite length_app; simpl; lia). reflexivity.
    + cbn [readElems]. subst h2.
      rewrite list_lookup_insert_eq by (rewrite length_app; simpl; lia). reflexivity.
    + unfold readProp. now rewrite Hfresh.
    + unfold readProp. now rewrite Hfresh.
Qed.

(** The agent path on a well-typed configuration, for an agent id that is
    its own normal form. *)
Lemma patchAgent_typed (h : heap) cfg agentId backend :
  wellTyped h cfg = true ->
  sandboxTyped h cfg agentId = true ->
  normalizeAgentId agentId = agentId ->
  exists h' e,
    patchAgent normalizeAgentId cfg agentId backend h = (Fulfilled tt, h')
    /\ wellTyped h' cfg = true
    /\ entryOf h' agentId (agentList h' cfg) = Some e
    /\ isObject h' (readProp h' e "sandbox") = true
    /\ readProp h' (readProp h' e "sandbox") "backend" = VString (backendName backend)
    /\ length (agentList h' cfg)
       = (length (agentList h cfg) + (if absent h cfg agentId then 1 else 0))%nat.
Proof.
  intros Hwt Htyped Hnorm.
  pose proof (readElems_objects h cfg Hwt) as Hobjs.
  rewrite absent_entryOf_none.
  unfold wellTyped in Hwt. cbv zeta in Hwt. apply andb_prop in Hwt as [Hroot Hwt].
  assert (Hagents : nullish (readProp h cfg "agents") = false ->
                    isObject h (readProp h cfg "agents") = true).
  { intros Hn. rewrite Hn in Hwt. cbn [orb] in Hwt. now apply andb_prop in Hwt as [? _]. }
  unfold patchAgent.
  destruct (ensure_object h cfg "agents"
              (fun agents =>
                 (l <- getProp agents "list" ;;
                  list <- orNew l emptyArray ;;
                  setProp agents "list" list ;;
                  entry <- findOrCreateEntry normalizeAgentId list agentId ;;
                  setSandboxBackend entry backend)%mem)
              Hroot Hagents)
    as (agents & h1 & -> & (Hp1 & He1 & Ho1 & Ha1) & Hread1 & Hobj1 & Hroot1 & Hchild1 & _).
  assert (Hsub1 : forall key, key <> "agents" ->
            readProp h1 agents key = readProp h (readProp h cfg "agents") key).
  { intros key Hk. destruct (nullish (readProp h cfg "agents")) eqn:Hnull.
    - rewrite Hchild1. now rewrite readProp_nullish.
    - destruct Hchild1 as [-> ->]. reflexivity. }
  assert (Hlist1 : nullish (readProp h1 agents "list") = false ->
                   isArray h1 (readProp h1 agents "list") = true).
  { rewrite Hsub1 by discriminate. intros Hn.
    destruct (nullish (readProp h cfg "agents")) eqn:Hna.
    { rewrite (readProp_nullish _ _ _ Hna) in Hn. discriminate. }
    cbn [orb] in Hwt. apply andb_prop in Hwt as [_ Hwt]. rewrite Hn in Hwt.
    cbn [orb] in Hwt. apply andb_prop in Hwt as [Harr _]. now apply Ha1. }
  destruct (ensure_array h1 agents "list"
              (fun list =>
                 (entry <- findOrCreateEntry normalizeAgentId list agentId ;;
                  setSandboxBackend entry backend)%mem)
              Hobj1 Hlist1)
    as (list & h2 & -> & (Hp2 & He2 & Ho2 & Ha2) & Hread2 & Harr2 & Hel2).
  assert (Hlist : readElems h2 list = agentList h cfg).
  { rewrite Hel2, He1. unfold agentList. now rewrite Hsub1 by discriminate. }
  assert (Hobjs2 : forallb (isObject h2) (agentList h cfg) = true).
  { rewrite forallb_forall in Hobjs |- *. auto. }
  assert (Hid2 : forall e, agentIdOf h2 e = agentIdOf h e).
  { intros e. unfold agentIdOf. now rewrite Hp2, Hp1 by discriminate. }
  assert (Hentry2 : entryOf h2 agentId (agentList h cfg)
                    = entryOf h agentId (agentList h cfg)).
  { apply entryOf_ext. auto. }
  destruct (findOrCreateEntry_reads h2 list agentId Harr2)
    as (entry & h3 & Hfind & Hobj3 & Hp3 & Ho3 & Harr3 & Hcase);
    [now rewrite Hlist|].
  rewrite Hlist, Hentry2 in Hcase.
  rewrite (mbind_step _ _ _ _ _ Hfind).
  assert (Hsb3 : optionalObject h3 (readProp h3 entry "sandbox") = true).
  { destruct (entryOf h agentId (agentList h cfg)) as [e|] eqn:Hentry.
    - destruct Hcase as [-> ->]. unfold sandboxTyped in Htyped. rewrite Hentry in Htyped.
      rewrite Hp2, Hp1 by discriminate. unfold optionalObject in *.
      apply orb_prop in Htyped as [->|H]; [reflexivity|].
      rewrite (Ho2 _ (Ho1 _ H)). apply orb_true_r.
    - destruct Hcase as (_ & _ & ->). reflexivity. }
  destruct (setSandboxBackend_reads h3 entry backend Hobj3 Hsb3)
    as (h' & -> & Hbackend & Hkept & Hp4 & He4 & Ho4 & Ha4 & Hsobj & _).
  exists h', entry. split; [reflexivity|].
  assert (Hagents' : readProp h' cfg "agents" = agents).
  { rewrite Hp4 by discriminate. rewrite (Hp3 _ _ (Ho2 _ Hroot1)).
    now rewrite Hp2 by discriminate. }
  assert (Hlist' : readProp h' agents "list" = list).
  { rewrite Hp4 by discriminate. now rewrite (Hp3 _ _ (Ho2 _ Hobj1)). }
  assert (HL : agentList h' cfg = readElems h3 list).
  { unfold agentList. now rewrite Hagents', Hlist', He4. }
  assert (Hid' : forall e, isObject h2 e = true -> agentIdOf h' e = agentIdOf h e).
  { intros e He. unfold agentIdOf. rewrite Hp4 by discriminate.
    rewrite (Hp3 _ _ He). now rewrite Hp2, Hp1 by discriminate. }
  assert (Hold' : entryOf h' agentId (agentList h cfg)
                  = entryOf h agentId (agentList h cfg)).
  { apply entryOf_ext. intros e He. apply Hid'.
    rewrite forallb_forall in Hobjs2. auto. }
  assert (Hall' : forallb (isObject h') (agentList h cfg) = true).
  { rewrite forallb_forall in Hobjs2 |- *. auto. }
  assert (Hnew : readElems h3 list = agentList h cfg
                 \/ readElems h3 list = agentList h cfg ++ [entry]).
  { destruct (entryOf h agentId (agentList h cfg)).
    - destruct Hcase as [_ ->]. now left.
    - destruct Hcase as (-> & _). now right. }
  split; [|split; [|split; [exact Hsobj|split; [exact Hbackend|]]]].
  - unfold wellTyped. cbv zeta. rewrite Hagents', Hlist'.
    rewrite (Ho4 _ (Ho3 _ (Ho2 _ Hroot1))). cbn [andb].
    rewrite (Ho4 _ (Ho3 _ (Ho2 _ Hobj1))), (Ha4 _ Harr3). cbn [andb].
    rewrite He4.
    assert (Hobjs' : forallb (isObject h') (readElems h3 list) = true).
    { destruct Hnew as [->| ->]; [exact Hall'|].
      rewrite forallb_app, Hall'. cbn [forallb andb]. now rewrite (Ho4 _ Hobj3). }
    rewrite Hobjs'. now rewrite !orb_true_r.
  - rewrite HL. destruct (entryOf h agentId (agentList h cfg)) as [e|] eqn:Hentry.
    + destruct Hcase as [-> ->]. now rewrite Hlist, Hold'.
    + destruct Hcase as (-> & Hid & _). apply entryOf_snoc; [exact Hold'|].
      unfold agentIdOf. rewrite Hp4 by discriminate. rewrite Hid, Hnorm.
      apply String.eqb_refl.
  - rewrite HL. destruct (entryOf h agentId (agentList h cfg)) as [e|].
    + destruct Hcase as [_ ->]. rewrite Hlist. lia.
    + destruct Hcase as (-> & _). rewrite length_app. reflexivity.
Qed.

Lemma absent_clone (h : heap) cfg agentId :
  wellTyped h cfg = true ->
  absent (h ++ (shiftObject (length h) <$> h)) (shift (length h) cfg) agentId
  = absent h cfg agentId.
Proof.
  intros Hwt. rewrite !absent_entryOf_none.
  rewrite agentList_clone, entryOf_clone by now apply readElems_objects.
  now destruct (entryOf h agentId (agentList h cfg)).
Qed.

End AgentEntry.

(** ** The command's collaborators *)

Record ExecOutput := { stdout : string; stderr : string }.

(** A prompt answers with a value or with the cancellation symbol. *)
Inductive Prompted (A : Type) : Type :=
| Entered (a : A)
| CancelSymbol.
Arguments Entered {A} a.
Arguments CancelSymbol {A}.

Inductive QuadletChoice := skip | install.

Record SelectOption (V : Type) := {
  opt_value : V;
  opt_label : string;
  opt_hint : string
}.
Arguments opt_value {V} _.
Arguments opt_label {V} _.
Arguments opt_hint {V} _.

(** [clackSelect] is generic in the type of its values; the command uses
    it at two types. *)
Inductive Eff : Type -> Type :=
| OsPlatform : Eff string
| OsUsername : Eff string
| OsHomedir : Eff string
| RunExec (cmd : string) (args : list string) (timeoutMs : Z) : Eff (Settled ExecOutput)
| ClackText (message initialValue placeholder : string)
    (validate : string -> option string) : Eff (Prompted string)
| ClackConfirm (message : string) (initialValue : bool) : Eff (Prompted bool)
| ClackSelectQuadlet (message : string) (options : list (SelectOption QuadletChoice))
    (initialValue : QuadletChoice) : Eff (Prompted QuadletChoice)
| ClackSelectBackend (message : string) (options : list (SelectOption SandboxBackend))
    (initialValue : SandboxBackend) : Eff (Prompted SandboxBackend)
| ClackNote (message title : string) : Eff unit
| ClackIntro (title : string) : Eff unit
| ClackOutro (message : string) : Eff unit
| ClackCancel (message : string) : Eff unit
| RuntimeLog (message : string) : Eff unit
| RuntimeError (message : string) : Eff unit
| RuntimeExit (code : Z) : Eff unit
| LoadConfig : Eff Config
| WriteConfigFile (cfg : Config) : Eff (Settled unit)
| LogConfigUpdated : Eff unit.

Inductive Obs : Type :=
| OPlatform (r : string)
| OUsername (r : string)
| OHomedir (r : string)
| OExec (cmd : string) (args : list string) (timeoutMs : Z) (r : Settled ExecOutput)
| OText (message initialValue placeholder : string)
    (validate : string -> option string) (r : Prompted string)
| OConfirm (message : string) (initialValue : bool) (r : Prompted bool)
| OSelectQuadlet (message : string) (options : list (SelectOption QuadletChoice))
    (initialValue : QuadletChoice) (r : Prompted QuadletChoice)
| OSelectBackend (message : string) (options : list (SelectOption SandboxBackend))
    (initialValue : SandboxBackend) (r : Prompted SandboxBackend)
| ONote (message title : string)
| OIntro (title : string)
| OOutro (message : string)
| OCancel (message : string)
| OLog (message : string)
| OError (message : string)
| OExit (code : Z)
| OLoadConfig (cfg : Config)
| OWriteConfigFile (cfg : Config) (r : Settled unit)
| OLogConfigUpdated.

Definition observe X (e : Eff X) : X -> Obs :=
  match e in Eff X return X -> Obs with
  | OsPlatform => OPlatform
  | OsUsername => OUsername
  | OsHomedir => OHomedir
  | RunExec cmd args t => OExec cmd args t
  | ClackText m i p v => OText m i p v
  | ClackConfirm m i => OConfirm m i
  | ClackSelectQuadlet m o i => OSelectQuadlet m o i
  | ClackSelectBackend m o i => OSelectBackend m o i
  | ClackNote m t => fun _ => ONote m t
  | ClackIntro t => fun _ => OIntro t
  | ClackOutro m => fun _ => OOutro m
  | ClackCancel m => fun _ => OCancel m
  | RuntimeLog m => fun _ => OLog m
  | RuntimeError m => fun _ => OError m
  | RuntimeExit c => fun _ => OExit c
  | LoadConfig => OLoadConfig
  | WriteConfigFile cfg => OWriteConfigFile cfg
  | LogConfigUpdated => fun _ => OLogConfigUpdated
  end.

Local Open Scope prog_scope.

Definition runExec (cmd : string) (args : list string) (timeoutMs : Z) :
    Prog Eff (Settled ExecOutput) := call (RunExec cmd args timeoutMs).
Definition clackNote (message title : string) := call (ClackNote message title).
Definition clackIntro (title : string) := call (ClackIntro title).
Definition clackOutro (message : string) := call (ClackOutro message).
Definition cancel (message : string) := call (ClackCancel message).
Definition runtime_log (message : string) := call (RuntimeLog message).
Definition runtime_error (message : string) := call (RuntimeError message).
(** [runtime.exit] is a call like the others: what follows it in the
    source follows it here. *)
Definition runtime_exit (code : Z) := call (RuntimeExit code).
Definition loadConfig := call LoadConfig.
Definition writeConfigFile (cfg : Config) := call (WriteConfigFile cfg).
Definition logConfigUpdated := call LogConfigUpdated.

Definition when (b : bool) (p : Prog Eff unit) : Prog Eff unit :=
  if b then p else Ret tt.

Definition isBackendAvailable (backend : SandboxBackend) : Prog Eff bool :=
  r <- runExec (backendName backend) ["version"] 5000 ;;
  Ret (isFulfilled r).

(** ** Podman host detection *)

Record PodmanHostInfo := {
  podmanAvailable : bool;
  user : string;
  userExists : bool;
  hasSubuid : bool;
  hasSubgid : bool;
  subuidRange : option string;
  subgidRange : option string;
  systemdAvailable : bool;
  quadletInstalled : bool;
  platform : string
}.

Record Subids := {
  ids_hasSubuid : bool;
  ids_hasSubgid : bool;
  ids_subuidRange : option string;
  ids_subgidRange : option string
}.

(** One [grep] of [/etc/subuid] or [/etc/subgid]: the trimmed line, when
    the command succeeds and the line is not empty. *)
Definition grepSubid (user file : string) : Prog Eff (option string) :=
  r <- runExec "grep" ["^" +:+ user +:+ ":"; "/etc/" +:+ file] 3000 ;;
  Ret (match r with
       | Fulfilled out =>
           let line := Js.trim (stdout out) in
           if Js.truthy line then Some line else None
       | Rejected _ => None
       end).

Definition isSome {A} (o : option A) : bool :=
  match o with Some _ => true | None => false end.

(** What the two [grep]s leave in the four variables. *)
Definition subidsOf (uid gid : option string) : Subids :=
  {| ids_hasSubuid := isSome uid;
     ids_hasSubgid := isSome gid;
     ids_subuidRange := uid;
     ids_subgidRange := gid |}.

Definition checkSubids (user : string) : Prog Eff Subids :=
  uid <- grepSubid user "subuid" ;;
  gid <- grepSubid user "subgid" ;;
  Ret (subidsOf uid gid).

Definition noSubids : Subids :=
  {| ids_hasSubuid := false; ids_hasSubgid := false;
     ids_subuidRange := None; ids_subgidRange := None |}.

Definition quadletProbe (user currentUser : string) : Prog Eff bool :=
  home <- (if String.eqb user currentUser then
             h <- call OsHomedir ;; Ret (Fulfilled h)
           else
             r <- runExec "bash" ["-c"; "echo ~" +:+ user] 3000 ;;
             Ret (match r with
                  | Fulfilled out => Fulfilled (Js.trim (stdout out))
                  | Rejected err => Rejected err
                  end)) ;;
  match home with
  | Rejected _ => Ret false
  | Fulfilled homeDir =>
      let quadletPath := homeDir +:+ "/.config/containers/systemd/openclaw.container" in
      r <- runExec "test" ["-f"; quadletPath] 3000 ;;
      Ret (isFulfilled r)
  end.

Definition detectPodmanHost : Prog Eff PodmanHostInfo :=
  platform <- call OsPlatform ;;
  currentUser <- call OsUsername ;;
  podmanAvailable <- isBackendAvailable podman ;;
  probe <- runExec "id" ["-u"; "openclaw"] 3000 ;;
  let user := if isFulfilled probe then "openclaw" else currentUser in
  subids <- (if String.eqb platform "linux" then checkSubids user else Ret noSubids) ;;
  exists_ <- runExec "id" ["-u"; user] 3000 ;;
  let userExists := isFulfilled exists_ in
  systemd <- runExec "systemctl" ["--version"] 3000 ;;
  let systemdAvailable := isFulfilled systemd in
  quadletInstalled <-
    (if systemdAvailable && userExists then quadletProbe user currentUser
     else Ret false) ;;
  Ret {| podmanAvailable := podmanAvailable;
         user := user;
         userExists := userExists;
         hasSubuid := ids_hasSubuid subids;
         hasSubgid := ids_hasSubgid subids;
         subuidRange := ids_subuidRange subids;
         subgidRange := ids_subgidRange subids;
         systemdAvailable := systemdAvailable;
         quadletInstalled := quadletInstalled;
         platform := platform |}.

(** A template prints a missing string as [undefined]. *)
Definition printed (s : option string) : string := default "undefined" s.

Definition formatDetectionSummary (info : PodmanHostInfo) : string :=
  Js.join Js.newline
    (["Platform:  " +:+ platform info;
      "Podman:    " +:+ (if podmanAvailable info then "installed" else "not found");
      "User:      " +:+ user info
        +:+ (if userExists info then "" else " (does not exist)")]
     ++ (if String.eqb (platform info) "linux" then
           ["subuid:    "
              +:+ (if hasSubuid info then printed (subuidRange info) else "not configured");
            "subgid:    "
              +:+ (if hasSubgid info then printed (subgidRange info) else "not configured")]
         else [])
     ++ (if systemdAvailable info then
           ["Quadlet:   "
              +:+ (if quadletInstalled info then "installed" else "not installed")]
         else [])).

(** Parse a [user:start:count] range string into parts. *)
Definition parseSubidRange (range : string) : option (string * string) :=
  match Js.split ":" range with
  | _ :: start :: count :: _ => Some (start, count)
  | _ => None
  end.

Ltac run_step H :=
  first
    [ apply exec_ret_inv in H as [? ?]
    | let x := fresh "x" in
      let tr := fresh "tr" in
      let E := fresh "Etr" in
      apply exec_vis_inv in H as (x & tr & E & H) ];
  cbn [bind observe] in *; subst.

Ltac run_all H := unfold call in H; cbn [bind] in H; repeat run_step H.

(** ** The provisioning wizard *)

Section Wizard.

(** [stylePromptMessage], [stylePromptTitle] belong to
    [../terminal/prompt-style.js]. *)
Variable stylePromptMessage : string -> string.
Variable stylePromptTitle : string -> option string.

Definition required (value : string) : option string :=
  if Js.truthy (Js.trim value) then None else Some "Required".

Definition clackText (message initialValue placeholder : string) :=
  call (ClackText message initialValue placeholder required).

(** Whether the function goes on after a step or has returned. *)
Inductive Flow := Proceed | Returned.

Definition useraddArgs (podmanUser : string) : list string :=
  ["useradd"; "-m"; "-s"; "/usr/sbin/nologin"; podmanUser].

Definition createUserStep (podmanUser : string) : Prog Eff Flow :=
  createUser <-
    call (ClackConfirm
            (stylePromptMessage
               ("User " +:+ Js.quote +:+ podmanUser +:+ Js.quote
                +:+ " does not exist. Create it? (requires sudo)"))
            true) ;;
  match createUser with
  | CancelSymbol => cancel "Cancelled." ;; Ret Returned
  | Entered true =>
      r <- runExec "sudo" (useraddArgs podmanUser) 30000 ;;
      match r with
      | Fulfilled _ =>
          runtime_log ("Created user " +:+ Js.quote +:+ podmanUser +:+ Js.quote +:+ ".") ;;
          _ <- runExec "sudo" ["loginctl"; "enable-linger"; podmanUser] 5000 ;;
          Ret Proceed
      | Rejected err =>
          runtime_error ("Failed to create user: " +:+ err) ;;
          runtime_log "Create the user manually and re-run this command." ;;
          Ret Returned
      end
  | Entered false =>
      runtime_log
        ("Skipped. Create the user manually:" +:+ Js.newline
         +:+ "  sudo useradd -m -s /usr/sbin/nologin " +:+ podmanUser) ;;
      Ret Proceed
  end.

Definition userStep (isLinux : bool) (info : PodmanHostInfo) (podmanUser : string) :
    Prog Eff Flow :=
  if isLinux then
    userExistsNow <-
      (if negb (String.eqb podmanUser (user info)) then
         r <- runExec "id" ["-u"; podmanUser] 3000 ;;
         Ret (isFulfilled r)
       else Ret (userExists info && String.eqb podmanUser (user info))) ;;
    if negb userExistsNow then createUserStep podmanUser else Ret Proceed
  else Ret Proceed.

Definition defaultStart : string := "100000".
Definition defaultCount : string := "65536".

Definition rangeDefault (range : option string) : string :=
  let existing :=
    match range with
    | Some r => if Js.truthy r then parseSubidRange r else None
    | None => None
    end in
  match existing with
  | Some (start, count) => start +:+ ":" +:+ count
  | None => defaultStart +:+ ":" +:+ defaultCount
  end.

Definition rangePrompt (kind podmanUser : string) (range : option string) :=
  clackText
    (stylePromptMessage
       ("Subordinate " +:+ kind +:+ " range for " +:+ Js.quote +:+ podmanUser
        +:+ Js.quote +:+ " (start:count)"))
    (rangeDefault range)
    (defaultStart +:+ ":" +:+ defaultCount).

Definition sedCommand (podmanUser desired file : string) : string :=
  "sed -i 's/^" +:+ podmanUser +:+ ":.*/" +:+ desired +:+ "/' /etc/" +:+ file.

Definition appendCommand (desired file : string) : string :=
  "echo '" +:+ desired +:+ "' >> /etc/" +:+ file.

Definition manualCommand (desired file : string) : string :=
  "echo '" +:+ desired +:+ "' | sudo tee -a /etc/" +:+ file.

(** [subids.subuidRange !== desiredSubuid] *)
Definition differs (range : option string) (desired : string) : bool :=
  match range with
  | Some r => negb (String.eqb r desired)
  | None => true
  end.

(** The subuid block and the subgid block of the source, which differ in
    the name of the file only. *)
Definition applySubid (file : string) (has : bool) (range : option string)
    (podmanUser desired : string) : Prog Eff unit :=
  if negb has || differs range desired then
    r <- (if has then
            runExec "sudo" ["bash"; "-c"; sedCommand podmanUser desired file] 10000
          else
            runExec "sudo" ["bash"; "-c"; appendCommand desired file] 10000) ;;
    match r with
    | Fulfilled _ => runtime_log (file +:+ ": " +:+ desired)
    | Rejected err =>
        runtime_error ("Failed to set " +:+ file +:+ ": " +:+ err) ;;
        runtime_log ("Set manually:" +:+ Js.newline +:+ "  " +:+ manualCommand desired file)
    end
  else runtime_log (file +:+ ": " +:+ desired +:+ " (unchanged)").

Definition applySubordinateRanges (isLinux : bool) (subids : Subids)
    (podmanUser subuidValue subgidValue : string) : Prog Eff unit :=
  let desiredSubuid := podmanUser +:+ ":" +:+ subuidValue in
  let desiredSubgid := podmanUser +:+ ":" +:+ subgidValue in
  if isLinux then
    applySubid "subuid" (ids_hasSubuid subids) (ids_subuidRange subids)
      podmanUser desiredSubuid ;;
    applySubid "subgid" (ids_hasSubgid subids) (ids_subgidRange subids)
      podmanUser desiredSubgid
  else
    runtime_log (Js.newline +:+ "On the target Linux host, run:") ;;
    runtime_log ("  " +:+ manualCommand desiredSubuid "subuid") ;;
    runtime_log ("  " +:+ manualCommand desiredSubgid "subgid").

(** The dash of the fixed messages (U+2014), as its UTF-8 bytes. *)
Definition emDash : string := "—".

Definition quadletContent (homeDir : string) : string :=
  Js.join Js.newline
    ["# OpenClaw gateway " +:+ emDash +:+ " Podman Quadlet (rootless)";
     "";
     "[Unit]";
     "Description=OpenClaw gateway (rootless Podman)";
     "";
     "[Container]";
     "Image=openclaw:local";
     "ContainerName=openclaw";
     "UserNS=keep-id";
     "Volume=" +:+ homeDir +:+ "/.openclaw:/home/node/.openclaw";
     "EnvironmentFile=" +:+ homeDir +:+ "/.openclaw/.env";
     "Environment=HOME=/home/node";
     "Environment=TERM=xterm-256color";
     "PublishPort=18789:18789";
     "PublishPort=18790:18790";
     "Pull=never";
     "Exec=node dist/index.js gateway --bind lan --port 18789";
     "";
     "[Service]";
     "TimeoutStartSec=300";
     "Restart=on-failure";
     "";
     "[Install]";
     "WantedBy=default.target";
     ""].

Definition machineArg (podmanUser : string) : string :=
  "--machine=" +:+ podmanUser +:+ "@".

Definition reloadManually (quadletPath podmanUser : string) : string :=
  "Quadlet unit written to " +:+ quadletPath +:+ ". Reload manually:" +:+ Js.newline
  +:+ "  sudo systemctl " +:+ machineArg podmanUser +:+ " --user daemon-reload"
  +:+ Js.newline
  +:+ "  sudo systemctl " +:+ machineArg podmanUser +:+ " --user enable openclaw.service".

(** The inner [try]: reload and enable. *)
Definition reloadAndEnable (quadletPath podmanUser : string) : Prog Eff unit :=
  r1 <- runExec "sudo" ["systemctl"; machineArg podmanUser; "--user"; "daemon-reload"]
          10000 ;;
  match r1 with
  | Rejected _ => runtime_log (reloadManually quadletPath podmanUser)
  | Fulfilled _ =>
      r2 <- runExec "sudo"
              ["systemctl"; machineArg podmanUser; "--user"; "enable"; "openclaw.service"]
              10000 ;;
      match r2 with
      | Rejected _ => runtime_log (reloadManually quadletPath podmanUser)
      | Fulfilled _ => runtime_log "Quadlet unit installed and enabled."
      end
  end.

Definition installFailed (err : string) : Prog Eff unit :=
  runtime_error ("Failed to install Quadlet unit: " +:+ err).

(** The outer [try]: home directory, unit directory, unit file. *)
Definition installUnit (podmanUser : string) : Prog Eff unit :=
  r0 <- runExec "bash" ["-c"; "echo ~" +:+ podmanUser] 3000 ;;
  match r0 with
  | Rejected err => installFailed err
  | Fulfilled out =>
      let homeDir := Js.trim (stdout out) in
      let quadletDir := homeDir +:+ "/.config/containers/systemd" in
      r1 <- runExec "sudo" ["-u"; podmanUser; "mkdir"; "-p"; quadletDir] 5000 ;;
      match r1 with
      | Rejected err => installFailed err
      | Fulfilled _ =>
          let quadletPath := quadletDir +:+ "/openclaw.container" in
          r2 <- runExec "sudo"
                  ["-u"; podmanUser; "bash"; "-c";
                   "cat > '" +:+ quadletPath +:+ "' <<'QUADLET_EOF'" +:+ Js.newline
                   +:+ quadletContent homeDir +:+ "QUADLET_EOF"]
                  5000 ;;
          match r2 with
          | Rejected err => installFailed err
          | Fulfilled _ => reloadAndEnable quadletPath podmanUser
          end
      end
  end.

Definition quadletOptions (info : PodmanHostInfo) : list (SelectOption QuadletChoice) :=
  [ {| opt_value := skip; opt_label := "Skip";
       opt_hint := if quadletInstalled info then "Keep existing Quadlet unit"
                   else "Do not install" |};
    {| opt_value := install; opt_label := "Install";
       opt_hint := "Install/overwrite rootless Podman user service" |} ].

Definition quadletStep (isLinux : bool) (info : PodmanHostInfo) (podmanUser : string) :
    Prog Eff unit :=
  when (negb (systemdAvailable info))
    (clackNote
       ("systemd not detected " +:+ emDash
        +:+ " Quadlet options shown for remote host setup.")
       "Quadlet") ;;
  let quadletDefault := if quadletInstalled info then "installed" else "not installed" in
  installQuadlet <-
    call (ClackSelectQuadlet
            (stylePromptMessage
               ("Quadlet systemd unit (optional, currently " +:+ quadletDefault +:+ ")"))
            (quadletOptions info) skip) ;;
  match installQuadlet with
  | CancelSymbol => cancel "Cancelled."
  | Entered skip => Ret tt
  | Entered install =>
      if isLinux && systemdAvailable info then installUnit podmanUser
      else
        runtime_log (Js.newline +:+ "On the target Linux host, create the Quadlet unit:") ;;
        runtime_log ("  mkdir -p ~" +:+ podmanUser +:+ "/.config/containers/systemd") ;;
        runtime_log
          ("  Copy your openclaw.container file to ~" +:+ podmanUser
           +:+ "/.config/containers/systemd/openclaw.container") ;;
        runtime_log
          ("  sudo systemctl " +:+ machineArg podmanUser +:+ " --user daemon-reload") ;;
        runtime_log
          ("  sudo systemctl " +:+ machineArg podmanUser
           +:+ " --user enable openclaw.service")
  end.

(** From the subordinate UID prompt to the end. *)
Definition rangesAndQuadlet (isLinux : bool) (info : PodmanHostInfo)
    (podmanUser : string) : Prog Eff unit :=
  subids <- (if isLinux then checkSubids podmanUser else Ret noSubids) ;;
  subuidResult <- rangePrompt "UID" podmanUser (ids_subuidRange subids) ;;
  match subuidResult with
  | CancelSymbol => cancel "Cancelled."
  | Entered uid =>
      let subuidValue := Js.trim uid in
      subgidResult <- rangePrompt "GID" podmanUser (ids_subgidRange subids) ;;
      match subgidResult with
      | CancelSymbol => cancel "Cancelled."
      | Entered gid =>
          let subgidValue := Js.trim gid in
          applySubordinateRanges isLinux subids podmanUser subuidValue subgidValue ;;
          quadletStep isLinux info podmanUser
      end
  end.

(** After detection. *)
Definition setupWith (info : PodmanHostInfo) : Prog Eff unit :=
  clackNote (formatDetectionSummary info) "Podman host detection" ;;
  let isLinux := String.eqb (platform info) "linux" in
  when (negb (podmanAvailable info))
    (runtime_log
       ("Note: Podman is not installed on this system." +:+ Js.newline
        +:+ "  Install: https://podman.io/docs/installation")) ;;
  when (negb isLinux)
    (runtime_log "Note: Podman sandbox requires Linux. Configuring for a remote host.") ;;
  userResult <-
    clackText (stylePromptMessage "Podman user for sandbox containers")
      (user info) (user info) ;;
  match userResult with
  | CancelSymbol => cancel "Cancelled."
  | Entered u =>
      let podmanUser := Js.orElse (Js.trim u) (user info) in
      flow <- userStep isLinux info podmanUser ;;
      match flow with
      | Returned => Ret tt
      | Proceed => rangesAndQuadlet isLinux info podmanUser
      end
  end.

Definition runPodmanSetup : Prog Eff unit :=
  info <- detectPodmanHost ;;
  setupWith info.

Arguments isBackendAvailable : simpl never.
Arguments grepSubid : simpl never.
Arguments checkSubids : simpl never.
Arguments quadletProbe : simpl never.
Arguments detectPodmanHost : simpl never.
Arguments createUserStep : simpl never.
Arguments userStep : simpl never.
Arguments rangePrompt : simpl never.
Arguments applySubid : simpl never.
Arguments applySubordinateRanges : simpl never.
Arguments reloadAndEnable : simpl never.
Arguments installUnit : simpl never.
Arguments installFailed : simpl never.
Arguments quadletStep : simpl never.
Arguments rangesAndQuadlet : simpl never.
Arguments setupWith : simpl never.
Arguments when : simpl never.

(** *** Cancellation *)

Definition isPrompt (o : Obs) : bool :=
  match o with
  | OText _ _ _ _ _ | OConfirm _ _ _ | OSelectQuadlet _ _ _ _ | OSelectBackend _ _ _ _ =>
      true
  | _ => false
  end.

Definition cancelledPrompt (o : Obs) : bool :=
  match o with
  | OText _ _ _ _ CancelSymbol | OConfirm _ _ CancelSymbol
  | OSelectQuadlet _ _ _ CancelSymbol | OSelectBackend _ _ _ CancelSymbol => true
  | _ => false
  end.

Definition isSudo (o : Obs) : bool :=
  match o with OExec cmd _ _ _ => String.eqb cmd "sudo" | _ => false end.

Definition isExec (o : Obs) : bool :=
  match o with OExec _ _ _ _ => true | _ => false end.

(** Probes: neither a prompt nor a privileged command. *)
Definition promptOrSudo (o : Obs) : bool := isPrompt o || isSudo o.

Ltac quiet_go :=
  repeat first
    [ apply quiet_ret
    | apply quiet_vis; [intros; reflexivity | intros]
    | match goal with
      | |- Quiet _ _ (match ?x with _ => _ end) => destruct x
      end ].

Lemma quiet_isBackendAvailable backend :
  Quiet observe promptOrSudo (isBackendAvailable backend).
Proof. unfold isBackendAvailable, runExec, call. cbn [bind]. destruct backend; quiet_go. Qed.

Lemma quiet_grepSubid user file : Quiet observe promptOrSudo (grepSubid user file).
Proof. unfold grepSubid, runExec, call. cbn [bind]. quiet_go. Qed.

Lemma quiet_checkSubids user : Quiet observe promptOrSudo (checkSubids user).
Proof.
  unfold checkSubids. apply quiet_bind; [apply quiet_grepSubid|intros uid].
  apply quiet_bind; [apply quiet_grepSubid|intros gid]. quiet_go.
Qed.

Lemma quiet_quadletProbe user currentUser :
  Quiet observe promptOrSudo (quadletProbe user currentUser).
Proof.
  unfold quadletProbe, runExec, call.
  destruct (String.eqb user currentUser); cbn [bind]; quiet_go.
Qed.

Lemma quiet_detectPodmanHost : Quiet observe promptOrSudo detectPodmanHost.
Proof.
  unfold detectPodmanHost, call. cbn [bind].
  apply quiet_vis; [reflexivity|intros platform].
  apply quiet_vis; [reflexivity|intros currentUser].
  apply quiet_bind; [apply quiet_isBackendAvailable|intros available].
  unfold runExec, call. cbn [bind].
  apply quiet_vis; [reflexivity|intros probe].
  apply quiet_bind.
  { destruct (String.eqb platform "linux"); [apply quiet_checkSubids|apply quiet_ret]. }
  intros subids.
  apply quiet_vis; [reflexivity|intros exists_].
  apply quiet_vis; [reflexivity|intros systemd].
  apply quiet_bind; [|intros; apply quiet_ret].
  destruct (isFulfilled systemd && isFulfilled exists_);
    [apply quiet_quadletProbe|apply quiet_ret].
Qed.

Lemma promptOrSudo_prompt o : isPrompt o = true -> promptOrSudo o = true.
Proof. unfold promptOrSudo. now intros ->. Qed.

Lemma promptOrSudo_cancelled o : cancelledPrompt o = true -> promptOrSudo o = true.
Proof. unfold promptOrSudo. destruct o; try discriminate; reflexivity. Qed.

Lemma cancelled_is_prompt o : cancelledPrompt o = true -> isPrompt o = true.
Proof. destruct o; try discriminate; reflexivity. Qed.

Lemma quiet_applySubid file has range podmanUser desired :
  Quiet observe isPrompt (applySubid file has range podmanUser desired).
Proof.
  unfold applySubid, runExec, runtime_log, runtime_error, call.
  destruct (negb has || differs range desired); [destruct has|]; cbn [bind]; quiet_go.
Qed.

Lemma quiet_applySubordinateRanges isLinux subids podmanUser uid gid :
  Quiet observe isPrompt (applySubordinateRanges isLinux subids podmanUser uid gid).
Proof.
  unfold applySubordinateRanges. destruct isLinux.
  - apply quiet_bind; [apply quiet_applySubid|intros; apply quiet_applySubid].
  - unfold runtime_log, call. cbn [bind]. quiet_go.
Qed.

Lemma quiet_installUnit podmanUser : Quiet observe isPrompt (installUnit podmanUser).
Proof.
  unfold installUnit, reloadAndEnable, installFailed, runExec, runtime_log,
    runtime_error, call. cbn [bind]. quiet_go.
Qed.

(** What the claim asks of a run at a cancelled prompt. *)
Definition stopsAtCancel (o : Obs) (post : list Obs) : Prop :=
  cancelledPrompt o = true -> post = [OCancel "Cancelled."].

Ltac not_cancelled := intros; intro; discriminate.

Lemma stopsAtCancel_skip o post : cancelledPrompt o = false -> stopsAtCancel o post.
Proof. intros H1 H2. congruence. Qed.

Lemma cancel_quadletStep isLinux info podmanUser :
  Always observe stopsAtCancel (quadletStep isLinux info podmanUser).
Proof.
  unfold quadletStep.
  apply always_bind_quiet with (t := cancelledPrompt);
    [apply stopsAtCancel_skip| |intros _].
  { unfold when, clackNote, call. destruct (negb (systemdAvailable info)); quiet_go. }
  unfold call, cancel. cbn [bind]. apply always_vis.
  - intros [choice|] tr a H; [not_cancelled|]. intros _. run_all H. reflexivity.
  - intros [[|]|].
    + apply always_ret.
    + destruct (isLinux && systemdAvailable info).
      * apply always_quiet with (t := cancelledPrompt); [apply stopsAtCancel_skip|].
        eapply quiet_weaken; [apply cancelled_is_prompt|apply quiet_installUnit].
      * unfold runtime_log, call. cbn [bind].
        repeat (apply always_vis; [not_cancelled|intros]). apply always_ret.
    + apply always_vis; [not_cancelled|intros; apply always_ret].
Qed.

Lemma quiet_cancelled_probe {A} (p : Prog Eff A) :
  Quiet observe promptOrSudo p -> Quiet observe cancelledPrompt p.
Proof. apply quiet_weaken, promptOrSudo_cancelled. Qed.

Lemma quiet_cancelled_prompt {A} (p : Prog Eff A) :
  Quiet observe isPrompt p -> Quiet observe cancelledPrompt p.
Proof. apply quiet_weaken, cancelled_is_prompt. Qed.

Lemma cancel_notice {A} (a : A) :
  Always observe stopsAtCancel (cancel "Cancelled." ;; Ret a).
Proof.
  unfold cancel, call. cbn [bind].
  apply always_vis; [not_cancelled|intros; apply always_ret].
Qed.

Lemma cancel_rangesAndQuadlet isLinux info podmanUser :
  Always observe stopsAtCancel (rangesAndQuadlet isLinux info podmanUser).
Proof.
  unfold rangesAndQuadlet.
  apply always_bind_quiet with (t := cancelledPrompt);
    [apply stopsAtCancel_skip| |intros subids].
  { apply quiet_cancelled_probe.
    destruct isLinux; [apply quiet_checkSubids|apply quiet_ret]. }
  unfold rangePrompt, clackText, cancel, call. cbn [bind]. apply always_vis.
  { intros [uid|] tr a H; [not_cancelled|]. intros _. run_all H. reflexivity. }
  intros [uid|]; [|apply always_vis; [not_cancelled|intros; apply always_ret]].
  apply always_vis.
  { intros [gid|] tr a H; [not_cancelled|]. intros _. run_all H. reflexivity. }
  intros [gid|]; [|apply always_vis; [not_cancelled|intros; apply always_ret]].
  apply always_bind_quiet with (t := cancelledPrompt);
    [apply stopsAtCancel_skip| |intros _; apply cancel_quadletStep].
  apply quiet_cancelled_prompt, quiet_applySubordinateRanges.
Qed.

Lemma cancel_userStep {A} isLinux info podmanUser (k : Flow -> Prog Eff A) :
  (forall tr a, exec observe (k Returned) tr a -> tr = []) ->
  (forall flow, Always observe stopsAtCancel (k flow)) ->
  Always observe stopsAtCancel (flow <- userStep isLinux info podmanUser ;; k flow).
Proof.
  intros Hret Hk. unfold userStep. destruct isLinux; [|apply Hk].
  assert (Hcreate : Always observe stopsAtCancel
                      (flow <- createUserStep podmanUser ;; k flow)).
  { unfold createUserStep, cancel, runExec, runtime_log, runtime_error, call.
    cbn [bind]. apply always_vis.
    - intros [b|] tr a H; [not_cancelled|]. intros _.
      run_step H. apply Hret in H. now subst.
    - intros [[|]|]; cbn [bind].
      + apply always_vis; [not_cancelled|]. intros [out|err]; cbn [bind].
        * do 2 (apply always_vis; [not_cancelled|intros]). apply Hk.
        * do 2 (apply always_vis; [not_cancelled|intros]). apply Hk.
      + apply always_vis; [not_cancelled|intros; apply Hk].
      + apply always_vis; [not_cancelled|intros; apply Hk]. }
  destruct (negb (String.eqb podmanUser (user info))).
  - unfold runExec, call. cbn [bind]. apply always_vis; [not_cancelled|].
    intros r. destruct (negb (isFulfilled r)); [exact Hcreate|apply Hk].
  - cbn [bind].
    destruct (negb (userExists info && String.eqb podmanUser (user info)));
      [exact Hcreate|apply Hk].
Qed.

Lemma cancel_setupWith info : Always observe stopsAtCancel (setupWith info).
Proof.
  unfold setupWith.
  apply always_bind_quiet with (t := cancelledPrompt);
    [apply stopsAtCancel_skip| |intros _].
  { unfold clackNote, call. quiet_go. }
  apply always_bind_quiet with (t := cancelledPrompt);
    [apply stopsAtCancel_skip| |intros _].
  { unfold when, runtime_log, call. destruct (negb (podmanAvailable info)); quiet_go. }
  apply always_bind_quiet with (t := cancelledPrompt);
    [apply stopsAtCancel_skip| |intros _].
  { unfold when, runtime_log, call.
    destruct (negb (String.eqb (platform info) "linux")); quiet_go. }
  unfold clackText, cancel, call. cbn [bind]. apply always_vis.
  { intros [u|] tr a H; [not_cancelled|]. intros _. run_all H. reflexivity. }
  intros [u|]; [|apply always_vis; [not_cancelled|intros; apply always_ret]].
  apply cancel_userStep.
  - intros tr a H. now run_all H.
  - intros [|]; [apply cancel_rangesAndQuadlet|apply always_ret].
Qed.

Lemma cancel_runPodmanSetup : Always observe stopsAtCancel runPodmanSetup.
Proof.
  unfold runPodmanSetup.
  apply always_bind_quiet with (t := cancelledPrompt);
    [apply stopsAtCancel_skip| |intros info; apply cancel_setupWith].
  apply quiet_cancelled_probe, quiet_detectPodmanHost.
Qed.

(** *** Applying the subordinate ranges

    The rule in the words of the specification, for one of the two files:
    no existing line, append; an existing line that differs from the
    desired one, edit it in place, matched by the user prefix; an existing
    line equal to the desired one, no command and an [unchanged] notice. *)

Definition editRun (file podmanUser desired : string) (tr : list Obs) : Prop :=
  exists r after,
    tr = OExec "sudo" ["bash"; "-c"; sedCommand podmanUser desired file] 10000 r :: after
    /\ existsb isExec after = false
    /\ String.prefix (podmanUser +:+ ":") desired = true.

Definition appendRun (file desired : string) (tr : list Obs) : Prop :=
  exists r after,
    tr = OExec "sudo" ["bash"; "-c"; appendCommand desired file] 10000 r :: after
    /\ existsb isExec after = false.

Definition unchangedRun (file desired : string) (tr : list Obs) : Prop :=
  tr = [OLog (file +:+ ": " +:+ desired +:+ " (unchanged)")].

Definition rangeApplied (file podmanUser value : string) (existing : option string)
    (tr : list Obs) : Prop :=
  let desired := podmanUser +:+ ":" +:+ value in
  match existing with
  | None => appendRun file desired tr
  | Some line =>
      if String.eqb line desired then unchangedRun file desired tr
      else editRun file podmanUser desired tr
  end.

Lemma prefix_append (a b : string) : String.prefix a (a +:+ b) = true.
Proof.
  induction a as [|c a IH]; simpl; [now destruct b|].
  destruct (Ascii.ascii_dec c c); [exact IH|congruence].
Qed.

Lemma prefix_append2 (a b c : string) : String.prefix (a +:+ b) (a +:+ b +:+ c) = true.
Proof.
  induction a as [|x a IH]; [exact (prefix_append b c)|].
  simpl. destruct (Ascii.ascii_dec x x); [exact IH|congruence].
Qed.

Lemma applySubid_applied file podmanUser value existing tr u :
  exec observe
    (applySubid file (isSome existing) existing podmanUser (podmanUser +:+ ":" +:+ value))
    tr u ->
  rangeApplied file podmanUser value existing tr.
Proof.
  unfold applySubid, rangeApplied, runExec, runtime_log, runtime_error, call.
  destruct existing as [line|]; cbn [isSome negb orb differs].
  - destruct (String.eqb line (podmanUser +:+ ":" +:+ value)); cbn [negb bind]; intros H.
    + run_all H. reflexivity.
    + run_step H. destruct x; run_all H; eexists _, _;
        (split; [reflexivity|split; [reflexivity|apply prefix_append2]]).
  - cbn [bind]. intros H. run_step H.
    destruct x; run_all H; eexists _, _; (split; reflexivity).
Qed.


(** *** Failing mutations *)

Definition failedSudo (o : Obs) : bool :=
  match o with
  | OExec cmd _ _ (Rejected _) => String.eqb cmd "sudo"
  | _ => false
  end.

Definition isQuadletSelect (o : Obs) : bool :=
  match o with OSelectQuadlet _ _ _ _ => true | _ => false end.

(** What follows a privileged command that failed, by the command:
    - a range edit ([bash -c ...]): the error, the manual command, and the
      wizard goes on to the unit prompt;
    - user creation ([useradd]): the error, the advice to create the user
      and run the command again, and the wizard returns;
    - writing the unit (commands run as the user, [-u]): the error;
    - reload and enable ([systemctl]): the manual reload commands. *)
Definition failureReport (args : list string) (err : string) (post : list Obs) : Prop :=
  (forall command, args = ["bash"; "-c"; command] ->
     exists file desired rest,
       post = OError ("Failed to set " +:+ file +:+ ": " +:+ err)
              :: OLog ("Set manually:" +:+ Js.newline +:+ "  "
                       +:+ manualCommand desired file)
              :: rest
       /\ existsb isQuadletSelect rest = true
       /\ (command = appendCommand desired file
           \/ exists podmanUser, command = sedCommand podmanUser desired file))
  /\ (forall more, args = "useradd" :: more ->
        post = [OError ("Failed to create user: " +:+ err);
                OLog "Create the user manually and re-run this command."])
  /\ (forall more, args = "-u" :: more ->
        post = [OError ("Failed to install Quadlet unit: " +:+ err)])
  /\ (forall more, args = "systemctl" :: more ->
        exists quadletPath podmanUser,
          post = [OLog (reloadManually quadletPath podmanUser)]).

Definition failureHandled (o : Obs) (post : list Obs) : Prop :=
  forall args t err,
    o = OExec "sudo" args t (Rejected err) -> failureReport args err post.

Lemma failureHandled_skip o post : failedSudo o = false -> failureHandled o post.
Proof.
  intros H args t err ->. simpl in H. discriminate.
Qed.

Lemma failedSudo_probe o : failedSudo o = true -> promptOrSudo o = true.
Proof.
  unfold promptOrSudo. destruct o; try discriminate. simpl.
  destruct r; [discriminate|]. intros ->. reflexivity.
Qed.

Lemma quiet_failed_probe {A} (p : Prog Eff A) :
  Quiet observe promptOrSudo p -> Quiet observe failedSudo p.
Proof. apply quiet_weaken, failedSudo_probe. Qed.

Ltac no_failure :=
  intros; apply failureHandled_skip;
  first
    [ reflexivity
    | match goal with
      | |- failedSudo (OExec _ _ _ ?r) = false => destruct r; reflexivity
      | |- failedSudo (observe _ _ ?r) = false => destruct r; reflexivity
      end ].

Ltac failure_cases :=
  intros ? ? ? [= <- <- <-]; unfold failureReport;
  repeat split; intros; try discriminate.

Lemma reaches_quadletStep isLinux info podmanUser :
  Reaches observe isQuadletSelect (quadletStep isLinux info podmanUser).
Proof.
  unfold quadletStep. apply reaches_bind. intros _.
  unfold call. cbn [bind]. apply reaches_vis_here. reflexivity.
Qed.

Lemma failure_applySubid {A} file has range podmanUser desired (k : Prog Eff A) :
  Reaches observe isQuadletSelect k ->
  Always observe failureHandled k ->
  Always observe failureHandled (applySubid file has range podmanUser desired ;; k).
Proof.
  intros Hreach Hk.
  assert (Hreport : forall command,
    command = appendCommand desired file
    \/ (exists user, command = sedCommand user desired file) ->
    Always observe failureHandled
      (r <- runExec "sudo" ["bash"; "-c"; command] 10000 ;;
       match r with
       | Fulfilled _ => runtime_log (file +:+ ": " +:+ desired)
       | Rejected err =>
           runtime_error ("Failed to set " +:+ file +:+ ": " +:+ err) ;;
           runtime_log ("Set manually:" +:+ Js.newline +:+ "  "
                        +:+ manualCommand desired file)
       end ;; k)).
  { intros command Hcommand.
    unfold runExec, runtime_log, runtime_error, call. cbn [bind].
    apply always_vis.
    - intros [out|err] tr a H; [no_failure|].
      cbn [bind] in H. do 2 run_step H.
      intros ? ? ? [= <- <- <-]. unfold failureReport.
      split; [|repeat split; intros; discriminate].
      intros ? [= <-].
      match goal with
      | Hk' : exec _ k ?rest _ |- _ =>
          exists file, desired, rest;
          split; [reflexivity|split; [exact (Hreach _ _ Hk')|exact Hcommand]]
      end.
    - intros [out|err]; cbn [bind].
      + apply always_vis; [no_failure|intros; exact Hk].
      + do 2 (apply always_vis; [no_failure|intros]). exact Hk. }
  unfold applySubid.
  destruct (negb has || differs range desired).
  - apply always_bind_assoc. destruct has; apply Hreport; eauto.
  - unfold runtime_log, call. cbn [bind].
    apply always_vis; [no_failure|intros; exact Hk].
Qed.

Lemma failure_installUnit podmanUser :
  Always observe failureHandled (installUnit podmanUser).
Proof.
  unfold installUnit, installFailed, reloadAndEnable, runExec, runtime_log,
    runtime_error, call. cbn [bind].
  apply always_vis; [no_failure|]. intros [out|err]; cbn [bind];
    [|apply always_vis; [no_failure|intros; apply always_ret]].
  apply always_vis.
  { intros [o1|err] tr a H; [no_failure|]. run_all H. failure_cases; try reflexivity. }
  intros [o1|err]; [|apply always_vis; [no_failure|intros; apply always_ret]].
  apply always_vis.
  { intros [o2|err] tr a H; [no_failure|]. run_all H. failure_cases; try reflexivity. }
  intros [o2|err]; [|apply always_vis; [no_failure|intros; apply always_ret]].
  apply always_vis.
  { intros [o3|err] tr a H; [no_failure|]. run_all H. failure_cases; eauto. }
  intros [o3|err]; [|apply always_vis; [no_failure|intros; apply always_ret]].
  apply always_vis.
  { intros [o4|err] tr a H; [no_failure|]. run_all H. failure_cases; eauto. }
  intros [o4|err]; apply always_vis; try no_failure; intros; apply always_ret.
Qed.

Lemma failure_quadletStep isLinux info podmanUser :
  Always observe failureHandled (quadletStep isLinux info podmanUser).
Proof.
  unfold quadletStep.
  apply always_bind_quiet with (t := failedSudo);
    [apply failureHandled_skip| |intros _].
  { unfold when, clackNote, call. destruct (negb (systemdAvailable info)); quiet_go. }
  unfold call, cancel. cbn [bind]. apply always_vis; [no_failure|].
  intros [[|]|].
  - apply always_ret.
  - destruct (isLinux && systemdAvailable info); [apply failure_installUnit|].
    unfold runtime_log, call. cbn [bind].
    repeat (apply always_vis; [no_failure|intros]). apply always_ret.
  - apply always_vis; [no_failure|intros; apply always_ret].
Qed.

Lemma failure_rangesAndQuadlet isLinux info podmanUser :
  Always observe failureHandled (rangesAndQuadlet isLinux info podmanUser).
Proof.
  unfold rangesAndQuadlet.
  apply always_bind_quiet with (t := failedSudo);
    [apply failureHandled_skip| |intros subids].
  { apply quiet_failed_probe.
    destruct isLinux; [apply quiet_checkSubids|apply quiet_ret]. }
  unfold rangePrompt, clackText, cancel, call. cbn [bind].
  apply always_vis; [no_failure|].
  intros [uid|]; [|apply always_vis; [no_failure|intros; apply always_ret]].
  apply always_vis; [no_failure|].
  intros [gid|]; [|apply always_vis; [no_failure|intros; apply always_ret]].
  unfold applySubordinateRanges. destruct isLinux.
  - apply always_bind_assoc. apply failure_applySubid.
    + apply reaches_bind. intros _. apply reaches_quadletStep.
    + apply failure_applySubid;
        [apply reaches_quadletStep|apply failure_quadletStep].
  - unfold runtime_log, call. cbn [bind].
    repeat (apply always_vis; [no_failure|intros]). apply failure_quadletStep.
Qed.

Lemma failure_userStep {A} isLinux info podmanUser (k : Flow -> Prog Eff A) :
  (forall tr a, exec observe (k Returned) tr a -> tr = []) ->
  (forall flow, Always observe failureHandled (k flow)) ->
  Always observe failureHandled (flow <- userStep isLinux info podmanUser ;; k flow).
Proof.
  intros Hret Hk. unfold userStep. destruct isLinux; [|apply Hk].
  assert (Hcreate : Always observe failureHandled
                      (flow <- createUserStep podmanUser ;; k flow)).
  { unfold createUserStep, useraddArgs, cancel, runExec, runtime_log, runtime_error, call.
    cbn [bind]. apply always_vis; [no_failure|].
    intros [[|]|]; cbn [bind].
    - apply always_vis.
      { intros [out|err] tr a H; [no_failure|]. cbn [bind] in H.
        do 2 run_step H. apply Hret in H. subst. failure_cases; try reflexivity. }
      intros [out|err]; cbn [bind].
      + apply always_vis; [no_failure|intros].
        apply always_vis; [|intros; apply Hk].
        intros [o1|err] tr a H; [no_failure|]. failure_cases.
      + do 2 (apply always_vis; [no_failure|intros]). apply Hk.
    - apply always_vis; [no_failure|intros; apply Hk].
    - apply always_vis; [no_failure|intros; apply Hk]. }
  destruct (negb (String.eqb podmanUser (user info))).
  - unfold runExec, call. cbn [bind]. apply always_vis; [no_failure|].
    intros r. destruct (negb (isFulfilled r)); [exact Hcreate|apply Hk].
  - cbn [bind].
    destruct (negb (userExists info && String.eqb podmanUser (user info)));
      [exact Hcreate|apply Hk].
Qed.

Lemma failure_setupWith info : Always observe failureHandled (setupWith info).
Proof.
  unfold setupWith.
  apply always_bind_quiet with (t := failedSudo);
    [apply failureHandled_skip| |intros _].
  { unfold clackNote, call. quiet_go. }
  apply always_bind_quiet with (t := failedSudo);
    [apply failureHandled_skip| |intros _].
  { unfold when, runtime_log, call. destruct (negb (podmanAvailable info)); quiet_go. }
  apply always_bind_quiet with (t := failedSudo);
    [apply failureHandled_skip| |intros _].
  { unfold when, runtime_log, call.
    destruct (negb (String.eqb (platform info) "linux")); quiet_go. }
  unfold clackText, cancel, call. cbn [bind]. apply always_vis; [no_failure|].
  intros [u|]; [|apply always_vis; [no_failure|intros; apply always_ret]].
  apply failure_userStep.
  - intros tr a H. now run_all H.
  - intros [|]; [apply failure_rangesAndQuadlet|apply always_ret].
Qed.

(** C5, as the code has it. In every run of the wizard: a range edit that
    fails is reported as an error together with the literal manual command,
    and the wizard goes on to the unit prompt; a user creation that fails
    is reported as an error with the advice to create the user and run the
    command again, and the wizard returns; a failure while the unit is
    written is reported as an error; a failing reload or enable is reported
    with the literal manual commands. *)
Theorem mutation_failures_reported
    (tr : list Obs) (u : unit) (pre post : list Obs)
    (args : list string) (t : Z) (err : string) :
  exec observe runPodmanSetup tr u ->
  tr = pre ++ OExec "sudo" args t (Rejected err) :: post ->
  failureReport args err post.
Proof.
  intros Hrun Htr.
  assert (Hall : Always observe failureHandled runPodmanSetup).
  { unfold runPodmanSetup.
    apply always_bind_quiet with (t := failedSudo);
      [apply failureHandled_skip| |intros info; apply failure_setupWith].
    apply quiet_failed_probe, quiet_detectPodmanHost. }
  exact (Hall tr u Hrun pre _ post Htr args t err eq_refl).
Qed.

(** C4. In every run of the wizard, a prompt that answers with the
    cancellation symbol is followed by the notice [Cancelled.] and by
    nothing else: the wizard returns, and no command runs after it. *)
Theorem cancel_stops_wizard (tr : list Obs) (u : unit) (pre post : list Obs) (o : Obs) :
  exec observe runPodmanSetup tr u ->
  tr = pre ++ o :: post ->
  cancelledPrompt o = true ->
  post = [OCancel "Cancelled."] /\ existsb isExec post = false.
Proof.
  intros Hrun Htr Hcancel.
  assert (Hpost : post = [OCancel "Cancelled."]).
  { exact (cancel_runPodmanSetup tr u Hrun pre o post Htr Hcancel). }
  subst post. auto.
Qed.

(** *** Subordinate range lines *)

Lemma split_field (a b : string) :
  Js.count ":" a = 0%nat -> Js.split ":" (a +:+ ":" +:+ b) = a :: Js.split ":" b.
Proof.
  intros H. change (a +:+ ":" +:+ b) with (a +:+ String ":" b).
  now apply Js.split_app.
Qed.

(** X6. [parseSubidRange] answers [undefined] exactly for the strings
    with fewer than two colons; the two parts it returns otherwise hold no
    colon. *)
Theorem parseSubidRange_two_separators (range : string) :
  (parseSubidRange range = None <-> (Js.count ":" range < 2)%nat)
  /\ (forall start count,
        parseSubidRange range = Some (start, count) ->
        Js.count ":" start = 0%nat /\ Js.count ":" count = 0%nat).
Proof.
  unfold parseSubidRange.
  pose proof (Js.split_length ":" range) as Hlen.
  pose proof (Js.split_parts ":" range) as Hparts.
  destruct (Js.split ":" range) as [|a [|b [|c rest]]]; cbn [length] in Hlen.
  - discriminate.
  - split; [split; [lia|reflexivity]|discriminate].
  - split; [split; [lia|reflexivity]|discriminate].
  - split; [split; [discriminate|lia]|].
    intros start count [= <- <-].
    inversion Hparts as [|? ? _ Hb]; subst.
    inversion Hb as [|? ? Hb' Hc]; subst.
    inversion Hc as [|? ? Hc' _]; subst. auto.
Qed.

Lemma parseSubidRange_line (user start count : string) :
  Js.count ":" user = 0%nat ->
  Js.count ":" start = 0%nat ->
  Js.count ":" count = 0%nat ->
  parseSubidRange (user +:+ ":" +:+ start +:+ ":" +:+ count) = Some (start, count).
Proof.
  intros Hu Hs Hc. unfold parseSubidRange.
  rewrite (split_field user) by exact Hu.
  rewrite (split_field start) by exact Hs.
  now rewrite (Js.split_whole ":" count) by exact Hc.
Qed.

(** X7. A line [user:start:count] whose three fields hold no colon is
    read back as [start] and [count]; fields after the third are
    ignored. *)
Theorem parseSubidRange_reads_back (user start count more : string) :
  Js.count ":" user = 0%nat ->
  Js.count ":" start = 0%nat ->
  Js.count ":" count = 0%nat ->
  parseSubidRange (user +:+ ":" +:+ start +:+ ":" +:+ count) = Some (start, count)
  /\ parseSubidRange (user +:+ ":" +:+ start +:+ ":" +:+ count +:+ ":" +:+ more)
     = Some (start, count).
Proof.
  intros Hu Hs Hc. split; [now apply parseSubidRange_line|].
  unfold parseSubidRange.
  rewrite (split_field user) by exact Hu.
  rewrite (split_field start) by exact Hs.
  rewrite (split_field count) by exact Hc.
  pose proof (Js.split_length ":" more) as Hlen.
  destruct (Js.split ":" more); [discriminate|]. reflexivity.
Qed.

Lemma truthy_field (a b : string) : Js.truthy (a +:+ ":" +:+ b) = true.
Proof. now destruct a. Qed.

Lemma rangeDefault_line (user start count : string) :
  Js.count ":" user = 0%nat ->
  Js.count ":" start = 0%nat ->
  Js.count ":" count = 0%nat ->
  rangeDefault (Some (user +:+ ":" +:+ start +:+ ":" +:+ count)) = start +:+ ":" +:+ count.
Proof.
  intros Hu Hs Hc. unfold rangeDefault. rewrite truthy_field.
  now rewrite (parseSubidRange_line user start count Hu Hs Hc).
Qed.

(** X9. The value a range prompt offers is never blank, whatever line
    was found: it always passes the prompt's own validation. *)
Theorem offered_range_is_valid (range : option string) :
  required (rangeDefault range) = None.
Proof.
  unfold required. rewrite Js.trim_blank.
  assert (Hsep : forall a b, Js.blank (a +:+ ":" +:+ b) = false).
  { intros a b. rewrite Js.blank_app. change (":" +:+ b) with (String ":" b).
    cbn [Js.blank]. change (Js.isWhiteSpace ":") with false. apply andb_false_r. }
  unfold rangeDefault.
  destruct range as [r|]; [destruct (Js.truthy r); [destruct (parseSubidRange r) as [[]|]|]|];
    now rewrite Hsep.
Qed.

(** *** The subordinate id check *)

(** X10. [checkSubids] always runs both [grep]s, on [/etc/subuid] and
    then on [/etc/subgid], anchored on the user's name, the second
    whatever the first answered.  A range is reported exactly when the
    [grep] succeeded with output that is not blank; the flag says whether
    there is a range; and a reported range is the output trimmed: it is
    not empty and has no white space around it. *)
Theorem checkSubids_reads_both_files (user : string) (tr : list Obs) (subids : Subids) :
  exec observe (checkSubids user) tr subids ->
  (exists r1 r2,
      tr = [OExec "grep" ["^" +:+ user +:+ ":"; "/etc/subuid"] 3000 r1;
            OExec "grep" ["^" +:+ user +:+ ":"; "/etc/subgid"] 3000 r2]
      /\ (isSome (ids_subuidRange subids) = true <->
          exists out, r1 = Fulfilled out /\ Js.blank (stdout out) = false)
      /\ (isSome (ids_subgidRange subids) = true <->
          exists out, r2 = Fulfilled out /\ Js.blank (stdout out) = false))
  /\ ids_hasSubuid subids = isSome (ids_subuidRange subids)
  /\ ids_hasSubgid subids = isSome (ids_subgidRange subids)
  /\ (forall line,
        ids_subuidRange subids = Some line \/ ids_subgidRange subids = Some line ->
        line <> "" /\ Js.trim line = line).
Proof.
  intros H. unfold checkSubids, grepSubid, runExec in H. run_all H.
  assert (Hline : forall (r : Settled ExecOutput),
            let range := match r with
                         | Fulfilled out =>
                             if Js.truthy (Js.trim (stdout out))
                             then Some (Js.trim (stdout out)) else None
                         | Rejected _ => None
                         end in
            (isSome range = true <->
             exists out, r = Fulfilled out /\ Js.blank (stdout out) = false)
            /\ (forall line, range = Some line -> line <> "" /\ Js.trim line = line)).
  { intros [out|err]; cbn zeta.
    - destruct (Js.truthy (Js.trim (stdout out))) eqn:Ht.
      + pose proof Ht as Hb. rewrite Js.trim_blank in Hb. apply negb_true_iff in Hb.
        split; [split; eauto|].
        intros line [= <-]. split; [|apply Js.trim_idem].
        intros He. rewrite He in Ht. discriminate.
      + pose proof Ht as Hb. rewrite Js.trim_blank in Hb. apply negb_false_iff in Hb.
        split; [|discriminate]. split; [discriminate|].
        intros (out' & [= <-] & Hb'). congruence.
    - split; [|discriminate]. split; [discriminate|]. intros (out & Hout & _).
      discriminate. }
  destruct (Hline x) as [Hx1 Hx2]. destruct (Hline x0) as [Hy1 Hy2].
  cbn zeta in *. cbn [subidsOf ids_hasSubuid ids_hasSubgid ids_subuidRange ids_subgidRange].
  split; [|split; [reflexivity|split; [reflexivity|]]].
  - exists x, x0. split; [reflexivity|]. split; assumption.
  - intros line [Hl|Hl]; [now apply Hx2|now apply Hy2].
Qed.

(** *** Detection *)

(** Reading a run of the detection: one call after the other, with a
    case distinction wherever the code branches. *)
Ltac detect_step H :=
  first
    [ run_step H
    | match type of H with
      | exec _ (bind (if ?c then _ else _) _) _ _ =>
          destruct c eqn:?; cbn [bind] in H
      | exec _ (bind (bind (if ?c then _ else _) _) _) _ _ =>
          destruct c eqn:?; cbn [bind] in H
      | exec _ (if ?c then _ else _) _ _ =>
          destruct c eqn:?; cbn [bind] in H
      | exec _ (bind (match ?x with Fulfilled _ => _ | Rejected _ => _ end) _) _ _ =>
          destruct x; cbn [bind] in H
      | exec _ (match ?x with Fulfilled _ => _ | Rejected _ => _ end) _ _ =>
          destruct x; cbn [bind] in H
      end ].

Ltac detect_all H :=
  unfold detectPodmanHost, isBackendAvailable, checkSubids, grepSubid, quadletProbe,
    noSubids, runExec, call in H;
  cbn [bind] in H; repeat detect_step H.

Definition isGrep (o : Obs) : bool :=
  match o with OExec cmd _ _ _ => String.eqb cmd "grep" | _ => false end.

Lemma isSome_line (r : Settled ExecOutput) :
  isSome (match r with
          | Fulfilled out =>
              if Js.truthy (Js.trim (stdout out)) then Some (Js.trim (stdout out)) else None
          | Rejected _ => None
          end)
  = match r with
    | Fulfilled out => Js.truthy (Js.trim (stdout out))
    | Rejected _ => false
    end.
Proof. destruct r as [out|err]; [|reflexivity]. now destruct (Js.truthy _). Qed.

(** X11. What detection reports hangs together.  The run starts with
    the platform, the user name, [podman version] and [id -u openclaw]; the
    user reported is [openclaw] when that last probe succeeded and the
    current user otherwise.  A subordinate range is flagged exactly when
    one is reported; away from Linux none is looked up and none is
    reported; and a unit is reported as installed only when systemd is
    available and the user exists. *)
Theorem detection_invariants (tr : list Obs) (info : PodmanHostInfo) :
  exec observe detectPodmanHost tr info ->
  (exists currentUser available probe rest,
      tr = OPlatform (platform info) :: OUsername currentUser
           :: OExec "podman" ["version"] 5000 available
           :: OExec "id" ["-u"; "openclaw"] 3000 probe :: rest
      /\ podmanAvailable info = isFulfilled available
      /\ user info = (if isFulfilled probe then "openclaw" else currentUser))
  /\ hasSubuid info = isSome (subuidRange info)
  /\ hasSubgid info = isSome (subgidRange info)
  /\ (String.eqb (platform info) "linux" = false ->
      subuidRange info = None /\ subgidRange info = None /\ existsb isGrep tr = false)
  /\ (quadletInstalled info = true ->
      systemdAvailable info = true /\ userExists info = true).
Proof.
  intros H. detect_all H;
    cbn [platform podmanAvailable user userExists hasSubuid hasSubgid subuidRange
         subgidRange systemdAvailable quadletInstalled subidsOf noSubids
         ids_hasSubuid ids_hasSubgid ids_subuidRange ids_subgidRange];
    (split; [eexists _, _, _, _; split; [reflexivity|split; reflexivity]|]);
    (split; [reflexivity|]); (split; [reflexivity|]);
    (split; [intros Hp; first [congruence|repeat split; reflexivity]|]);
    intros Hq; first [discriminate|now apply andb_prop].
Qed.

Definition probeCommands : list string :=
  ["podman"; "id"; "grep"; "systemctl"; "bash"; "test"].

(** A call of the detection: a question to the operating system, or one
    of the probe commands with a timeout of at most five seconds. *)
Definition isProbe (o : Obs) : bool :=
  match o with
  | OPlatform _ | OUsername _ | OHomedir _ => true
  | OExec cmd _ timeoutMs _ =>
      existsb (String.eqb cmd) probeCommands && (timeoutMs <=? 5000)
  | _ => false
  end.

Lemma detectPodmanHost_probes (tr : list Obs) (info : PodmanHostInfo) :
  exec observe detectPodmanHost tr info ->
  forallb isProbe tr = true
  /\ (length (List.filter isExec tr) <= 8)%nat
  /\ exists rest, tr = OPlatform (platform info) :: rest.
Proof.
  intros H. detect_all H;
    (split; [reflexivity|split; [cbn; lia|eexists; reflexivity]]).
Qed.

(** X12. Detection only looks: every call of every run is a question to
    the operating system (platform, user name, home directory) or one of
    the commands [podman], [id], [grep], [systemctl], [bash], [test], run
    with a timeout of at most five seconds; at most eight commands are run.
    It never prompts, never logs, never runs [sudo] and never writes the
    configuration. *)
Theorem detection_only_probes (tr : list Obs) (info : PodmanHostInfo) :
  exec observe detectPodmanHost tr info ->
  forallb isProbe tr = true /\ (length (List.filter isExec tr) <= 8)%nat.
Proof.
  intros H. apply detectPodmanHost_probes in H as (Hp & Hn & _). auto.
Qed.

(** *** Keeping the offered ranges *)

Lemma append_suffix_inj (a b : string) (c : ascii) :
  a +:+ String c "" = b +:+ String c "" -> a = b.
Proof.
  revert b. induction a as [|x a IH]; intros [|y b] H.
  - reflexivity.
  - rewrite Js.append_cons in H. change ("" +:+ String c "") with (String c "") in H.
    injection H as _ H. destruct b; discriminate H.
  - rewrite Js.append_cons in H. change ("" +:+ String c "") with (String c "") in H.
    injection H as _ H. destruct a; discriminate H.
  - rewrite !Js.append_cons in H. injection H as -> H. f_equal. now apply IH.
Qed.

(** The Quadlet step begins: at most a note, then the prompt. *)
Definition startsQuadletStep (rest : list Obs) : Prop :=
  exists message options initialValue answer rest',
    rest = OSelectQuadlet message options initialValue answer :: rest'
    \/ exists note title,
         rest = ONote note title
                :: OSelectQuadlet message options initialValue answer :: rest'.

(** After the lookup of the two lines: when both are found well formed
    and both prompts are answered with the value they offer, the offers are
    the ranges of the lines, both lines are logged as unchanged, and the
    Quadlet step begins. *)
Definition keptRanges (o : Obs) (post : list Obs) : Prop :=
  forall podmanUser outU outG mU iU pU vU mG iG pG vG post',
    o = OExec "grep" ["^" +:+ podmanUser +:+ ":"; "/etc/subuid"] 3000 (Fulfilled outU) ->
    post = OExec "grep" ["^" +:+ podmanUser +:+ ":"; "/etc/subgid"] 3000 (Fulfilled outG)
           :: OText mU iU pU vU (Entered iU)
           :: OText mG iG pG vG (Entered iG) :: post' ->
    forall uidStart uidCount gidStart gidCount,
      let uidLine := podmanUser +:+ ":" +:+ uidStart +:+ ":" +:+ uidCount in
      let gidLine := podmanUser +:+ ":" +:+ gidStart +:+ ":" +:+ gidCount in
      Js.count ":" podmanUser = 0%nat ->
      Js.count ":" uidStart = 0%nat -> Js.count ":" uidCount = 0%nat ->
      Js.count ":" gidStart = 0%nat -> Js.count ":" gidCount = 0%nat ->
      Js.trim (uidStart +:+ ":" +:+ uidCount) = uidStart +:+ ":" +:+ uidCount ->
      Js.trim (gidStart +:+ ":" +:+ gidCount) = gidStart +:+ ":" +:+ gidCount ->
      Js.trim (stdout outU) = uidLine ->
      Js.trim (stdout outG) = gidLine ->
      iU = uidStart +:+ ":" +:+ uidCount
      /\ iG = gidStart +:+ ":" +:+ gidCount
      /\ exists rest,
           post' = OLog ("subuid: " +:+ uidLine +:+ " (unchanged)")
                   :: OLog ("subgid: " +:+ gidLine +:+ " (unchanged)") :: rest
           /\ startsQuadletStep rest.

Lemma keptRanges_other o post : isGrep o = false -> keptRanges o post.
Proof. intros H ? ? ? ? ? ? ? ? ? ? ? ? ->. discriminate H. Qed.

Lemma quiet_ranges_grep isLinux info podmanUser subids :
  Quiet observe isGrep
    (subuidResult <- rangePrompt "UID" podmanUser (ids_subuidRange subids) ;;
     match subuidResult with
     | CancelSymbol => cancel "Cancelled."
     | Entered uid =>
         subgidResult <- rangePrompt "GID" podmanUser (ids_subgidRange subids) ;;
         match subgidResult with
         | CancelSymbol => cancel "Cancelled."
         | Entered gid =>
             applySubordinateRanges isLinux subids podmanUser (Js.trim uid) (Js.trim gid) ;;
             quadletStep isLinux info podmanUser
         end
     end).
Proof.
  unfold rangePrompt, clackText, cancel, call. cbn [bind].
  apply quiet_vis; [reflexivity|intros [uid|]]; [|quiet_go].
  apply quiet_vis; [reflexivity|intros [gid|]]; [|quiet_go].
  apply quiet_bind.
  { unfold applySubordinateRanges. destruct isLinux.
    - apply quiet_bind; [|intros []];
        unfold applySubid, runExec, runtime_log, runtime_error, call;
        match goal with
        | |- Quiet _ _ (if negb ?has || ?d then _ else _) =>
            destruct (negb has || d); [destruct has|]; cbn [bind]; quiet_go
        end.
    - unfold runtime_log, call. cbn [bind]. quiet_go. }
  intros [].
  unfold quadletStep, when, clackNote, installUnit, reloadAndEnable, installFailed,
    runExec, runtime_log, runtime_error, cancel, call.
  destruct (negb (systemdAvailable info)); destruct isLinux;
    destruct (systemdAvailable info); cbn [andb bind]; quiet_go.
Qed.

Lemma quadletStep_starts isLinux info podmanUser tr u :
  exec observe (quadletStep isLinux info podmanUser) tr u -> startsQuadletStep tr.
Proof.
  intros H. unfold quadletStep, when, clackNote, call in H.
  destruct (negb (systemdAvailable info)); cbn [bind] in H.
  - do 2 run_step H. eexists _, _, _, _, _. right. eexists _, _. reflexivity.
  - run_step H. eexists _, _, _, _, _. left. reflexivity.
Qed.

(** A position in a run of the detection. *)
Ltac occurrence Heq tac :=
  lazymatch type of Heq with
  | [] = ?pre ++ _ :: _ => destruct pre; discriminate Heq
  | _ :: _ = ?pre ++ _ :: _ =>
      let o' := fresh "o" in
      destruct pre as [|o' pre]; cbn [app] in Heq;
      [ injection Heq as ? ?; subst; tac
      | let Ho := fresh "Ho" in injection Heq as Ho Heq; clear Ho; occurrence Heq tac ]
  end.

Lemma keptRanges_detection tr1 info more pre o post :
  exec observe detectPodmanHost tr1 info ->
  tr1 = pre ++ o :: post ->
  keptRanges o (post ++ more).
Proof.
  intros H Heq. detect_all H;
    occurrence Heq
      ltac:(intros ? ? ? ? ? ? ? ? ? ? ? ? Ho Hpost;
            first [discriminate Ho | cbn [app] in Hpost; discriminate Hpost]).
Qed.

Lemma always_keptRanges : Always observe keptRanges runPodmanSetup.
Proof.
  unfold runPodmanSetup. apply always_bind.
  { intros tr1 info tr2 b pre o post H1 _ Heq.
    exact (keptRanges_detection tr1 info tr2 pre o post H1 Heq). }
  intros info. unfold setupWith.
  apply always_bind_quiet with (t := isGrep); [apply keptRanges_other| |intros _].
  { unfold clackNote, call. quiet_go. }
  apply always_bind_quiet with (t := isGrep); [apply keptRanges_other| |intros _].
  { unfold when, runtime_log, call. destruct (negb (podmanAvailable info)); quiet_go. }
  apply always_bind_quiet with (t := isGrep); [apply keptRanges_other| |intros _].
  { unfold when, runtime_log, call.
    destruct (negb (String.eqb (platform info) "linux")); quiet_go. }
  unfold clackText, cancel, call. cbn [bind].
  apply always_vis; [intros; now apply keptRanges_other|].
  intros [name|];
    [|apply always_vis; [intros; now apply keptRanges_other|intros; apply always_ret]].
  generalize (Js.orElse (Js.trim name) (user info)). intros podmanUser.
  apply always_bind_quiet with (t := isGrep); [apply keptRanges_other| |intros flow].
  { unfold userStep. destruct (String.eqb (platform info) "linux"); [|apply quiet_ret].
    apply quiet_bind.
    - destruct (negb (String.eqb podmanUser (user info)));
        unfold runExec, call; cbn [bind]; quiet_go.
    - intros userExistsNow. destruct (negb userExistsNow); [|apply quiet_ret].
      unfold createUserStep, cancel, runExec, runtime_log, runtime_error, call.
      cbn [bind]. quiet_go. }
  destruct flow; [|apply always_ret].
  unfold rangesAndQuadlet.
  destruct (String.eqb (platform info) "linux").
  2:{ cbn [bind]. apply always_quiet with (t := isGrep); [apply keptRanges_other|].
      apply quiet_ranges_grep. }
  unfold checkSubids, grepSubid, runExec, call. cbn [bind].
  apply always_vis.
  - intros r1 tr' a' H'.
    intros user outU outG mU iU pU vU mG iG pG vG post' Ho Hpost
      uidStart uidCount gidStart gidCount uidLine gidLine
      Hu Hus Huc Hgs Hgc Hut Hgt HlineU HlineG.
    injection Ho as Huser ->.
    apply (append_suffix_inj podmanUser user ":"%char) in Huser. subst user.
    run_step H'. injection Hpost as -> Hpost.
    rewrite HlineU, HlineG in H'. subst uidLine gidLine.
    rewrite !truthy_field in H'.
    unfold rangePrompt, clackText, call in H'.
    cbn [bind subidsOf ids_subuidRange ids_subgidRange] in H'.
    run_step H'. injection Hpost as _ HiU _ _ -> Hpost.
    rewrite rangeDefault_line in HiU by assumption. subst iU.
    run_step H'. injection Hpost as _ HiG _ _ -> Hpost.
    rewrite rangeDefault_line in HiG by assumption. subst iG.
    split; [reflexivity|]. split; [reflexivity|].
    apply exec_bind in H' as (applied & [] & rest & Happly & Hquadlet & ->).
    unfold applySubordinateRanges in Happly.
    cbn [ids_hasSubuid ids_hasSubgid ids_subuidRange ids_subgidRange subidsOf] in Happly.
    rewrite Hut, Hgt in Happly.
    apply exec_bind in Happly as (uidRun & [] & gidRun & Huid & Hgid & ->).
    apply applySubid_applied in Huid, Hgid. unfold rangeApplied in Huid, Hgid.
    rewrite String.eqb_refl in Huid, Hgid. unfold unchangedRun in Huid, Hgid.
    subst uidRun gidRun. exists rest. split; [now subst|].
    now apply quadletStep_starts in Hquadlet.
  - intros r1. apply always_vis.
    + intros r2 tr' a' H' user outU outG mU iU pU vU mG iG pG vG post' Ho.
      discriminate Ho.
    + intros r2. apply always_quiet with (t := isGrep); [apply keptRanges_other|].
      apply quiet_ranges_grep.
Qed.

(** X8. Keeping the values the two range prompts offer leaves the host's
    lines alone.  In a run of the wizard, when the lookups of the user's
    lines in [/etc/subuid] and [/etc/subgid] both find a well-formed line
    (three colon-free fields, no white space around the range) and the two
    range prompts that follow are answered with the initial value each
    offers, then each offer is the range of the line found, both lines are
    logged as unchanged, and the wizard goes straight on to the Quadlet
    step: no command is run for the ranges. *)
Theorem offered_ranges_leave_lines_unchanged
    (podmanUser uidStart uidCount gidStart gidCount : string)
    (tr pre post : list Obs) (u : unit) (outU outG : ExecOutput)
    (mU iU pU mG iG pG : string) (vU vG : string -> option string) :
  let uidLine := podmanUser +:+ ":" +:+ uidStart +:+ ":" +:+ uidCount in
  let gidLine := podmanUser +:+ ":" +:+ gidStart +:+ ":" +:+ gidCount in
  Js.count ":" podmanUser = 0%nat ->
  Js.count ":" uidStart = 0%nat -> Js.count ":" uidCount = 0%nat ->
  Js.count ":" gidStart = 0%nat -> Js.count ":" gidCount = 0%nat ->
  Js.trim (uidStart +:+ ":" +:+ uidCount) = uidStart +:+ ":" +:+ uidCount ->
  Js.trim (gidStart +:+ ":" +:+ gidCount) = gidStart +:+ ":" +:+ gidCount ->
  exec observe runPodmanSetup tr u ->
  tr = pre
       ++ OExec "grep" ["^" +:+ podmanUser +:+ ":"; "/etc/subuid"] 3000 (Fulfilled outU)
       :: OExec "grep" ["^" +:+ podmanUser +:+ ":"; "/etc/subgid"] 3000 (Fulfilled outG)
       :: OText mU iU pU vU (Entered iU)
       :: OText mG iG pG vG (Entered iG) :: post ->
  Js.trim (stdout outU) = uidLine ->
  Js.trim (stdout outG) = gidLine ->
  iU = uidStart +:+ ":" +:+ uidCount
  /\ iG = gidStart +:+ ":" +:+ gidCount
  /\ exists rest,
       post = OLog ("subuid: " +:+ uidLine +:+ " (unchanged)")
              :: OLog ("subgid: " +:+ gidLine +:+ " (unchanged)") :: rest
       /\ startsQuadletStep rest.
Proof.
  intros uidLine gidLine Hu Hus Huc Hgs Hgc Hut Hgt H Htr HlineU HlineG.
  exact (always_keptRanges tr u H pre _ _ Htr podmanUser outU outG mU iU pU vU mG iG pG vG
           post eq_refl eq_refl uidStart uidCount gidStart gidCount
           Hu Hus Huc Hgs Hgc Hut Hgt HlineU HlineG).
Qed.

(** *** The wizard away from Linux *)

Lemma quiet_setupWith_remote info :
  String.eqb (platform info) "linux" = false ->
  Quiet observe isExec (setupWith info).
Proof.
  intros Hp.
  unfold setupWith, userStep, rangesAndQuadlet, rangePrompt, applySubordinateRanges,
    quadletStep, when, clackNote, clackText, cancel, runtime_log, call.
  cbv zeta. rewrite Hp. cbn [negb andb bind].
  destruct (negb (podmanAvailable info)); destruct (negb (systemdAvailable info));
    cbn [bind]; quiet_go.
Qed.

(** X13. Away from Linux the wizard only asks and instructs: when the
    platform reported at the start of a run is not [linux], every command
    of the run is a detection probe; no [sudo] command is run, whatever is
    answered at the prompts. *)
Theorem remote_host_setup_runs_no_sudo
    (tr : list Obs) (u : unit) (p : string) (rest : list Obs) :
  exec observe runPodmanSetup tr u ->
  tr = OPlatform p :: rest ->
  String.eqb p "linux" = false ->
  existsb isSudo tr = false
  /\ forallb (fun o => implb (isExec o) (isProbe o)) tr = true.
Proof.
  intros H Htr Hp. unfold runPodmanSetup in H.
  apply exec_bind in H as (tr1 & info & tr2 & H1 & H2 & Heq).
  apply detectPodmanHost_probes in H1 as (Hprobes & _ & rest1 & Htr1).
  assert (Hplat : platform info = p) by (subst; now injection Htr).
  rewrite <- Hplat in Hp. apply (quiet_setupWith_remote info Hp) in H2.
  assert (Hall : forallb (fun o => implb (isExec o) (isProbe o)) tr = true).
  { rewrite Heq, forallb_app. apply andb_true_intro. split.
    - rewrite forallb_forall in Hprobes |- *. intros o Ho.
      rewrite (Hprobes o Ho). now destruct (isExec o).
    - rewrite forallb_forall in H2 |- *. intros o Ho. specialize (H2 o Ho).
      now destruct (isExec o). }
  split; [|exact Hall].
  apply not_true_is_false. intros Hex. apply existsb_exists in Hex as (o & Ho & Hs).
  rewrite forallb_forall in Hall. specialize (Hall o Ho).
  destruct o; try discriminate. cbn in Hs. apply String.eqb_eq in Hs. subst cmd.
  discriminate.
Qed.

(** *** Creating the user *)

Definition isConfirm (o : Obs) : bool :=
  match o with OConfirm _ _ _ => true | _ => false end.

(** [sudo useradd ...] and [sudo loginctl ...] *)
Definition isUserCommand (o : Obs) : bool :=
  match o with
  | OExec cmd (a :: _) _ _ =>
      String.eqb cmd "sudo" && (String.eqb a "useradd" || String.eqb a "loginctl")
  | _ => false
  end.

Definition inUserStep (o : Obs) : bool := isConfirm o || isUserCommand o.

Lemma inUserStep_probe o : inUserStep o = true -> promptOrSudo o = true.
Proof.
  unfold inUserStep, promptOrSudo. destruct o; try discriminate; try reflexivity.
  cbn. destruct args as [|a args]; [discriminate|].
  destruct (String.eqb cmd "sudo"); [reflexivity|discriminate].
Qed.

Lemma quiet_rangesAndQuadlet_user isLinux info podmanUser :
  Quiet observe inUserStep (rangesAndQuadlet isLinux info podmanUser).
Proof.
  destruct isLinux.
  - unfold rangesAndQuadlet.
    apply quiet_bind.
    { apply (quiet_weaken observe _ promptOrSudo); [apply inUserStep_probe|].
      apply quiet_checkSubids. }
    intros subids.
    unfold rangePrompt, clackText, cancel, call. cbn [bind].
    apply quiet_vis; [reflexivity|intros [uid|]]; [|quiet_go].
    apply quiet_vis; [reflexivity|intros [gid|]]; [|quiet_go].
    apply quiet_bind.
    { unfold applySubordinateRanges.
      apply quiet_bind; [|intros []];
        unfold applySubid, runExec, runtime_log, runtime_error, call;
        match goal with
        | |- Quiet _ _ (if negb ?has || ?d then _ else _) =>
            destruct (negb has || d); [destruct has|]; cbn [bind]; quiet_go
        end. }
    intros [].
    unfold quadletStep, when, clackNote, installUnit, reloadAndEnable, installFailed,
      runExec, runtime_log, runtime_error, cancel, call.
    destruct (negb (systemdAvailable info)); destruct (systemdAvailable info);
      cbn [andb bind]; quiet_go.
  - unfold rangesAndQuadlet, rangePrompt, applySubordinateRanges, quadletStep,
      when, clackNote, clackText, cancel, runtime_log, call.
    cbn [andb bind]. destruct (negb (systemdAvailable info)); cbn [bind]; quiet_go.
Qed.

Lemma rangesAndQuadlet_starts info podmanUser tr u :
  exec observe (rangesAndQuadlet true info podmanUser) tr u ->
  exists r rest,
    tr = OExec "grep" ["^" +:+ podmanUser +:+ ":"; "/etc/subuid"] 3000 r :: rest
    /\ existsb inUserStep tr = false.
Proof.
  intros H. pose proof (quiet_rangesAndQuadlet_user true info podmanUser tr u H) as Hq.
  unfold rangesAndQuadlet, checkSubids, grepSubid, runExec, call in H.
  cbn [bind] in H. run_step H. eexists _, _. split; [reflexivity|].
  apply not_true_is_false. intros Hex. apply existsb_exists in Hex as (o & Ho & Ht).
  rewrite forallb_forall in Hq. specialize (Hq o Ho). now rewrite Ht in Hq.
Qed.

(** An observation the property at hand does not speak about. *)
Ltac other_obs :=
  intros; repeat intro;
  match goal with
  | Heq : _ = _ |- _ => cbn in Heq; discriminate Heq
  end.

(** The part of the wizard from the creation prompt on. *)
Definition fromCreateUser (info : PodmanHostInfo) (podmanUser : string) : Prog Eff unit :=
  flow <- createUserStep podmanUser ;;
  match flow with
  | Returned => Ret tt
  | Proceed => rangesAndQuadlet true info podmanUser
  end.

(** A property of the calls of the user step holds of the whole wizard
    when it holds from the creation prompt on. *)
Lemma always_user_step (R : Obs -> list Obs -> Prop) :
  (forall o post, inUserStep o = false -> R o post) ->
  (forall info podmanUser, Always observe R (fromCreateUser info podmanUser)) ->
  Always observe R runPodmanSetup.
Proof.
  intros Hskip Hcreate. unfold runPodmanSetup.
  apply always_bind_quiet with (t := inUserStep); [exact Hskip| |intros info].
  { apply (quiet_weaken observe _ promptOrSudo); [apply inUserStep_probe|].
    apply quiet_detectPodmanHost. }
  unfold setupWith.
  apply always_bind_quiet with (t := inUserStep); [exact Hskip| |intros _].
  { unfold clackNote, call. quiet_go. }
  apply always_bind_quiet with (t := inUserStep); [exact Hskip| |intros _].
  { unfold when, runtime_log, call. destruct (negb (podmanAvailable info)); quiet_go. }
  apply always_bind_quiet with (t := inUserStep); [exact Hskip| |intros _].
  { unfold when, runtime_log, call.
    destruct (negb (String.eqb (platform info) "linux")); quiet_go. }
  unfold clackText, cancel, call. cbn [bind].
  apply always_vis; [intros; now apply Hskip|].
  intros [u|]; [|apply always_vis; [intros; now apply Hskip|intros; apply always_ret]].
  set (podmanUser := Js.orElse (Js.trim u) (user info)).
  assert (Hrest : forall isLinux,
            Always observe R (rangesAndQuadlet isLinux info podmanUser)).
  { intros isLinux. apply always_quiet with (t := inUserStep); [exact Hskip|].
    apply quiet_rangesAndQuadlet_user. }
  unfold userStep. destruct (String.eqb (platform info) "linux"); [|apply Hrest].
  specialize (Hcreate info podmanUser). unfold fromCreateUser in Hcreate.
  destruct (negb (String.eqb podmanUser (user info))).
  - unfold runExec, call. cbn [bind]. apply always_vis; [intros; now apply Hskip|].
    intros r. destruct (negb (isFulfilled r)); [exact Hcreate|apply Hrest].
  - cbn [bind].
    destruct (negb (userExists info && String.eqb podmanUser (user info)));
      [exact Hcreate|apply Hrest].
Qed.

Definition createUserQuestion (podmanUser : string) : string :=
  stylePromptMessage
    ("User " +:+ Js.quote +:+ podmanUser +:+ Js.quote
     +:+ " does not exist. Create it? (requires sudo)").

(** What follows the creation prompt answered with no. *)
Definition declinedCreation (o : Obs) (post : list Obs) : Prop :=
  forall message initialValue,
    o = OConfirm message initialValue (Entered false) ->
    exists podmanUser r rest,
      message = createUserQuestion podmanUser
      /\ post = OLog ("Skipped. Create the user manually:" +:+ Js.newline
                      +:+ "  sudo useradd -m -s /usr/sbin/nologin " +:+ podmanUser)
                :: OExec "grep" ["^" +:+ podmanUser +:+ ":"; "/etc/subuid"] 3000 r
                :: rest
      /\ existsb isUserCommand post = false.

Lemma no_user_command tr : existsb inUserStep tr = false -> existsb isUserCommand tr = false.
Proof.
  intros H. apply not_true_is_false. intros Hex.
  apply existsb_exists in Hex as (o & Ho & Ht).
  assert (Hin : existsb inUserStep tr = true).
  { apply existsb_exists. exists o. split; [exact Ho|].
    unfold inUserStep. rewrite Ht. apply orb_true_r. }
  congruence.
Qed.

(** X14. Declining the creation of the user creates nothing: in every
    run of the wizard, the creation prompt answered with no is followed by
    the notice that gives the exact [useradd] command for that user, and
    the wizard goes on to look up the user's subordinate ranges; neither
    [useradd] nor [loginctl] is run. *)
Theorem declined_user_is_not_created
    (tr : list Obs) (u : unit) (pre post : list Obs) (message : string)
    (initialValue : bool) :
  exec observe runPodmanSetup tr u ->
  tr = pre ++ OConfirm message initialValue (Entered false) :: post ->
  exists podmanUser r rest,
    message = createUserQuestion podmanUser
    /\ post = OLog ("Skipped. Create the user manually:" +:+ Js.newline
                    +:+ "  sudo useradd -m -s /usr/sbin/nologin " +:+ podmanUser)
              :: OExec "grep" ["^" +:+ podmanUser +:+ ":"; "/etc/subuid"] 3000 r
              :: rest
    /\ existsb isUserCommand post = false.
Proof.
  intros H Htr.
  assert (Hall : Always observe declinedCreation runPodmanSetup).
  { apply always_user_step.
    - intros o post' Ho m i ->. discriminate.
    - intros info podmanUser. unfold fromCreateUser, createUserStep.
      fold (createUserQuestion podmanUser).
      unfold cancel, runExec, runtime_log, runtime_error, call. cbn [bind].
      apply always_vis.
      + intros [[|]|] tr' a H' m i Heq; try discriminate.
        injection Heq as <- <-. run_step H'.
        apply rangesAndQuadlet_starts in H' as (r & rest & -> & Hnone).
        exists podmanUser, r, rest. repeat split.
        cbn [existsb isUserCommand]. now apply no_user_command.
      + assert (Hrest : Always observe declinedCreation
                          (rangesAndQuadlet true info podmanUser)).
        { apply always_quiet with (t := inUserStep);
            [intros o post' Ho m i ->; discriminate|].
          apply quiet_rangesAndQuadlet_user. }
        intros [[|]|]; cbn [bind].
        * apply always_vis; [other_obs|].
          intros [out|err]; cbn [bind];
            do 2 (apply always_vis; [other_obs|intros]);
            first [exact Hrest|apply always_ret].
        * apply always_vis; [other_obs|intros].
          exact Hrest.
        * apply always_vis; [other_obs|intros].
          apply always_ret. }
  exact (Hall tr u H pre _ post Htr message initialValue eq_refl).
Qed.

(** X15. After a successful [useradd], the wizard logs the creation and
    tries to enable lingering for the user; whatever that attempt answers,
    a rejection included, nothing is reported about it and the wizard goes
    on to look up the user's subordinate ranges. *)
Theorem linger_failure_is_ignored
    (tr : list Obs) (u : unit) (pre post : list Obs) (podmanUser : string)
    (timeoutMs : Z) (out : ExecOutput) :
  exec observe runPodmanSetup tr u ->
  tr = pre ++ OExec "sudo" (useraddArgs podmanUser) timeoutMs (Fulfilled out) :: post ->
  exists linger r rest,
    post = OLog ("Created user " +:+ Js.quote +:+ podmanUser +:+ Js.quote +:+ ".")
           :: OExec "sudo" ["loginctl"; "enable-linger"; podmanUser] 5000 linger
           :: OExec "grep" ["^" +:+ podmanUser +:+ ":"; "/etc/subuid"] 3000 r
           :: rest.
Proof.
  intros H Htr.
  set (R := fun (o : Obs) (post : list Obs) =>
              forall user t out,
                o = OExec "sudo" (useraddArgs user) t (Fulfilled out) ->
                exists linger r rest,
                  post = OLog ("Created user " +:+ Js.quote +:+ user +:+ Js.quote +:+ ".")
                         :: OExec "sudo" ["loginctl"; "enable-linger"; user] 5000 linger
                         :: OExec "grep" ["^" +:+ user +:+ ":"; "/etc/subuid"] 3000 r
                         :: rest).
  assert (Hall : Always observe R runPodmanSetup).
  { apply always_user_step.
    - intros o post' Ho user t out' ->. discriminate.
    - intros info user. unfold fromCreateUser, createUserStep.
      unfold cancel, runExec, runtime_log, runtime_error, call. cbn [bind].
      assert (Hrest : Always observe R (rangesAndQuadlet true info user)).
      { apply always_quiet with (t := inUserStep);
          [intros o post' Ho user' t out' ->; discriminate|].
        apply quiet_rangesAndQuadlet_user. }
      apply always_vis; [other_obs|].
      intros [[|]|]; cbn [bind].
      + apply always_vis.
        * intros [out'|err] tr' a H' user' t out'' Heq; [|discriminate].
          injection Heq as <- _ _. cbn [bind] in H'. do 2 run_step H'.
          apply rangesAndQuadlet_starts in H' as (r & rest & -> & _).
          eexists _, _, _. reflexivity.
        * intros [out'|err]; cbn [bind].
          -- apply always_vis; [other_obs|intros].
             apply always_vis; [other_obs|intros; exact Hrest].
          -- do 2 (apply always_vis; [other_obs|intros]).
             apply always_ret.
      + apply always_vis; [other_obs|intros].
        exact Hrest.
      + apply always_vis; [other_obs|intros].
        apply always_ret. }
  exact (Hall tr u H pre _ post Htr podmanUser timeoutMs out eq_refl).
Qed.

(** *** Installing the unit *)

Definition failedExec (o : Obs) : bool :=
  match o with OExec _ _ _ (Rejected _) => true | _ => false end.

(** After a command that failed: one message, and the end. *)
Definition endsWithReport (o : Obs) (post : list Obs) : Prop :=
  failedExec o = true ->
  exists message, post = [OError message] \/ post = [OLog message].

(** X16. Installing the unit stops at the first command that fails:
    whichever of its commands is rejected (home directory lookup,
    directory creation, file write, reload, enable), exactly one message
    follows and no further command is run. *)
Theorem unit_install_stops_at_first_failure
    (podmanUser : string) (tr : list Obs) (u : unit) (pre post : list Obs) (o : Obs) :
  exec observe (installUnit podmanUser) tr u ->
  tr = pre ++ o :: post ->
  failedExec o = true ->
  (exists message, post = [OError message] \/ post = [OLog message])
  /\ existsb isExec post = false.
Proof.
  intros H Htr Hfail.
  assert (Hall : Always observe endsWithReport (installUnit podmanUser)).
  { unfold installUnit, reloadAndEnable, installFailed, runExec, runtime_log,
      runtime_error, call. cbn [bind].
    repeat
      (apply always_vis;
       [ intros x' tr' a' H' Hf; destruct x'; [discriminate (Hf : false = true)|];
         run_all H'; eauto
       | intros [?|?]; cbn [bind] ]);
      (apply always_vis;
       [intros ? ? ? ? Hf; discriminate (Hf : false = true)|intros; apply always_ret]). }
  destruct (Hall tr u H pre o post Htr Hfail) as (message & Hpost).
  split; [eauto|]. destruct Hpost as [->| ->]; reflexivity.
Qed.

(** *** What precedes the creation prompt and the unit commands *)

Lemma detection_lookups (tr : list Obs) (info : PodmanHostInfo) :
  exec observe detectPodmanHost tr info ->
  (exists r, userExists info = isFulfilled r
             /\ In (OExec "id" ["-u"; user info] 3000 r) tr)
  /\ (exists s, systemdAvailable info = isFulfilled s
                /\ In (OExec "systemctl" ["--version"] 3000 s) tr).
Proof.
  intros H. detect_all H; cbn [user userExists systemdAvailable];
    (split; eexists; (split; [reflexivity|]));
    repeat first [left; reflexivity | right].
Qed.

Ltac in_history :=
  rewrite ?in_app_iff; cbn [In]; auto 20.

(** Before a creation prompt: the platform is Linux, and the lookup of
    the user the prompt names has failed. *)
Definition afterFailedLookup (hist : list Obs) (o : Obs) : Prop :=
  forall message initialValue answer,
    o = OConfirm message initialValue answer ->
    exists podmanUser err rest,
      message = createUserQuestion podmanUser
      /\ initialValue = true
      /\ hist = OPlatform "linux" :: rest
      /\ In (OExec "id" ["-u"; podmanUser] 3000 (Rejected err)) hist.

Lemma past_createUserStep hist podmanUser :
  (exists rest, hist = OPlatform "linux" :: rest) ->
  (exists err, In (OExec "id" ["-u"; podmanUser] 3000 (Rejected err)) hist) ->
  Past observe hist afterFailedLookup isConfirm (createUserStep podmanUser).
Proof.
  intros (rest & Hrest) (err & Hin).
  unfold createUserStep, cancel, runExec, runtime_log, runtime_error, call. cbn [bind].
  apply past_vis.
  - intros x _ message initialValue answer Heq. injection Heq as <- <- _.
    exists podmanUser, err, rest. auto.
  - intros x. apply past_quiet. quiet_go.
Qed.

Lemma isConfirm_prompt o : isConfirm o = true -> promptOrSudo o = true.
Proof. intros H. apply inUserStep_probe. unfold inUserStep. now rewrite H. Qed.

Lemma quiet_rangesAndQuadlet_confirm isLinux info podmanUser :
  Quiet observe isConfirm (rangesAndQuadlet isLinux info podmanUser).
Proof.
  apply (quiet_weaken observe _ inUserStep); [|apply quiet_rangesAndQuadlet_user].
  intros o Ho. unfold inUserStep. now rewrite Ho.
Qed.

(** X27. The wizard offers to create a user only after looking it up in
    vain: wherever a confirmation prompt occurs in a run, it is the creation
    prompt for some user, with yes preselected; the run started on Linux,
    and an [id -u] for that very user was rejected earlier in the run. *)
Theorem creation_prompt_follows_failed_lookup
    (tr : list Obs) (u : unit) (pre post : list Obs) (message : string)
    (initialValue : bool) (answer : Prompted bool) :
  exec observe runPodmanSetup tr u ->
  tr = pre ++ OConfirm message initialValue answer :: post ->
  exists podmanUser err rest,
    message = createUserQuestion podmanUser
    /\ initialValue = true
    /\ pre = OPlatform "linux" :: rest
    /\ In (OExec "id" ["-u"; podmanUser] 3000 (Rejected err)) pre.
Proof.
  intros H Htr.
  assert (Hpast : Past observe [] afterFailedLookup isConfirm runPodmanSetup).
  { unfold runPodmanSetup. apply past_bind.
    { apply past_quiet.
      apply (quiet_weaken observe _ promptOrSudo); [apply isConfirm_prompt|].
      apply quiet_detectPodmanHost. }
    intros info tr1 Hdet. cbn [app].
    destruct (detection_lookups _ _ Hdet) as ((r & Hexists & Hlookup) & _).
    apply detectPodmanHost_probes in Hdet as (_ & _ & rest1 & Htr1).
    unfold setupWith.
    apply past_bind; [apply past_quiet; unfold clackNote, call; quiet_go|intros _ tr2 _].
    apply past_bind;
      [apply past_quiet; unfold when, runtime_log, call;
       destruct (negb (podmanAvailable info)); quiet_go
      |intros _ tr3 _].
    apply past_bind;
      [apply past_quiet; unfold when, runtime_log, call;
       destruct (negb (String.eqb (platform info) "linux")); quiet_go
      |intros _ tr4 _].
    unfold clackText, cancel, call. cbn [bind].
    apply past_vis; [intros x Hx; discriminate Hx|].
    intros [name|];
      [|apply past_vis; [intros x Hx; discriminate Hx|intros; apply past_ret]].
    set (podmanUser := Js.orElse (Js.trim name) (user info)).
    apply past_bind.
    - unfold userStep.
      destruct (String.eqb (platform info) "linux") eqn:Hlinux; [|apply past_ret].
      apply String.eqb_eq in Hlinux. rewrite Hlinux in Htr1.
      destruct (String.eqb podmanUser (user info)) eqn:Hsame; cbn [negb bind].
      + apply String.eqb_eq in Hsame.
        destruct (userExists info) eqn:Hex; cbn [andb negb]; [apply past_ret|].
        apply past_createUserStep.
        * rewrite Htr1. eexists. reflexivity.
        * destruct r as [out|err]; [discriminate Hexists|].
          exists err. rewrite Hsame. in_history.
      + unfold runExec, call. cbn [bind].
        apply past_vis; [intros x Hx; discriminate Hx|].
        intros [out|err]; cbn [isFulfilled negb]; [apply past_ret|].
        apply past_createUserStep.
        * rewrite Htr1. eexists. reflexivity.
        * exists err. in_history.
    - intros [|] tr5 _; [|apply past_ret].
      apply past_quiet. apply quiet_rangesAndQuadlet_confirm. }
  exact (Hpast tr u H pre _ post Htr eq_refl message initialValue answer eq_refl).
Qed.

(** *** When the unit is installed *)

(** The commands that install the unit: run as the Podman user, or
    [systemctl] as root. *)
Definition isUnitCommand (o : Obs) : bool :=
  match o with
  | OExec cmd (a :: _) _ _ =>
      String.eqb cmd "sudo" && (String.eqb a "-u" || String.eqb a "systemctl")
  | _ => false
  end.

Lemma isUnitCommand_sudo o : isUnitCommand o = true -> promptOrSudo o = true.
Proof.
  unfold promptOrSudo. destruct o; try discriminate.
  cbn. destruct args as [|a args]; [discriminate|].
  destruct (String.eqb cmd "sudo"); [reflexivity|discriminate].
Qed.

(** The run so far: on Linux, with systemd found, and Install chosen. *)
Definition installRequested (hist : list Obs) : Prop :=
  (exists rest, hist = OPlatform "linux" :: rest)
  /\ (exists out, In (OExec "systemctl" ["--version"] 3000 (Fulfilled out)) hist)
  /\ (exists message options initialValue,
        In (OSelectQuadlet message options initialValue (Entered install)) hist).

Lemma installRequested_later hist more :
  installRequested hist -> installRequested (hist ++ more).
Proof.
  intros ((rest & ->) & (out & Hout) & (m & opts & i & Hsel)). repeat split.
  - eexists. reflexivity.
  - exists out. in_history.
  - exists m, opts, i. in_history.
Qed.

(** X28. The unit is installed only on request: wherever a run of the
    wizard runs a command as the Podman user ([sudo -u ...]) or a
    [sudo systemctl ...], the run started on Linux, [systemctl --version]
    succeeded during detection, and Install was chosen at the Quadlet
    prompt, all earlier in the run. *)
Theorem unit_commands_only_on_request
    (tr : list Obs) (u : unit) (pre post : list Obs) (o : Obs) :
  exec observe runPodmanSetup tr u ->
  tr = pre ++ o :: post ->
  isUnitCommand o = true ->
  (exists rest, pre = OPlatform "linux" :: rest)
  /\ (exists out, In (OExec "systemctl" ["--version"] 3000 (Fulfilled out)) pre)
  /\ (exists message options initialValue,
        In (OSelectQuadlet message options initialValue (Entered install)) pre).
Proof.
  intros H Htr Ho.
  assert (Hpast : Past observe [] (fun hist _ => installRequested hist) isUnitCommand
                    runPodmanSetup).
  { unfold runPodmanSetup. apply past_bind.
    { apply past_quiet.
      apply (quiet_weaken observe _ promptOrSudo); [apply isUnitCommand_sudo|].
      apply quiet_detectPodmanHost. }
    intros info tr1 Hdet. cbn [app].
    destruct (detection_lookups _ _ Hdet) as (_ & (s & Hsystemd & Hlookup)).
    apply detectPodmanHost_probes in Hdet as (_ & _ & rest1 & Htr1).
    unfold setupWith.
    apply past_bind; [apply past_quiet; unfold clackNote, call; quiet_go|intros _ tr2 _].
    apply past_bind;
      [apply past_quiet; unfold when, runtime_log, call;
       destruct (negb (podmanAvailable info)); quiet_go
      |intros _ tr3 _].
    apply past_bind;
      [apply past_quiet; unfold when, runtime_log, call;
       destruct (negb (String.eqb (platform info) "linux")); quiet_go
      |intros _ tr4 _].
    unfold clackText, cancel, call. cbn [bind].
    apply past_vis; [intros x Hx; discriminate Hx|].
    intros [name|];
      [|apply past_vis; [intros x Hx; discriminate Hx|intros; apply past_ret]].
    set (podmanUser := Js.orElse (Js.trim name) (user info)).
    apply past_bind.
    { apply past_quiet. unfold userStep.
      destruct (String.eqb (platform info) "linux"); [|apply quiet_ret].
      apply quiet_bind.
      - destruct (negb (String.eqb podmanUser (user info)));
          unfold runExec, call; cbn [bind]; quiet_go.
      - intros userExistsNow. destruct (negb userExistsNow); [|apply quiet_ret].
        unfold createUserStep, cancel, runExec, runtime_log, runtime_error, call.
        cbn [bind]. quiet_go. }
    intros [|] tr5 _; [|apply past_ret].
    unfold rangesAndQuadlet.
    apply past_bind.
    { apply past_quiet. destruct (String.eqb (platform info) "linux"); [|apply quiet_ret].
      apply (quiet_weaken observe _ promptOrSudo); [apply isUnitCommand_sudo|].
      apply quiet_checkSubids. }
    intros subids tr6 _.
    unfold rangePrompt, clackText, cancel, call. cbn [bind].
    apply past_vis; [intros x Hx; discriminate Hx|].
    intros [uid|];
      [|apply past_vis; [intros x Hx; discriminate Hx|intros; apply past_ret]].
    apply past_vis; [intros x Hx; discriminate Hx|].
    intros [gid|];
      [|apply past_vis; [intros x Hx; discriminate Hx|intros; apply past_ret]].
    apply past_bind.
    { apply past_quiet. unfold applySubordinateRanges.
      destruct (String.eqb (platform info) "linux").
      - apply quiet_bind; [|intros []];
          unfold applySubid, runExec, runtime_log, runtime_error, call;
          match goal with
          | |- Quiet _ _ (if negb ?has || ?d then _ else _) =>
              destruct (negb has || d); [destruct has|]; cbn [bind]; quiet_go
          end.
      - unfold runtime_log, call. cbn [bind]. quiet_go. }
    intros _ tr7 _.
    unfold quadletStep.
    apply past_bind;
      [apply past_quiet; unfold when, clackNote, call;
       destruct (negb (systemdAvailable info)); quiet_go
      |intros _ tr8 _].
    unfold cancel, call. cbn [bind].
    apply past_vis; [intros x Hx; discriminate Hx|].
    intros [[|]|];
      [apply past_ret| |apply past_vis; [intros x Hx; discriminate Hx|intros; apply past_ret]].
    destruct (String.eqb (platform info) "linux") eqn:Hlinux;
      [destruct (systemdAvailable info) eqn:Hsd|]; cbn [andb];
      try solve [apply past_quiet; unfold runtime_log, call; cbn [bind]; quiet_go].
    apply String.eqb_eq in Hlinux. rewrite Hlinux in Htr1.
    destruct s as [out|err]; [|discriminate Hsystemd].
    intros tr9 a9 H9 pre9 o9 post9 _ _. apply installRequested_later.
    repeat split.
    - rewrite Htr1. eexists. reflexivity.
    - exists out. in_history.
    - eexists _, _, _. in_history. }
  pose proof (Hpast tr u H pre o post Htr Ho) as Hreq. exact Hreq.
Qed.

(** *** What the wizard leaves to the command *)

(** Calls the wizard never makes: the configuration is the command's, and
    so are the frame of the prompt session, the backend prompt and the exit
    code. *)
Definition isCommandCall (o : Obs) : bool :=
  match o with
  | OLoadConfig _ | OWriteConfigFile _ _ | OLogConfigUpdated | OExit _
  | OIntro _ | OOutro _ | OSelectBackend _ _ _ _ => true
  | _ => false
  end.

Lemma quiet_rangesAndQuadlet_command isLinux info podmanUser :
  Quiet observe isCommandCall (rangesAndQuadlet isLinux info podmanUser).
Proof.
  unfold rangesAndQuadlet.
  apply quiet_bind.
  { destruct isLinux; [|apply quiet_ret].
    unfold checkSubids, grepSubid, runExec, call. cbn [bind]. quiet_go. }
  intros subids.
  unfold rangePrompt, clackText, cancel, call. cbn [bind].
  apply quiet_vis; [reflexivity|intros [uid|]]; [|quiet_go].
  apply quiet_vis; [reflexivity|intros [gid|]]; [|quiet_go].
  apply quiet_bind.
  { unfold applySubordinateRanges. destruct isLinux.
    - apply quiet_bind; [|intros []];
        unfold applySubid, runExec, runtime_log, runtime_error, call;
        match goal with
        | |- Quiet _ _ (if negb ?has || ?d then _ else _) =>
            destruct (negb has || d); [destruct has|]; cbn [bind]; quiet_go
        end.
    - unfold runtime_log, call. cbn [bind]. quiet_go. }
  intros [].
  unfold quadletStep, when, clackNote, installUnit, reloadAndEnable, installFailed,
    runExec, runtime_log, runtime_error, cancel, call.
  destruct (negb (systemdAvailable info)); destruct isLinux;
    destruct (systemdAvailable info); cbn [andb bind]; quiet_go.
Qed.

Lemma quiet_runPodmanSetup_command : Quiet observe isCommandCall runPodmanSetup.
Proof.
  unfold runPodmanSetup. apply quiet_bind.
  { intros tr info H. apply detectPodmanHost_probes in H as (Hp & _).
    rewrite forallb_forall in Hp |- *. intros o Ho. specialize (Hp o Ho).
    destruct o; try discriminate; reflexivity. }
  intros info. unfold setupWith.
  apply quiet_bind; [unfold clackNote, call; quiet_go|intros _].
  apply quiet_bind;
    [unfold when, runtime_log, call; destruct (negb (podmanAvailable info)); quiet_go
    |intros _].
  apply quiet_bind;
    [unfold when, runtime_log, call;
     destruct (negb (String.eqb (platform info) "linux")); quiet_go
    |intros _].
  unfold clackText, cancel, call. cbn [bind].
  apply quiet_vis; [reflexivity|intros [u|]]; [|quiet_go].
  apply quiet_bind.
  - unfold userStep. destruct (String.eqb (platform info) "linux"); [|apply quiet_ret].
    apply quiet_bind.
    + destruct (negb (String.eqb (Js.orElse (Js.trim u) (user info)) (user info)));
        unfold runExec, call; cbn [bind]; quiet_go.
    + intros userExistsNow. destruct (negb userExistsNow); [|apply quiet_ret].
      unfold createUserStep, cancel, runExec, runtime_log, runtime_error, call.
      cbn [bind]. quiet_go.
  - intros [|]; [apply quiet_rangesAndQuadlet_command|apply quiet_ret].
Qed.

(** X17. The wizard leaves the configuration alone: no run of it loads
    or writes the configuration, sets an exit code, or opens or closes the
    prompt session; a failing step never ends the process. *)
Theorem wizard_never_touches_configuration (tr : list Obs) (u : unit) :
  exec observe runPodmanSetup tr u -> existsb isCommandCall tr = false.
Proof.
  intros H. apply quiet_runPodmanSetup_command in H.
  apply not_true_is_false. intros Hex. apply existsb_exists in Hex as (o & Ho & Ht).
  rewrite forallb_forall in H. specialize (H o Ho). now rewrite Ht in H.
Qed.

End Wizard.

(** ** The command *)

Record SandboxBackendOptions := {
  set : option string;
  agent : option string;
  json : bool
}.

Section Command.

Variable stylePromptMessage : string -> string.
Variable stylePromptTitle : string -> option string.
Variable normalizeAgentId : string -> string.

(** [resolveSandboxConfigForAgent(cfg, agentId).backend]; the function
    belongs to [../agents/sandbox/config.js]. *)
Variable resolveSandboxBackend : Config -> option string -> SandboxBackend.

Definition applyBackend (cfg : Config) (agentId : option string)
    (backend : SandboxBackend) : Prog Eff (Settled unit) :=
  match patchConfig normalizeAgentId (root cfg) agentId backend (store cfg) with
  | (Rejected err, _) => Ret (Rejected err)
  | (Fulfilled nextConfig, h) =>
      w <- writeConfigFile {| store := h; root := nextConfig |} ;;
      match w with
      | Rejected err => Ret (Rejected err)
      | Fulfilled _ => logConfigUpdated ;; Ret (Fulfilled tt)
      end
  end.

Definition titled (text : string) : string :=
  default text (stylePromptTitle text).

Definition warnUnlessAvailable (backend : SandboxBackend) : Prog Eff unit :=
  available <- isBackendAvailable backend ;;
  when (negb available)
    (runtime_log
       ("Warning: " +:+ Js.quote +:+ backendName backend +:+ Js.quote
        +:+ " does not appear to be available on this system.")).

(** [VALID_BACKENDS.includes(requested)], with the backend it names. *)
Definition validBackend (requested : string) : option SandboxBackend :=
  List.find (fun b => String.eqb (backendName b) requested) VALID_BACKENDS.

Definition jsonReport (currentBackend : SandboxBackend) (agentId : option string) :
    string :=
  "{" +:+ Js.newline
  +:+ "  " +:+ Js.jsonString "backend" +:+ ": "
  +:+ Js.jsonString (backendName currentBackend) +:+ "," +:+ Js.newline
  +:+ "  " +:+ Js.jsonString "agentId" +:+ ": "
  +:+ match agentId with Some id => Js.jsonString id | None => "null" end
  +:+ Js.newline +:+ "}".

Definition setBackend (cfg : Config) (agentId : option string)
    (currentBackend : SandboxBackend) (requestedText : string) :
    Prog Eff (Settled unit) :=
  let requested := Js.toLowerCase requestedText in
  match validBackend requested with
  | None =>
      runtime_error
        ("Invalid backend " +:+ Js.quote +:+ requestedText +:+ Js.quote
         +:+ ". Valid options: " +:+ Js.join ", " (map backendName VALID_BACKENDS)) ;;
      runtime_exit 1 ;;
      Ret (Fulfilled tt)
  | Some backend =>
      if String.eqb requested (backendName currentBackend) then
        runtime_log
          ("Backend is already set to " +:+ Js.quote +:+ backendName currentBackend
           +:+ Js.quote +:+ ".") ;;
        Ret (Fulfilled tt)
      else
        warnUnlessAvailable backend ;;
        applyBackend cfg agentId backend
  end.

Definition backendOptions : list (SelectOption SandboxBackend) :=
  map (fun b =>
         {| opt_value := b;
            opt_label := match b with docker => "Docker" | podman => "Podman" end;
            opt_hint := match b with
                        | docker => "Docker daemon (default)"
                        | podman => "Podman " +:+ emDash +:+ " daemonless, Linux only"
                        end |})
    VALID_BACKENDS.

Definition sameBackend (a b : SandboxBackend) : bool :=
  String.eqb (backendName a) (backendName b).

Definition chooseBackend (cfg : Config) (agentId : option string)
    (currentBackend : SandboxBackend) : Prog Eff (Settled unit) :=
  clackIntro (titled "Sandbox backend") ;;
  runtime_log ("Current backend: " +:+ backendName currentBackend) ;;
  selected <-
    call (ClackSelectBackend (stylePromptMessage "Select container backend")
            backendOptions currentBackend) ;;
  match selected with
  | CancelSymbol => cancel "Cancelled." ;; Ret (Fulfilled tt)
  | Entered selected =>
      if sameBackend selected currentBackend then
        clackOutro
          (titled ("Backend unchanged (" +:+ backendName currentBackend +:+ ").")) ;;
        Ret (Fulfilled tt)
      else
        warnUnlessAvailable selected ;;
        applied <- applyBackend cfg agentId selected ;;
        match applied with
        | Rejected err => Ret (Rejected err)
        | Fulfilled _ =>
            when (sameBackend selected podman)
              (runtime_log "" ;; runPodmanSetup stylePromptMessage) ;;
            clackOutro (titled ("Backend set to " +:+ backendName selected +:+ ".")) ;;
            Ret (Fulfilled tt)
        end
  end.

(** [opts.agent ? normalizeAgentId(opts.agent) : undefined] *)
Definition requestedAgent (opts : SandboxBackendOptions) : option string :=
  match agent opts with
  | Some a => if Js.truthy a then Some (normalizeAgentId a) else None
  | None => None
  end.

Definition sandboxBackendCommand (opts : SandboxBackendOptions) :
    Prog Eff (Settled unit) :=
  cfg <- loadConfig ;;
  let agentId := requestedAgent opts in
  let currentBackend := resolveSandboxBackend cfg agentId in
  if json opts then
    runtime_log (jsonReport currentBackend agentId) ;;
    Ret (Fulfilled tt)
  else if Js.truthy (default "" (set opts)) then
    setBackend cfg agentId currentBackend (default "" (set opts))
  else chooseBackend cfg agentId currentBackend.

Arguments applyBackend : simpl never.
Arguments warnUnlessAvailable : simpl never.
Arguments setBackend : simpl never.
Arguments chooseBackend : simpl never.

(** *** Validation *)

(** A requested name matches a backend when the two are equal up to
    case. *)
Definition caseInsensitiveMatch (a b : string) : bool :=
  String.eqb (Js.toLowerCase a) (Js.toLowerCase b).

Definition matchesValidBackend (requested : string) : bool :=
  existsb (fun b => caseInsensitiveMatch requested (backendName b)) VALID_BACKENDS.

Definition isWrite (o : Obs) : bool :=
  match o with OWriteConfigFile _ _ => true | _ => false end.

Lemma validBackend_matches requested :
  validBackend (Js.toLowerCase requested) =
  if matchesValidBackend requested
  then validBackend (Js.toLowerCase requested) else None.
Proof.
  unfold matchesValidBackend, validBackend, caseInsensitiveMatch, VALID_BACKENDS.
  cbn [existsb List.find backendName].
  change (Js.toLowerCase "docker") with "docker".
  change (Js.toLowerCase "podman") with "podman".
  rewrite !(String.eqb_sym (Js.toLowerCase requested)).
  destruct (String.eqb "docker" (Js.toLowerCase requested)); [reflexivity|].
  destruct (String.eqb "podman" (Js.toLowerCase requested)); reflexivity.
Qed.

Definition rejectedAsInvalid (requested : string) (tr : list Obs) : Prop :=
  (exists cfg,
     tr = [OLoadConfig cfg;
           OError ("Invalid backend " +:+ Js.quote +:+ requested +:+ Js.quote
                   +:+ ". Valid options: docker, podman");
           OExit 1])
  /\ existsb isWrite tr = false.

(** C6. On the path taken for a non-empty [--set] value without
    [--json], a value that matches neither backend up to case yields the
    error naming the value and the valid set, then exit code 1, and
    nothing else: no configuration is written. *)
Theorem invalid_backend_rejected
    (opts : SandboxBackendOptions) (requested : string)
    (tr : list Obs) (out : Settled unit) :
  json opts = false ->
  set opts = Some requested ->
  Js.truthy requested = true ->
  matchesValidBackend requested = false ->
  exec observe (sandboxBackendCommand opts) tr out ->
  rejectedAsInvalid requested tr.
Proof.
  intros Hjson Hset Htruthy Hinvalid H.
  unfold sandboxBackendCommand, loadConfig, call in H. cbn [bind] in H.
  run_step H. rewrite Hjson, Hset in H. cbn [from_option id] in H. rewrite Htruthy in H.
  unfold setBackend in H.
  rewrite validBackend_matches, Hinvalid in H.
  unfold runtime_error, runtime_exit, call in H. cbn [bind] in H.
  do 3 run_step H. split; [eexists; reflexivity|reflexivity].
Qed.

(** *** The no-op *)

Definition noOpReported (opts : SandboxBackendOptions) (tr : list Obs)
    (out : Settled unit) : Prop :=
  exists cfg rest,
    tr = OLoadConfig cfg :: rest
    /\ let current := resolveSandboxBackend cfg (requestedAgent opts) in
       (forall requested,
           set opts = Some requested ->
           Js.truthy requested = true ->
           Js.toLowerCase requested = backendName current ->
           rest = [OLog ("Backend is already set to " +:+ Js.quote
                         +:+ backendName current +:+ Js.quote +:+ ".")]
           /\ out = Fulfilled tt)
       /\ (Js.truthy (default "" (set opts)) = false ->
           exists selected rest',
             rest = OIntro (titled "Sandbox backend")
                    :: OLog ("Current backend: " +:+ backendName current)
                    :: OSelectBackend (stylePromptMessage "Select container backend")
                         backendOptions current selected
                    :: rest'
             /\ (selected = Entered current ->
                 rest' = [OOutro (titled ("Backend unchanged ("
                                          +:+ backendName current +:+ ")."))]
                 /\ out = Fulfilled tt)).

(** C7. Without [--json]: when the [--set] value names the backend in
    effect for the agent scope, or when the backend picked at the prompt
    is the one in effect, the run consists of the report of that fact (a
    log line, resp. the closing line of the prompt session) and writes no
    configuration, signals no error and no exit code. *)
Theorem same_backend_not_written
    (opts : SandboxBackendOptions) (tr : list Obs) (out : Settled unit) :
  json opts = false ->
  exec observe (sandboxBackendCommand opts) tr out ->
  noOpReported opts tr out.
Proof.
  intros Hjson H.
  unfold sandboxBackendCommand, loadConfig, call in H. cbn [bind] in H.
  run_step H. rewrite Hjson in H. unfold noOpReported.
  eexists _, _. split; [reflexivity|].
  cbv zeta. split.
  - intros requested Hset Htruthy Hsame.
    rewrite Hset in H. cbn [from_option id] in H. rewrite Htruthy in H.
    unfold setBackend in H. rewrite Hsame in H.
    assert (Hvalid : validBackend
                       (backendName (resolveSandboxBackend x (requestedAgent opts)))
                     = Some (resolveSandboxBackend x (requestedAgent opts))).
    { now destruct (resolveSandboxBackend x (requestedAgent opts)). }
    rewrite Hvalid, String.eqb_refl in H.
    unfold runtime_log, call in H. cbn [bind] in H. do 2 run_step H.
    split; reflexivity.
  - intros Hfalsy. rewrite Hfalsy in H.
    unfold chooseBackend, clackIntro, runtime_log, call in H. cbn [bind] in H.
    do 3 run_step H. eexists _, _. split; [reflexivity|].
    intros ->. unfold sameBackend in H. rewrite String.eqb_refl in H.
    unfold clackOutro, call in H. cbn [bind] in H. do 2 run_step H.
    split; reflexivity.
Qed.

(** *** A new agent entry *)

(** What the written configuration holds after a per-agent apply for an
    agent the list did not have: the list is the old list followed by one
    entry, [{ id, sandbox: { backend } }]; the old entries are the copies of
    the caller's, object for object; and so is every other object of the
    clone, the root, [agents] and [agents.list] apart. *)
Definition agentEntryAdded (cfg : Config) (agentId : string) (backend : SandboxBackend)
    (written : Config) (e : nat) : Prop :=
  let n := length (store cfg) in
  let before := agentList (store cfg) (root cfg) in
  root written = shift n (root cfg)
  /\ agentList (store written) (root written) = map (shift n) before ++ [VRef e]
  /\ ~ In (VRef e) (map (shift n) before)
  /\ store written !! e
     = Some {| props := [("id", VString agentId); ("sandbox", VRef (S e))];
               elems := None |}
  /\ store written !! S e = Some (backendObject backend)
  /\ (forall l, In (VRef l) before ->
        store written !! (l + n)%nat = shiftObject n <$> store cfg !! l)
  /\ (forall l, (l < n)%nat ->
        let agents := readProp (store written) (root written) "agents" in
        VRef (l + n) <> root written ->
        VRef (l + n) <> agents ->
        VRef (l + n) <> readProp (store written) agents "list" ->
        store written !! (l + n)%nat = shiftObject n <$> store cfg !! l).

(** C8. For a well-typed configuration whose agent list has no entry with
    the (normalized, non-empty) agent id, [applyBackend] hands the writer a
    configuration with exactly one entry more, carrying the requested
    backend, the entries that were there being unchanged. *)
Theorem applyBackend_adds_agent_entry
    (cfg : Config) (agentId : string) (backend : SandboxBackend)
    (tr : list Obs) (out : Settled unit) :
  wellTyped (store cfg) (root cfg) = true ->
  Js.truthy agentId = true ->
  absent normalizeAgentId (store cfg) (root cfg) agentId = true ->
  exec observe (applyBackend cfg (Some agentId) backend) tr out ->
  exists written w rest e,
    tr = OWriteConfigFile written w :: rest
    /\ agentEntryAdded cfg agentId backend written e.
Proof.
  intros Hwt Htruthy Habs H.
  destruct (patchAgent_new normalizeAgentId (store cfg) (root cfg) agentId backend
              Hwt Habs)
    as (h' & e & Hrun & Hlist & He & Hsb & Hge & Hold & Hdeep).
  assert (Hpatch : patchConfig normalizeAgentId (root cfg) (Some agentId) backend (store cfg)
                   = (Fulfilled (shift (length (store cfg)) (root cfg)), h')).
  { unfold patchConfig. unfold mbind at 1. cbn [structuredClone from_option id].
    rewrite Htruthy. unfold mbind. now rewrite Hrun. }
  unfold applyBackend in H. rewrite Hpatch in H.
  unfold writeConfigFile, call in H. cbn [bind] in H. run_step H.
  eexists _, _, _, e. split; [reflexivity|].
  unfold agentEntryAdded. cbn [store root]. repeat split; auto.
  intros Hin. apply in_map_iff in Hin as (v & Hv & Hin).
  assert (Hobj : isObject (store cfg) v = true).
  { unfold wellTyped in Hwt. unfold agentList in Hin.
    apply andb_prop in Hwt as [_ Hwt]. cbv zeta in Hwt.
    destruct (nullish (readProp (store cfg) (root cfg) "agents")) eqn:Hn1.
    { destruct (readProp (store cfg) (root cfg) "agents"); try discriminate;
        destruct Hin. }
    cbn [orb] in Hwt. apply andb_prop in Hwt as [_ Hwt].
    destruct (nullish (readProp (store cfg)
                         (readProp (store cfg) (root cfg) "agents") "list")) eqn:Hn2.
    { destruct (readProp (store cfg)
                  (readProp (store cfg) (root cfg) "agents") "list");
        try discriminate; destruct Hin. }
    cbn [orb] in Hwt. apply andb_prop in Hwt as [_ Hall].
    rewrite forallb_forall in Hall. now apply Hall. }
  apply isObject_ref in Hobj as (l & ps & -> & Hl).
  apply lookup_lt_Some in Hl. cbn [shift] in Hv. injection Hv as Hv. lia.
Qed.

(** *** Copy on write *)

(** C9. Whatever the configuration, the agent and the backend: after
    [applyBackend] the caller's objects are what they were, and the
    configuration handed to the writer is the clone, an object graph made
    of new objects only. *)
Theorem applyBackend_copy_on_write
    (cfg : Config) (agentId : option string) (backend : SandboxBackend) :
  let n := length (store cfg) in
  let r := patchConfig normalizeAgentId (root cfg) agentId backend (store cfg) in
  take n (snd r) = store cfg
  /\ (forall tr out,
         exec observe (applyBackend cfg agentId backend) tr out ->
         forall written w,
           In (OWriteConfigFile written w) tr ->
           store written = snd r
           /\ root written = shift n (root cfg)
           /\ extends (store cfg) (store written)
           /\ newValue (store cfg) (root written)).
Proof.
  intros n r.
  destruct (patchConfig_extends normalizeAgentId (store cfg) (root cfg) agentId backend)
    as [Hext Hnext].
  fold r in Hext, Hnext. split.
  - destruct Hext as (ext & -> & _). subst n. now rewrite take_app_length.
  - intros tr out H written w Hin.
    unfold applyBackend in H. fold r in H.
    destruct r as [[next|err] h] eqn:Hr; cbn [fst snd] in *.
    + unfold writeConfigFile, logConfigUpdated, call in H. cbn [bind] in H.
      run_step H. destruct x as [[]|err]; run_all H.
      * destruct Hin as [Heq|[Heq|[]]]; [|discriminate].
        injection Heq as <- <-. cbn [store root].
        rewrite (Hnext next eq_refl). repeat split; auto. apply newValue_shift.
      * destruct Hin as [Heq|[]].
        injection Heq as <- <-. cbn [store root].
        rewrite (Hnext next eq_refl). repeat split; auto. apply newValue_shift.
    + run_all H. destruct Hin.
Qed.

(** *** The three modes of the command *)

Lemma applyBackend_runs cfg agentId backend tr out :
  exec observe (applyBackend cfg agentId backend) tr out ->
  match patchConfig normalizeAgentId (root cfg) agentId backend (store cfg) with
  | (Rejected err, _) => tr = [] /\ out = Rejected err
  | (Fulfilled nextConfig, h) =>
      let written := {| store := h; root := nextConfig |} in
      (tr = [OWriteConfigFile written (Fulfilled tt); OLogConfigUpdated]
       /\ out = Fulfilled tt)
      \/ exists err, tr = [OWriteConfigFile written (Rejected err)] /\ out = Rejected err
  end.
Proof.
  unfold applyBackend.
  destruct (patchConfig normalizeAgentId (root cfg) agentId backend (store cfg))
    as [[nextConfig|err] h]; intros H.
  - unfold writeConfigFile, logConfigUpdated, call in H. cbn [bind] in H. run_step H.
    destruct x as [[]|err]; run_all H; [left|right; exists err]; auto.
  - run_all H. auto.
Qed.

Definition unavailableWarning (backend : SandboxBackend) : string :=
  "Warning: " +:+ Js.quote +:+ backendName backend +:+ Js.quote
  +:+ " does not appear to be available on this system.".

(** What the availability probe leaves in a run: the probe, and the
    warning when it failed. *)
Definition availabilityCheck (backend : SandboxBackend) (available : Settled ExecOutput) :
    list Obs :=
  OExec (backendName backend) ["version"] 5000 available
  :: (if isFulfilled available then [] else [OLog (unavailableWarning backend)]).

Lemma warnUnlessAvailable_runs backend tr u :
  exec observe (warnUnlessAvailable backend) tr u ->
  exists available, tr = availabilityCheck backend available.
Proof.
  unfold warnUnlessAvailable, isBackendAvailable, when, runExec, runtime_log, call.
  cbn [bind]. intros H. run_step H. exists x. unfold availabilityCheck.
  destruct (isFulfilled x); cbn [negb] in H; run_all H; reflexivity.
Qed.

(** X18. With [--json] the command only reports: it loads the
    configuration and logs the backend in effect for the (normalized) agent
    as JSON, with [agentId] null when no agent was given.  Nothing is
    validated, probed, prompted or written, whatever [--set] says. *)
Theorem json_mode_only_reports
    (opts : SandboxBackendOptions) (tr : list Obs) (out : Settled unit) :
  json opts = true ->
  exec observe (sandboxBackendCommand opts) tr out ->
  exists cfg,
    tr = [OLoadConfig cfg;
          OLog (jsonReport (resolveSandboxBackend cfg (requestedAgent opts))
                  (requestedAgent opts))]
    /\ out = Fulfilled tt.
Proof.
  intros Hjson H. unfold sandboxBackendCommand, loadConfig, runtime_log, call in H.
  cbn [bind] in H. run_step H. rewrite Hjson in H. cbn [bind] in H. run_all H.
  eexists. split; reflexivity.
Qed.

(** A call of the non-interactive mode. *)
Definition isSetModeCall (o : Obs) : bool :=
  match o with
  | OLoadConfig _ | OError _ | OExit _ | OLog _ | OWriteConfigFile _ _
  | OLogConfigUpdated => true
  | OExec cmd [arg] timeoutMs _ =>
      existsb (fun b => String.eqb cmd (backendName b)) VALID_BACKENDS
      && String.eqb arg "version" && (timeoutMs =? 5000)
  | _ => false
  end.

Lemma validBackend_name requested backend :
  validBackend requested = Some backend -> requested = backendName backend.
Proof.
  unfold validBackend, VALID_BACKENDS. cbn [List.find backendName].
  destruct (String.eqb "docker" requested) eqn:Hd;
    [intros [= <-]; now apply String.eqb_eq in Hd|].
  destruct (String.eqb "podman" requested) eqn:Hp; [|discriminate].
  intros [= <-]. now apply String.eqb_eq in Hp.
Qed.

Lemma validBackend_of_name backend : validBackend (backendName backend) = Some backend.
Proof. now destruct backend. Qed.

Lemma setBackend_runs cfg agentId current requestedText tr out :
  exec observe (setBackend cfg agentId current requestedText) tr out ->
  match validBackend (Js.toLowerCase requestedText) with
  | None =>
      tr = [OError ("Invalid backend " +:+ Js.quote +:+ requestedText +:+ Js.quote
                    +:+ ". Valid options: docker, podman");
            OExit 1]
      /\ out = Fulfilled tt
  | Some backend =>
      if sameBackend backend current then
        tr = [OLog ("Backend is already set to " +:+ Js.quote +:+ backendName current
                    +:+ Js.quote +:+ ".")]
        /\ out = Fulfilled tt
      else
        exists available applied,
          tr = availabilityCheck backend available ++ applied
          /\ exec observe (applyBackend cfg agentId backend) applied out
  end.
Proof.
  unfold setBackend. cbv zeta.
  destruct (validBackend (Js.toLowerCase requestedText)) as [backend|] eqn:Hvalid.
  - apply validBackend_name in Hvalid. rewrite Hvalid. fold (sameBackend backend current).
    destruct (sameBackend backend current); intros H.
    + unfold runtime_log, call in H. cbn [bind] in H. run_all H. auto.
    + apply exec_bind in H as (warnTr & [] & applied & Hw & Ha & ->).
      apply warnUnlessAvailable_runs in Hw as (available & ->). eauto.
  - intros H. unfold runtime_error, runtime_exit, call in H. cbn [bind] in H.
    run_all H. auto.
Qed.

Lemma setBackend_calls cfg agentId current requestedText tr out :
  exec observe (setBackend cfg agentId current requestedText) tr out ->
  forallb isSetModeCall tr = true
  /\ (length (List.filter isExec tr) <= 1)%nat
  /\ (length (List.filter isWrite tr) <= 1)%nat.
Proof.
  intros H. apply setBackend_runs in H.
  destruct (validBackend (Js.toLowerCase requestedText)) as [backend|].
  - destruct (sameBackend backend _).
    + destruct H as [-> _]. repeat split; cbn; lia.
    + destruct H as (available & applied & -> & Ha).
      apply applyBackend_runs in Ha.
      assert (Happlied : forallb isSetModeCall applied = true
                         /\ List.filter isExec applied = []
                         /\ (length (List.filter isWrite applied) <= 1)%nat).
      { destruct (patchConfig _ _ _ _ _) as [[next|err] h].
        - destruct Ha as [[-> _]|(err & -> & _)]; repeat split; cbn; lia.
        - destruct Ha as [-> _]. repeat split; cbn; lia. }
      destruct Happlied as (Hcalls & Hexec & Hwrite).
      unfold availabilityCheck.
      destruct backend, (isFulfilled available); cbn [app forallb List.filter];
        cbn [isSetModeCall isExec isWrite existsb VALID_BACKENDS backendName];
        rewrite ?Hcalls, ?Hexec; repeat split; cbn; try lia; try reflexivity.
  - destruct H as [-> _]. repeat split; cbn; lia.
Qed.

(** X19. With [--set] (and without [--json]) the command asks nothing:
    every call of every run is the configuration load, a log or error
    line, the exit code, the probe [docker version] or [podman version]
    with a five second timeout, the configuration write or the update
    notice.  At most one probe is run and at most one write is made; the
    wizard is never run. *)
Theorem set_mode_is_not_interactive
    (opts : SandboxBackendOptions) (tr : list Obs) (out : Settled unit) :
  json opts = false ->
  Js.truthy (default "" (set opts)) = true ->
  exec observe (sandboxBackendCommand opts) tr out ->
  forallb isSetModeCall tr = true
  /\ (length (List.filter isExec tr) <= 1)%nat
  /\ (length (List.filter isWrite tr) <= 1)%nat.
Proof.
  intros Hjson Hset H. unfold sandboxBackendCommand, loadConfig, call in H.
  cbn [bind] in H. run_step H. rewrite Hjson, Hset in H.
  apply setBackend_calls in H as (Hcalls & Hexec & Hwrite).
  cbn [forallb List.filter isSetModeCall isExec isWrite andb]. auto.
Qed.

(** X20. Availability is advice only.  When [--set] names (up to case) a
    backend other than the one in effect, the command probes it, logs a
    warning when the probe fails, and applies the backend either way: what
    follows is exactly a run of [applyBackend] for the loaded
    configuration, the (normalized) agent and that backend, and its outcome
    is the command's. *)
Theorem set_mode_applies_whatever_availability
    (opts : SandboxBackendOptions) (requested : string) (backend : SandboxBackend)
    (cfg : Config) (rest : list Obs) (out : Settled unit) :
  json opts = false ->
  set opts = Some requested ->
  Js.toLowerCase requested = backendName backend ->
  backend <> resolveSandboxBackend cfg (requestedAgent opts) ->
  exec observe (sandboxBackendCommand opts) (OLoadConfig cfg :: rest) out ->
  exists available applied,
    rest = availabilityCheck backend available ++ applied
    /\ exec observe (applyBackend cfg (requestedAgent opts) backend) applied out.
Proof.
  intros Hjson Hset Hname Hother H.
  unfold sandboxBackendCommand, loadConfig, call in H. cbn [bind] in H.
  apply exec_vis_inv in H as (cfg' & rest' & Heq & H). injection Heq as <- <-.
  rewrite Hjson, Hset in H. cbn [from_option id] in H.
  assert (Htruthy : Js.truthy requested = true).
  { destruct requested; [destruct backend; discriminate|reflexivity]. }
  rewrite Htruthy in H. apply setBackend_runs in H.
  rewrite Hname, validBackend_of_name in H.
  destruct (sameBackend backend _) eqn:Hsame; [|exact H].
  exfalso. apply Hother. unfold sameBackend in Hsame. apply String.eqb_eq in Hsame.
  destruct backend, (resolveSandboxBackend cfg (requestedAgent opts));
    try reflexivity; discriminate.
Qed.

(** *** The interactive mode *)

Definition isBackendSelect (o : Obs) : bool :=
  match o with OSelectBackend _ _ _ _ => true | _ => false end.

(** A call only the wizard makes: a privileged command, or one of its
    prompts. *)
Definition isWizardCall (o : Obs) : bool :=
  isSudo o
  || match o with
     | OText _ _ _ _ _ | OConfirm _ _ _ | OSelectQuadlet _ _ _ _ => true
     | _ => false
     end.

Definition sessionStart (current : SandboxBackend) (selected : Prompted SandboxBackend) :
    list Obs :=
  [OIntro (titled "Sandbox backend");
   OLog ("Current backend: " +:+ backendName current);
   OSelectBackend (stylePromptMessage "Select container backend") backendOptions
     current selected].

Definition switchedTo (backend : SandboxBackend) : Obs :=
  OOutro (titled ("Backend set to " +:+ backendName backend +:+ ".")).

(** The runs of the interactive mode, by the answer at the prompt and,
    for a backend other than the one in effect, by the outcome of
    [applyBackend]. *)
Lemma chooseBackend_runs cfg agentId current tr out :
  exec observe (chooseBackend cfg agentId current) tr out ->
  exists selected rest,
    tr = sessionStart current selected ++ rest
    /\ match selected with
       | CancelSymbol => rest = [OCancel "Cancelled."] /\ out = Fulfilled tt
       | Entered backend =>
           if sameBackend backend current then
             rest = [OOutro (titled ("Backend unchanged (" +:+ backendName current
                                     +:+ ")."))]
             /\ out = Fulfilled tt
           else
             exists available applyTr applied,
               exec observe (applyBackend cfg agentId backend) applyTr applied
               /\ match applied with
                  | Rejected err =>
                      rest = availabilityCheck backend available ++ applyTr
                      /\ out = Rejected err
                  | Fulfilled _ =>
                      exists wizardTr,
                        (if sameBackend backend podman then
                           exists setupTr,
                             wizardTr = OLog "" :: setupTr
                             /\ exec observe (runPodmanSetup stylePromptMessage)
                                  setupTr tt
                         else wizardTr = [])
                        /\ rest = availabilityCheck backend available ++ applyTr
                                  ++ wizardTr ++ [switchedTo backend]
                        /\ out = Fulfilled tt
                  end
       end.
Proof.
  intros H. unfold chooseBackend, clackIntro, runtime_log, cancel, clackOutro, call in H.
  cbn [bind] in H. do 3 run_step H. exists x1. destruct x1 as [backend|].
  - destruct (sameBackend backend current).
    + run_all H. eexists. split; [reflexivity|auto].
    + apply exec_bind in H as (warnTr & [] & tr2 & Hw & H & ->).
      apply warnUnlessAvailable_runs in Hw as (available & ->).
      apply exec_bind in H as (applyTr & applied & tr3 & Ha & H & ->).
      eexists. split; [reflexivity|]. exists available, applyTr, applied.
      split; [exact Ha|]. destruct applied as [[]|err].
      * apply exec_bind in H as (wizardTr & [] & tr4 & Hwiz & H & ->).
        run_all H. exists wizardTr. split; [|split; reflexivity].
        unfold when in Hwiz. destruct (sameBackend backend podman).
        -- unfold runtime_log, call in Hwiz. cbn [bind] in Hwiz.
           apply exec_vis_inv in Hwiz as ([] & setupTr & -> & Hwiz).
           exists setupTr. split; [reflexivity|exact Hwiz].
        -- now run_all Hwiz.
      * run_all H. rewrite app_nil_r. auto.
  - run_all H. eexists. split; [reflexivity|auto].
Qed.

Lemma applyBackend_fulfilled cfg agentId backend tr u :
  exec observe (applyBackend cfg agentId backend) tr (Fulfilled u) ->
  exists written, tr = [OWriteConfigFile written (Fulfilled tt); OLogConfigUpdated].
Proof.
  intros H. apply applyBackend_runs in H.
  destruct (patchConfig _ _ _ _ _) as [[next|err] h].
  - destruct H as [[-> _]|(err & _ & Hout)]; [eauto|discriminate].
  - destruct H as [_ Hout]. discriminate.
Qed.

Lemma applyBackend_rejected cfg agentId backend tr err :
  exec observe (applyBackend cfg agentId backend) tr (Rejected err) ->
  tr = [] \/ exists written, tr = [OWriteConfigFile written (Rejected err)].
Proof.
  intros H. apply applyBackend_runs in H.
  destruct (patchConfig _ _ _ _ _) as [[next|err'] h].
  - destruct H as [[_ Hout]|(err' & -> & Hout)]; [discriminate|].
    injection Hout as ->. eauto.
  - destruct H as [-> _]. auto.
Qed.

Lemma sameBackend_eq a b : sameBackend a b = true -> a = b.
Proof. destruct a, b; (reflexivity || discriminate). Qed.

Lemma setModeCall_plain o :
  isSetModeCall o = true -> isWizardCall o = false /\ isBackendSelect o = false.
Proof.
  destruct o; try discriminate; try (split; reflexivity).
  cbn [isSetModeCall]. destruct args as [|arg [|]]; try discriminate.
  unfold VALID_BACKENDS. cbn [existsb backendName]. intros H.
  apply andb_prop in H as [H _]. apply andb_prop in H as [H _].
  split; [|reflexivity]. unfold isWizardCall, isSudo. rewrite orb_false_r.
  rewrite orb_false_r in H. apply orb_prop in H as [H|H];
    apply String.eqb_eq in H; subst cmd; reflexivity.
Qed.

(** The runs of the command, mode by mode. *)
Lemma sandboxBackendCommand_runs opts tr out :
  exec observe (sandboxBackendCommand opts) tr out ->
  exists cfg rest,
    tr = OLoadConfig cfg :: rest
    /\ let agentId := requestedAgent opts in
       let current := resolveSandboxBackend cfg agentId in
       if json opts then
         rest = [OLog (jsonReport current agentId)] /\ out = Fulfilled tt
       else if Js.truthy (default "" (set opts)) then
         exec observe (setBackend cfg agentId current (default "" (set opts))) rest out
       else exec observe (chooseBackend cfg agentId current) rest out.
Proof.
  intros H. unfold sandboxBackendCommand, loadConfig, runtime_log, call in H.
  cbn [bind] in H. run_step H. eexists _, _. split; [reflexivity|]. cbv zeta.
  destruct (json opts); [cbn [bind] in H; run_all H; auto|].
  destruct (Js.truthy (default "" (set opts))); exact H.
Qed.

(** Where a call of the wizard stands in a run of the command. *)
Lemma wizard_call_position opts tr out pre o post :
  exec observe (sandboxBackendCommand opts) tr out ->
  tr = pre ++ o :: post ->
  isWizardCall o = true ->
  exists head setupPre setupPost written message options current,
    pre = head ++ OLog "" :: setupPre
    /\ In (OSelectBackend message options current (Entered podman)) head
    /\ In (OWriteConfigFile written (Fulfilled tt)) head
    /\ exec observe (runPodmanSetup stylePromptMessage) (setupPre ++ o :: setupPost) tt
    /\ post = setupPost ++ [switchedTo podman]
    /\ out = Fulfilled tt.
Proof.
  intros H Htr Ho. apply sandboxBackendCommand_runs in H as (cfg & rest & -> & H).
  cbv zeta in H. destruct (json opts).
  { destruct H as [-> _]. exfalso.
    now apply (occurs_nowhere isWizardCall _ _ _ _ Htr). }
  destruct (Js.truthy (default "" (set opts))).
  { apply setBackend_calls in H as (Hcalls & _). exfalso.
    apply (occurs_nowhere isWizardCall _ _ _ _ Htr); [|exact Ho].
    cbn [existsb]. apply (none_of isSetModeCall); [|exact Hcalls].
    intros o' Ho'. now apply setModeCall_plain. }
  apply chooseBackend_runs in H as (selected & rest' & -> & H).
  destruct selected as [backend|].
  2:{ destruct H as [-> _]. exfalso.
      now apply (occurs_nowhere isWizardCall _ _ _ _ Htr). }
  destruct (sameBackend backend _).
  { destruct H as [-> _]. exfalso.
    now apply (occurs_nowhere isWizardCall _ _ _ _ Htr). }
  destruct H as (available & applyTr & applied & Ha & H).
  assert (Hcheck : existsb isWizardCall (availabilityCheck backend available) = false).
  { unfold availabilityCheck. now destruct backend, (isFulfilled available). }
  destruct applied as [u|err].
  - apply applyBackend_fulfilled in Ha as (written & ->).
    destruct H as (wizardTr & Hwiz & -> & ->).
    destruct (sameBackend backend podman) eqn:Hpodman.
    + apply sameBackend_eq in Hpodman. subst backend.
      destruct Hwiz as (setupTr & -> & Hsetup).
      set (head := OLoadConfig cfg
                   :: sessionStart (resolveSandboxBackend cfg (requestedAgent opts))
                        (Entered podman)
                   ++ availabilityCheck podman available
                   ++ [OWriteConfigFile written (Fulfilled tt); OLogConfigUpdated]).
      assert (Heq : (head ++ [OLog ""]) ++ (setupTr ++ [switchedTo podman])
                    = pre ++ o :: post).
      { rewrite <- Htr. subst head. cbn [app]. f_equal.
        rewrite <- !app_assoc. reflexivity. }
      apply (occurs_past isWizardCall) in Heq as (pre' & -> & Heq); [|clear Heq|exact Ho].
      2:{ subst head. cbn [existsb app sessionStart].
          rewrite !existsb_app, Hcheck. reflexivity. }
      apply (occurs_before isWizardCall) in Heq as (post' & -> & ->);
        [|reflexivity|exact Ho].
      exists head, pre', post', written. eexists _, _, _.
      rewrite <- app_assoc. split; [reflexivity|]. split; [|split; [|auto]].
      * subst head. right. right. right. now left.
      * subst head. right. apply in_or_app. right. apply in_or_app. right. now left.
    + subst wizardTr. exfalso.
      apply (occurs_nowhere isWizardCall _ _ _ _ Htr); [|exact Ho].
      cbn [existsb app sessionStart]. rewrite !existsb_app, Hcheck. reflexivity.
  - destruct H as [-> _]. exfalso.
    apply (occurs_nowhere isWizardCall _ _ _ _ Htr); [|exact Ho].
    cbn [existsb app sessionStart]. rewrite !existsb_app, Hcheck.
    apply applyBackend_rejected in Ha as [->|(written & ->)]; reflexivity.
Qed.

(** X21. The wizard comes after the switch.  A privileged command or a
    wizard prompt occurs in a run of the command only after [podman] was
    picked at the backend prompt and the configuration was written
    successfully; with [--json] or [--set], or when [docker] is picked,
    it never occurs. *)
Theorem wizard_runs_only_after_switch
    (opts : SandboxBackendOptions) (tr : list Obs) (out : Settled unit)
    (pre post : list Obs) (o : Obs) :
  exec observe (sandboxBackendCommand opts) tr out ->
  tr = pre ++ o :: post ->
  isWizardCall o = true ->
  exists message options current written,
    In (OSelectBackend message options current (Entered podman)) pre
    /\ In (OWriteConfigFile written (Fulfilled tt)) pre.
Proof.
  intros H Htr Ho.
  destruct (wizard_call_position opts tr out pre o post H Htr Ho)
    as (head & setupPre & setupPost & written & message & options & current
        & -> & Hsel & Hwrite & _).
  exists message, options, current, written.
  split; apply in_or_app; now left.
Qed.

Lemma commandCall_select o : isBackendSelect o = true -> isCommandCall o = true.
Proof. destruct o; (reflexivity || discriminate). Qed.

Lemma commandCall_write o : isWrite o = true -> isCommandCall o = true.
Proof. destruct o; (reflexivity || discriminate). Qed.

Lemma setup_none (t : Obs -> bool) setupTr u :
  (forall o, t o = true -> isCommandCall o = true) ->
  exec observe (runPodmanSetup stylePromptMessage) setupTr u ->
  existsb t setupTr = false.
Proof.
  intros Ht H. apply (quiet_none observe t _ _ _) in H; [exact H|].
  apply (quiet_weaken observe t isCommandCall); [exact Ht|].
  apply quiet_runPodmanSetup_command.
Qed.

(** After the backend prompt nothing asks for the backend again. *)
Lemma chooseBackend_one_select cfg agentId current selected rest out :
  exec observe (chooseBackend cfg agentId current) (sessionStart current selected ++ rest)
    out ->
  existsb isBackendSelect rest = false.
Proof.
  intros H. apply chooseBackend_runs in H as (selected' & rest' & Heq & H).
  cbn [sessionStart app] in Heq. injection Heq as <- <-.
  destruct selected as [backend|]; [|now destruct H as [-> _]].
  destruct (sameBackend backend current); [now destruct H as [-> _]|].
  destruct H as (available & applyTr & applied & Ha & H).
  assert (Hcheck : existsb isBackendSelect (availabilityCheck backend available) = false).
  { unfold availabilityCheck. now destruct (isFulfilled available). }
  destruct applied as [u|err].
  - apply applyBackend_fulfilled in Ha as (written & ->).
    destruct H as (wizardTr & Hwiz & -> & _).
    rewrite !existsb_app, Hcheck. cbn [existsb isBackendSelect switchedTo orb].
    rewrite orb_false_r.
    destruct (sameBackend backend podman); [|now subst].
    destruct Hwiz as (setupTr & -> & Hsetup). cbn [existsb isBackendSelect orb].
    apply (setup_none isBackendSelect setupTr tt commandCall_select Hsetup).
  - destruct H as [-> _]. rewrite existsb_app, Hcheck.
    apply applyBackend_rejected in Ha as [->|(written & ->)]; reflexivity.
Qed.

(** X22. Leaving a prompt ends the session, but not always the switch.
    A cancelled backend prompt is followed by the notice [Cancelled.]
    alone, and nothing has been written.  A cancelled wizard prompt is
    followed by the notice and then by the closing line [Backend set to
    podman.]: by then the configuration has been written, and it stays
    written.  Either way the command completes without error. *)
Theorem cancelled_prompt_ends_session
    (opts : SandboxBackendOptions) (tr : list Obs) (out : Settled unit)
    (pre post : list Obs) (o : Obs) :
  exec observe (sandboxBackendCommand opts) tr out ->
  tr = pre ++ o :: post ->
  cancelledPrompt o = true ->
  out = Fulfilled tt
  /\ if isBackendSelect o then
       post = [OCancel "Cancelled."] /\ existsb isWrite tr = false
     else
       post = [OCancel "Cancelled."; switchedTo podman]
       /\ exists written, In (OWriteConfigFile written (Fulfilled tt)) pre.
Proof.
  intros H Htr Ho. destruct (isBackendSelect o) eqn:Hsel.
  - pose proof H as Hruns.
    apply sandboxBackendCommand_runs in Hruns as (cfg & rest & -> & Hruns).
    cbv zeta in Hruns. destruct (json opts).
    { destruct Hruns as [-> _]. exfalso.
      now apply (occurs_nowhere isBackendSelect _ _ _ _ Htr). }
    destruct (Js.truthy (default "" (set opts))).
    { apply setBackend_calls in Hruns as (Hcalls & _). exfalso.
      apply (occurs_nowhere isBackendSelect _ _ _ _ Htr); [|exact Hsel].
      cbn [existsb isBackendSelect orb]. apply (none_of isSetModeCall); [|exact Hcalls].
      intros o' Ho'. now apply setModeCall_plain. }
    pose proof Hruns as Hshape.
    apply chooseBackend_runs in Hshape as (selected & rest' & -> & Hshape).
    apply chooseBackend_one_select in Hruns.
    set (current := resolveSandboxBackend cfg (requestedAgent opts)) in *.
    assert (Heq : [OLoadConfig cfg; OIntro (titled "Sandbox backend");
                   OLog ("Current backend: " +:+ backendName current)]
                  ++ (OSelectBackend (stylePromptMessage "Select container backend")
                        backendOptions current selected :: rest')
                  = pre ++ o :: post) by exact Htr.
    apply (occurs_past isBackendSelect) in Heq as (pre' & -> & Heq);
      [|reflexivity|exact Hsel].
    destruct pre' as [|y pre']; cbn [app] in Heq; injection Heq as Hy Heq.
    + subst o post. destruct selected as [backend|]; [discriminate|].
      destruct Hshape as [-> ->]. auto.
    + exfalso. now apply (occurs_nowhere isBackendSelect _ _ _ _ Heq).
  - assert (Hwizard : isWizardCall o = true).
    { destruct o; try discriminate; try reflexivity. }
    destruct (wizard_call_position opts tr out pre o post H Htr Hwizard)
      as (head & setupPre & setupPost & written & message & options & current
          & -> & _ & Hwrite & Hsetup & -> & ->).
    pose proof (cancel_runPodmanSetup stylePromptMessage _ _ Hsetup setupPre o setupPost
                  eq_refl Ho) as ->.
    split; [reflexivity|]. split; [reflexivity|].
    exists written. apply in_or_app. now left.
Qed.

(** X23. A failed write fails the command.  When the configuration write
    is rejected, in either mode, the command is rejected with that error
    and the rejected write is its last call: the update is not announced,
    the wizard does not start and the session is not closed with a
    [Backend set] line. *)
Theorem failed_write_ends_command
    (opts : SandboxBackendOptions) (tr : list Obs) (out : Settled unit)
    (written : Config) (err : string) :
  exec observe (sandboxBackendCommand opts) tr out ->
  In (OWriteConfigFile written (Rejected err)) tr ->
  out = Rejected err
  /\ last tr = Some (OWriteConfigFile written (Rejected err)).
Proof.
  intros H Hin. apply sandboxBackendCommand_runs in H as (cfg & rest & -> & H).
  cbv zeta in H. destruct Hin as [Hin|Hin]; [discriminate|].
  assert (Happly : forall backend available applyTr applied,
            exec observe (applyBackend cfg (requestedAgent opts) backend) applyTr applied ->
            In (OWriteConfigFile written (Rejected err))
              (availabilityCheck backend available ++ applyTr) ->
            applied = Rejected err
            /\ last (availabilityCheck backend available ++ applyTr)
               = Some (OWriteConfigFile written (Rejected err))).
  { intros backend available applyTr applied Ha Hin'.
    apply in_app_or in Hin' as [Hin'|Hin'].
    { exfalso. unfold availabilityCheck in Hin'.
      destruct (isFulfilled available); cbn [In] in Hin'; intuition discriminate. }
    destruct applied as [u|err'].
    - apply applyBackend_fulfilled in Ha as (w & ->).
      destruct Hin' as [Hin'|[Hin'|[]]]; discriminate.
    - apply applyBackend_rejected in Ha as [->|(w & ->)]; [destruct Hin'|].
      destruct Hin' as [Hin'|[]]. injection Hin' as -> ->.
      split; [reflexivity|]. apply last_snoc. }
  assert (Hlast : forall (x : Obs) l y, last l = Some y -> last (x :: l) = Some y).
  { intros x l y Hl. destruct l; [discriminate|exact Hl]. }
  destruct (json opts).
  { destruct H as [-> _]. destruct Hin as [Hin|[]]. discriminate. }
  destruct (Js.truthy (default "" (set opts))).
  { apply setBackend_runs in H.
    destruct (validBackend _) as [backend|].
    - destruct (sameBackend backend _).
      + destruct H as [-> _]. destruct Hin as [Hin|[]]. discriminate.
      + destruct H as (available & applied & -> & Ha).
        destruct (Happly _ _ _ _ Ha Hin) as [-> Hl]. auto.
    - destruct H as [-> _]. destruct Hin as [Hin|[Hin|[]]]; discriminate. }
  apply chooseBackend_runs in H as (selected & rest' & -> & H).
  cbn [sessionStart app] in Hin. destruct Hin as [Hin|[Hin|[Hin|Hin]]]; try discriminate.
  destruct selected as [backend|].
  2:{ destruct H as [-> _]. destruct Hin as [Hin|[]]. discriminate. }
  destruct (sameBackend backend _).
  { destruct H as [-> _]. destruct Hin as [Hin|[]]. discriminate. }
  destruct H as (available & applyTr & applied & Ha & H).
  destruct applied as [u|err'].
  - exfalso. destruct H as (wizardTr & Hwiz & -> & _).
    pose proof Ha as Hshape. apply applyBackend_fulfilled in Hshape as (w & ->).
    rewrite !app_assoc in Hin. apply in_app_or in Hin as [Hin|Hin];
      [|destruct Hin as [Hin|[]]; discriminate].
    apply in_app_or in Hin as [Hin|Hin].
    + destruct (Happly _ _ _ _ Ha Hin) as [Hout _]. discriminate.
    + assert (Hnone : existsb isWrite wizardTr = false).
      { destruct (sameBackend backend podman); [|now subst].
        destruct Hwiz as (setupTr & -> & Hsetup). cbn [existsb isWrite orb].
        apply (setup_none isWrite setupTr tt commandCall_write Hsetup). }
      assert (Hsome : existsb isWrite wizardTr = true).
      { apply existsb_exists. eexists. split; [exact Hin|reflexivity]. }
      congruence.
  - destruct H as [-> ->]. destruct (Happly _ _ _ _ Ha Hin) as [Herr Hl].
    injection Herr as ->. split; [reflexivity|].
    cbn [sessionStart app]. now do 4 apply Hlast.
Qed.

(** *** What is written: the global default, an existing agent entry *)



Lemma patchConfig_run cfg agentId backend (h : heap) h' :
  (if Js.truthy (default "" agentId)
   then patchAgent normalizeAgentId (shift (length h) cfg) (default "" agentId) backend
   else patchDefaults (shift (length h) cfg) backend)
    (h ++ (shiftObject (length h) <$> h)) = (Fulfilled tt, h') ->
  patchConfig normalizeAgentId cfg agentId backend h
  = (Fulfilled (shift (length h) cfg), h').
Proof.
  intros Hrun. unfold patchConfig. unfold mbind at 1. cbn [structuredClone].
  unfold mbind. now rewrite Hrun.
Qed.


(** What the written configuration holds after a per-agent apply for an
    agent that has an entry: the list is the copy of the caller's, entry
    for entry; the first entry with the agent id carries the backend under
    [sandbox.backend], the other settings of its sandbox being the
    caller's, and its [sandbox] is the copy of the caller's object when
    there was one.  Every other property of every object, the sandbox
    settings of the other entries and of the defaults included, and every
    element of every array is the copy of the caller's. *)
Definition agentEntryUpdated (cfg : Config) (agentId : string) (backend : SandboxBackend)
    (written : Config) : Prop :=
  let n := length (store cfg) in
  let h := store written in
  root written = shift n (root cfg)
  /\ agentList h (root written) = map (shift n) (agentList (store cfg) (root cfg))
  /\ (exists e,
        entryOf normalizeAgentId (store cfg) agentId (agentList (store cfg) (root cfg))
        = Some e
        /\ readProp h (readProp h (shift n e) "sandbox") "backend"
           = VString (backendName backend)
        /\ (forall key, key <> "backend" ->
              readProp h (readProp h (shift n e) "sandbox") key
              = shift n (readProp (store cfg) (readProp (store cfg) e "sandbox") key))
        /\ (nullish (readProp (store cfg) e "sandbox") = false ->
            readProp h (shift n e) "sandbox"
            = shift n (readProp (store cfg) e "sandbox"))
        /\ (forall v key,
              ~ (shift n v = shift n e /\ key = "sandbox") ->
              ~ (shift n v = readProp h (shift n e) "sandbox" /\ key = "backend") ->
              readProp h (shift n v) key = shift n (readProp (store cfg) v key)))
  /\ (forall v, readElems h (shift n v) = map (shift n) (readElems (store cfg) v)).

(** X25. For a well-typed configuration whose agent list has an entry
    with the (normalized, non-empty) agent id, the [sandbox] of that entry
    being an object when it is there, [applyBackend] adds no entry: the
    first such entry is the one that gets the backend, its sandbox object
    and the other settings of that sandbox are kept, and the list, every
    element of every array and every other property of every object, the
    sandbox settings of the other entries included, are the copies of the
    caller's. *)
Theorem applyBackend_updates_existing_entry
    (cfg : Config) (agentId : string) (backend : SandboxBackend)
    (tr : list Obs) (out : Settled unit) :
  wellTyped (store cfg) (root cfg) = true ->
  sandboxTyped normalizeAgentId (store cfg) (root cfg) agentId = true ->
  Js.truthy agentId = true ->
  absent normalizeAgentId (store cfg) (root cfg) agentId = false ->
  exec observe (applyBackend cfg (Some agentId) backend) tr out ->
  exists written w rest,
    tr = OWriteConfigFile written w :: rest
    /\ agentEntryUpdated cfg agentId backend written.
Proof.
  intros Hwt Htyped Htruthy Hpresent H.
  destruct (absent_entryOf normalizeAgentId _ _ _ Hpresent) as (e & Hentry).
  pose proof (readElems_objects _ _ Hwt) as Hobjs.
  assert (Hentry' : entryOf normalizeAgentId
                      (store cfg ++ (shiftObject (length (store cfg)) <$> store cfg))
                      agentId
                      (agentList
                         (store cfg ++ (shiftObject (length (store cfg)) <$> store cfg))
                         (shift (length (store cfg)) (root cfg)))
                    = Some (shift (length (store cfg)) e)).
  { rewrite agentList_clone, entryOf_clone by exact Hobjs. now rewrite Hentry. }
  destruct (patchAgent_existing normalizeAgentId _ _ agentId backend _
              (wellTyped_clone _ _ Hwt) (sandboxTyped_clone normalizeAgentId _ _ _ Hwt Htyped)
              Hentry')
    as (h' & Hrun & Hlist & Hbackend & Hkept & Hother & Helems & Hslot).
  rewrite readProp_clone, nullish_shift in Hslot.
  assert (Hpatch : patchConfig normalizeAgentId (root cfg) (Some agentId) backend (store cfg)
                   = (Fulfilled (shift (length (store cfg)) (root cfg)), h')).
  { apply patchConfig_run. cbn [from_option id]. now rewrite Htruthy. }
  unfold applyBackend in H. rewrite Hpatch in H.
  unfold writeConfigFile, call in H. cbn [bind] in H. run_step H.
  eexists _, _, _. split; [reflexivity|].
  unfold agentEntryUpdated. cbn [store root]. split; [reflexivity|].
  split; [|split].
  - rewrite Hlist. apply agentList_clone.
  - exists e. split; [exact Hentry|]. split; [exact Hbackend|].
    split; [|split].
    + intros key Hk. rewrite (Hkept key Hk). now rewrite !readProp_clone.
    + exact Hslot.
    + intros v key Hn1 Hn2. rewrite (Hother _ key Hn1 Hn2). apply readProp_clone.
  - intros v. rewrite Helems. apply readElems_clone.
Qed.

(** *** Applying again *)

(** A lookup of the agent in the configuration, the way [applyBackend]
    looks it up, finds an entry whose [sandbox.backend] is the backend. *)
Definition agentBackendSet (cfg : Config) (agentId : string) (backend : SandboxBackend) :
    Prop :=
  exists e,
    entryOf normalizeAgentId (store cfg) agentId (agentList (store cfg) (root cfg)) = Some e
    /\ readProp (store cfg) (readProp (store cfg) e "sandbox") "backend"
       = VString (backendName backend).

Lemma applyBackend_typed
    (cfg : Config) (agentId : string) (backend : SandboxBackend)
    (tr : list Obs) (out : Settled unit) :
  wellTyped (store cfg) (root cfg) = true ->
  sandboxTyped normalizeAgentId (store cfg) (root cfg) agentId = true ->
  Js.truthy agentId = true ->
  normalizeAgentId agentId = agentId ->
  exec observe (applyBackend cfg (Some agentId) backend) tr out ->
  exists written w rest,
    tr = OWriteConfigFile written w :: rest
    /\ wellTyped (store written) (root written) = true
    /\ sandboxTyped normalizeAgentId (store written) (root written) agentId = true
    /\ agentBackendSet written agentId backend
    /\ length (agentList (store written) (root written))
       = (length (agentList (store cfg) (root cfg))
          + (if absent normalizeAgentId (store cfg) (root cfg) agentId then 1 else 0))%nat.
Proof.
  intros Hwt Htyped Htruthy Hnorm H.
  destruct (patchAgent_typed normalizeAgentId _ _ agentId backend
              (wellTyped_clone _ _ Hwt)
              (sandboxTyped_clone normalizeAgentId _ _ _ Hwt Htyped) Hnorm)
    as (h' & e & Hrun & Hwt' & Hentry & Hsobj & Hbackend & Hlen).
  assert (Hpatch : patchConfig normalizeAgentId (root cfg) (Some agentId) backend (store cfg)
                   = (Fulfilled (shift (length (store cfg)) (root cfg)), h')).
  { apply patchConfig_run. cbn [from_option id]. now rewrite Htruthy. }
  unfold applyBackend in H. rewrite Hpatch in H.
  unfold writeConfigFile, call in H. cbn [bind] in H. run_step H.
  eexists _, _, _. split; [reflexivity|]. cbn [store root].
  split; [exact Hwt'|]. split; [|split].
  - unfold sandboxTyped. rewrite Hentry. unfold optionalObject. rewrite Hsobj.
    apply orb_true_r.
  - exists e. auto.
  - rewrite Hlen, agentList_clone, length_map.
    now rewrite (absent_clone normalizeAgentId _ _ _ Hwt).
Qed.

(** X29. What [applyBackend] writes for an agent can be applied to
    again, and reads back: for a well-typed configuration and an agent id
    that is its own normal form, the written configuration is well-typed,
    the agent's entry carries an object under [sandbox], and looking the
    agent up in it finds an entry whose [sandbox.backend] is the requested
    backend, whether the entry was there or was added. *)
Theorem applyBackend_entry_reads_back
    (cfg : Config) (agentId : string) (backend : SandboxBackend)
    (tr : list Obs) (out : Settled unit) :
  wellTyped (store cfg) (root cfg) = true ->
  sandboxTyped normalizeAgentId (store cfg) (root cfg) agentId = true ->
  Js.truthy agentId = true ->
  normalizeAgentId agentId = agentId ->
  exec observe (applyBackend cfg (Some agentId) backend) tr out ->
  exists written w rest,
    tr = OWriteConfigFile written w :: rest
    /\ wellTyped (store written) (root written) = true
    /\ sandboxTyped normalizeAgentId (store written) (root written) agentId = true
    /\ agentBackendSet written agentId backend.
Proof.
  intros Hwt Htyped Htruthy Hnorm H.
  destruct (applyBackend_typed cfg agentId backend tr out Hwt Htyped Htruthy Hnorm H)
    as (written & w & rest & Htr & Hwt' & Htyped' & Hset & _).
  exists written, w, rest. auto.
Qed.

(** X30. Applying twice adds one entry at most: when [applyBackend] is
    run for an agent on the configuration an earlier [applyBackend] for the
    same agent has written, it adds no entry, the agent list it writes has
    the length of the one it was given, and the agent reads back with the
    backend of the second run. *)
Theorem applyBackend_again_adds_no_entry
    (cfg written : Config) (agentId : string) (first second : SandboxBackend)
    (tr1 tr2 rest1 : list Obs) (out1 out2 w1 : Settled unit) :
  wellTyped (store cfg) (root cfg) = true ->
  sandboxTyped normalizeAgentId (store cfg) (root cfg) agentId = true ->
  Js.truthy agentId = true ->
  normalizeAgentId agentId = agentId ->
  exec observe (applyBackend cfg (Some agentId) first) tr1 out1 ->
  tr1 = OWriteConfigFile written w1 :: rest1 ->
  exec observe (applyBackend written (Some agentId) second) tr2 out2 ->
  exists again w2 rest2,
    tr2 = OWriteConfigFile again w2 :: rest2
    /\ length (agentList (store again) (root again))
       = length (agentList (store written) (root written))
    /\ agentBackendSet again agentId second.
Proof.
  intros Hwt Htyped Htruthy Hnorm H1 Htr1 H2.
  destruct (applyBackend_typed cfg agentId first tr1 out1 Hwt Htyped Htruthy Hnorm H1)
    as (written' & w' & rest' & Htr' & Hwt' & Htyped' & (e & Hentry & _) & _).
  assert (written' = written) by congruence. subst written'.
  destruct (applyBackend_typed written agentId second tr2 out2 Hwt' Htyped' Htruthy Hnorm H2)
    as (again & w2 & rest2 & Htr2 & _ & _ & Hset & Hlen).
  exists again, w2, rest2. split; [exact Htr2|]. split; [|exact Hset].
  rewrite Hlen, (absent_entryOf_none normalizeAgentId), Hentry. lia.
Qed.

(** *** An ill-typed configuration *)

Definition isPrimitive (v : value) : bool :=
  match v with VBool _ | VNumber _ | VString _ => true | _ => false end.

(** X26. When [agents] of the loaded configuration is a boolean, a
    number or a string, [applyBackend] throws before the write, on either
    path: it is rejected, nothing is written and nothing is announced. *)
Theorem applyBackend_rejects_primitive_agents
    (cfg : Config) (agentId : option string) (backend : SandboxBackend)
    (tr : list Obs) (out : Settled unit) :
  isObject (store cfg) (root cfg) = true ->
  isPrimitive (readProp (store cfg) (root cfg) "agents") = true ->
  exec observe (applyBackend cfg agentId backend) tr out ->
  tr = [] /\ exists err, out = Rejected err.
Proof.
  intros Hroot Hprim H.
  apply isObject_ref in Hroot as (r & rps & Hr & Hro).
  set (n := length (store cfg)) in *.
  set (H1 := store cfg ++ (shiftObject n <$> store cfg)).
  assert (Hr1 : H1 !! (r + n)%nat = Some (shiftObject n {| props := rps; elems := None |})).
  { subst H1 n. now rewrite clone_lookup, Hro. }
  assert (Hagents : default VUndefined
                      (assoc "agents"
                         (props (shiftObject n {| props := rps; elems := None |})))
                    = readProp (store cfg) (root cfg) "agents").
  { rewrite Hr, (readProp_ref _ r _ "agents" Hro). cbn [shiftObject props].
    rewrite assoc_shift, default_shift.
    rewrite Hr, (readProp_ref _ r _ "agents" Hro) in Hprim. cbn [props] in Hprim.
    now destruct (default VUndefined (assoc "agents" rps)). }
  assert (Hpatch : exists err h',
            patchConfig normalizeAgentId (root cfg) agentId backend (store cfg)
            = (Rejected err, h')).
  { unfold patchConfig. unfold mbind at 1. cbn [structuredClone]. fold n. fold H1.
    rewrite Hr. cbn [shift].
    destruct (Js.truthy (default "" agentId)); unfold mbind at 1;
      [unfold patchAgent|unfold patchDefaults];
      rewrite (ensure_child H1 (r + n) _ "agents" emptyObject _ Hr1); cbv zeta;
      rewrite Hagents;
      destruct (readProp (store cfg) (root cfg) "agents"); try discriminate;
      cbn [nullish]; unfold mbind at 1; cbn [getProp mret]; unfold mbind at 1;
      cbn [orNew nullish mret alloc]; unfold mbind at 1; cbn [setProp]; eauto. }
  destruct Hpatch as (err & h' & Hpatch).
  unfold applyBackend in H. rewrite Hpatch in H. run_all H. eauto.
Qed.

End Command.

(** ** A scripted host, for running the command on examples *)

Record Script := {
  s_platform : string;
  s_username : string;
  s_homedir : string;
  s_exec : string -> list string -> Settled ExecOutput;
  s_texts : list (Prompted string);
  s_confirms : list (Prompted bool);
  s_quadlet : list (Prompted QuadletChoice);
  s_backend : list (Prompted SandboxBackend);
  s_config : Config;
  s_write : Settled unit
}.

Definition nextText (w : Script) : Prompted string * Script :=
  (hd (Entered "") (s_texts w),
   {| s_platform := s_platform w; s_username := s_username w; s_homedir := s_homedir w;
      s_exec := s_exec w; s_texts := tl (s_texts w); s_confirms := s_confirms w;
      s_quadlet := s_quadlet w; s_backend := s_backend w; s_config := s_config w;
      s_write := s_write w |}).

Definition nextConfirm (w : Script) : Prompted bool * Script :=
  (hd (Entered false) (s_confirms w),
   {| s_platform := s_platform w; s_username := s_username w; s_homedir := s_homedir w;
      s_exec := s_exec w; s_texts := s_texts w; s_confirms := tl (s_confirms w);
      s_quadlet := s_quadlet w; s_backend := s_backend w; s_config := s_config w;
      s_write := s_write w |}).

Definition nextQuadlet (w : Script) : Prompted QuadletChoice * Script :=
  (hd (Entered skip) (s_quadlet w),
   {| s_platform := s_platform w; s_username := s_username w; s_homedir := s_homedir w;
      s_exec := s_exec w; s_texts := s_texts w; s_confirms := s_confirms w;
      s_quadlet := tl (s_quadlet w); s_backend := s_backend w; s_config := s_config w;
      s_write := s_write w |}).

Definition nextBackend (w : Script) : Prompted SandboxBackend * Script :=
  (hd CancelSymbol (s_backend w),
   {| s_platform := s_platform w; s_username := s_username w; s_homedir := s_homedir w;
      s_exec := s_exec w; s_texts := s_texts w; s_confirms := s_confirms w;
      s_quadlet := s_quadlet w; s_backend := tl (s_backend w); s_config := s_config w;
      s_write := s_write w |}).

Definition scripted : Handler Eff Script :=
  fun X (e : Eff X) =>
    match e in Eff X return Script -> X * Script with
    | OsPlatform => fun w => (s_platform w, w)
    | OsUsername => fun w => (s_username w, w)
    | OsHomedir => fun w => (s_homedir w, w)
    | RunExec cmd args _ => fun w => (s_exec w cmd args, w)
    | ClackText _ _ _ _ => nextText
    | ClackConfirm _ _ => nextConfirm
    | ClackSelectQuadlet _ _ _ => nextQuadlet
    | ClackSelectBackend _ _ _ => nextBackend
    | ClackNote _ _ | ClackIntro _ | ClackOutro _ | ClackCancel _
    | RuntimeLog _ | RuntimeError _ | RuntimeExit _ | LogConfigUpdated =>
        fun w => (tt, w)
    | LoadConfig => fun w => (s_config w, w)
    | WriteConfigFile _ => fun w => (s_write w, w)
    end.

Definition plain (text : string) : string := text.
Definition untitled (text : string) : option string := Some text.
Definition alwaysDocker (cfg : Config) (agentId : option string) : SandboxBackend :=
  docker.

Definition runCommand (opts : SandboxBackendOptions) (w : Script) :=
  run observe scripted
    (sandboxBackendCommand plain untitled Js.toLowerCase alwaysDocker opts) w.

(** [{}], [{ agents: { list: [{ id: "work" }] } }] as stores. *)
Definition cfgEmpty : Config :=
  {| store := [emptyObject]; root := VRef 0 |}.

Definition cfgWork : Config :=
  {| store :=
       [ {| props := [("agents", VRef 1)]; elems := None |};
         {| props := [("list", VRef 2)]; elems := None |};
         {| props := []; elems := Some [VRef 3] |};
         {| props := [("id", VString "work")]; elems := None |} ];
     root := VRef 0 |}.

Example patch_global_default :
  patchConfig Js.toLowerCase (root cfgEmpty) None podman (store cfgEmpty) =
  (Fulfilled (VRef 1),
   [ emptyObject;
     {| props := [("agents", VRef 2)]; elems := None |};
     {| props := [("defaults", VRef 3)]; elems := None |};
     {| props := [("sandbox", VRef 4)]; elems := None |};
     {| props := [("backend", VString "podman")]; elems := None |} ]).
Proof. reflexivity. Qed.

Example patch_existing_agent :
  patchConfig Js.toLowerCase (root cfgWork) (Some "work") podman (store cfgWork) =
  (Fulfilled (VRef 4),
   store cfgWork ++
   [ {| props := [("agents", VRef 5)]; elems := None |};
     {| props := [("list", VRef 6)]; elems := None |};
     {| props := []; elems := Some [VRef 7] |};
     {| props := [("id", VString "work"); ("sandbox", VRef 8)]; elems := None |};
     {| props := [("backend", VString "podman")]; elems := None |} ]).
Proof. reflexivity. Qed.

Example patch_new_agent :
  patchConfig Js.toLowerCase (root cfgWork) (Some "newagent") podman (store cfgWork) =
  (Fulfilled (VRef 4),
   store cfgWork ++
   [ {| props := [("agents", VRef 5)]; elems := None |};
     {| props := [("list", VRef 6)]; elems := None |};
     {| props := []; elems := Some [VRef 7; VRef 8] |};
     {| props := [("id", VString "work")]; elems := None |};
     {| props := [("id", VString "newagent"); ("sandbox", VRef 9)]; elems := None |};
     {| props := [("backend", VString "podman")]; elems := None |} ]).
Proof. reflexivity. Qed.

(** ** Runs on scripted hosts *)

Definition succeeded : Settled ExecOutput := Fulfilled {| stdout := ""; stderr := "" |}.

(** The part of a run before the first observation selected by [t], and
    the part from it on. *)
Fixpoint before (t : Obs -> bool) (tr : list Obs) : list Obs :=
  match tr with
  | [] => []
  | o :: rest => if t o then [] else o :: before t rest
  end.

Fixpoint from (t : Obs -> bool) (tr : list Obs) : list Obs :=
  match tr with
  | [] => []
  | o :: rest => if t o then tr else from t rest
  end.

(** A Linux host without the user and without a working [sudo]. *)
Definition lockedExec (cmd : string) (args : list string) : Settled ExecOutput :=
  if String.eqb cmd "id" then Rejected "Error: no such user"
  else if String.eqb cmd "grep" then Rejected "Error: exit 1"
  else if String.eqb cmd "sudo" then Rejected "Error: sudo: a password is required"
  else succeeded.

Definition lockedHost : Script :=
  {| s_platform := "linux"; s_username := "me"; s_homedir := "/home/me";
     s_exec := lockedExec;
     s_texts := [Entered "sandbox"]; s_confirms := [Entered true];
     s_quadlet := []; s_backend := [];
     s_config := cfgEmpty; s_write := Fulfilled tt |}.

(** A Linux host where the user has a subuid line and [sudo] fails. *)
Definition staleRangeExec (cmd : string) (args : list string) : Settled ExecOutput :=
  if String.eqb cmd "grep" then
    if String.eqb (nth 1 args "") "/etc/subuid" then
      Fulfilled {| stdout := "testuser:100000:65536" +:+ Js.newline; stderr := "" |}
    else Rejected "Error: exit 1"
  else if String.eqb cmd "sudo" then Rejected "Error: sudo: a password is required"
  else if String.eqb cmd "id" then
    if String.eqb (nth 1 args "") "openclaw" then Rejected "Error: no such user"
    else succeeded
  else succeeded.

Definition staleRangeHost : Script :=
  {| s_platform := "linux"; s_username := "testuser"; s_homedir := "/home/testuser";
     s_exec := staleRangeExec;
     s_texts := [Entered "testuser"; Entered "200000:65536"; Entered "100000:65536"];
     s_confirms := []; s_quadlet := [Entered skip]; s_backend := [Entered podman];
     s_config := cfgEmpty; s_write := Fulfilled tt |}.

(** The operator leaves the first prompt. *)
Definition leavingHost : Script :=
  {| s_platform := "linux"; s_username := "testuser"; s_homedir := "/home/testuser";
     s_exec := staleRangeExec;
     s_texts := [CancelSymbol];
     s_confirms := []; s_quadlet := []; s_backend := [];
     s_config := cfgEmpty; s_write := Fulfilled tt |}.

Definition wizardOn (w : Script) : unit * Script * list Obs :=
  run observe scripted (runPodmanSetup plain) w.

(** The claim C5 read literally: after a failed host mutation (user
    creation, range edit, unit install) come a warning or error and a
    message with a literal manual command, and, unless the unit install was
    the step, the wizard goes on to a later prompt. *)
Definition isHostMutation (args : list string) : bool :=
  match args with
  | a :: _ => String.eqb a "useradd" || String.eqb a "bash" || String.eqb a "-u"
  | [] => false
  end.

Definition isLastStep (args : list string) : bool :=
  match args with a :: _ => String.eqb a "-u" | [] => false end.

Definition claimedFailurePolicy (tr : list Obs) : Prop :=
  forall pre args t err post,
    tr = pre ++ OExec "sudo" args t (Rejected err) :: post ->
    isHostMutation args = true ->
    (exists message fallback rest,
        post = OError message :: OLog fallback :: rest
        /\ Js.contains "sudo " fallback = true)
    /\ (isLastStep args = false -> existsb isPrompt post = true).

(** C5, counterexample. The user is missing and [useradd] is refused: the
    wizard prints the error and the advice, and returns; no manual command
    is printed and no later step runs. *)
Lemma useradd_failure_ends_wizard :
  from failedSudo (trace (wizardOn lockedHost))
  = [OExec "sudo" (useraddArgs "sandbox") 30000
       (Rejected "Error: sudo: a password is required");
     OError "Failed to create user: Error: sudo: a password is required";
     OLog "Create the user manually and re-run this command."]
  /\ ~ claimedFailurePolicy (trace (wizardOn lockedHost)).
Proof.
  split; [vm_compute; reflexivity|].
  intros Hclaim.
  destruct (Hclaim (before failedSudo (trace (wizardOn lockedHost)))
              (useraddArgs "sandbox") 30000 "Error: sudo: a password is required"
              [OError "Failed to create user: Error: sudo: a password is required";
               OLog "Create the user manually and re-run this command."])
    as [_ Hgoes].
  - vm_compute. reflexivity.
  - reflexivity.
  - specialize (Hgoes eq_refl). discriminate.
Qed.

(** A refused [sed] on the subuid file: the error, the manual command,
    and the run goes on to the unit prompt. *)
Lemma mutation_failures_reported_witness :
  failureReport
    ["bash"; "-c"; sedCommand "testuser" "testuser:200000:65536" "subuid"]
    "Error: sudo: a password is required"
    (tl (from failedSudo (trace (wizardOn staleRangeHost)))).
Proof.
  apply (mutation_failures_reported plain
           (trace (wizardOn staleRangeHost)) (result (wizardOn staleRangeHost))
           (before failedSudo (trace (wizardOn staleRangeHost)))
           (tl (from failedSudo (trace (wizardOn staleRangeHost))))
           ["bash"; "-c"; sedCommand "testuser" "testuser:200000:65536" "subuid"]
           10000 "Error: sudo: a password is required").
  - apply run_exec.
  - vm_compute. reflexivity.
Defined.

(** Leaving the first prompt ends the run with the notice. *)
Lemma cancel_stops_wizard_witness :
  tl (from cancelledPrompt (trace (wizardOn leavingHost))) = [OCancel "Cancelled."]
  /\ existsb isExec (tl (from cancelledPrompt (trace (wizardOn leavingHost)))) = false.
Proof.
  apply (cancel_stops_wizard plain
           (trace (wizardOn leavingHost)) (result (wizardOn leavingHost))
           (before cancelledPrompt (trace (wizardOn leavingHost)))
           (tl (from cancelledPrompt (trace (wizardOn leavingHost))))
           (hd (OCancel "") (from cancelledPrompt (trace (wizardOn leavingHost))))).
  - apply run_exec.
  - vm_compute. reflexivity.
  - vm_compute. reflexivity.
Defined.



Definition setKubernetes : SandboxBackendOptions :=
  {| set := Some "kubernetes"; agent := None; json := false |}.

(** [--set kubernetes] *)
Lemma invalid_backend_rejected_witness :
  rejectedAsInvalid "kubernetes" (trace (runCommand setKubernetes staleRangeHost)).
Proof.
  apply (invalid_backend_rejected plain untitled Js.toLowerCase alwaysDocker
           setKubernetes "kubernetes"
           (trace (runCommand setKubernetes staleRangeHost))
           (result (runCommand setKubernetes staleRangeHost)));
    try reflexivity.
  apply run_exec.
Defined.

Definition setDocker : SandboxBackendOptions :=
  {| set := Some "Docker"; agent := Some "work"; json := false |}.

(** [--set Docker --agent work] while docker is in effect. *)
Lemma same_backend_not_written_witness :
  noOpReported plain untitled Js.toLowerCase alwaysDocker setDocker
    (trace (runCommand setDocker staleRangeHost))
    (result (runCommand setDocker staleRangeHost)).
Proof.
  apply (same_backend_not_written plain untitled Js.toLowerCase alwaysDocker setDocker
           (trace (runCommand setDocker staleRangeHost))
           (result (runCommand setDocker staleRangeHost))).
  - reflexivity.
  - apply run_exec.
Defined.

Definition applyOn (cfg : Config) (agentId : string) (w : Script) :
    Settled unit * Script * list Obs :=
  run observe scripted (applyBackend Js.toLowerCase cfg (Some agentId) podman) w.

(** [--agent newagent] on a list that has [work] only. *)
Lemma applyBackend_adds_agent_entry_witness :
  exists written w rest e,
    trace (applyOn cfgWork "newagent" staleRangeHost) = OWriteConfigFile written w :: rest
    /\ agentEntryAdded cfgWork "newagent" podman written e.
Proof.
  apply (applyBackend_adds_agent_entry Js.toLowerCase cfgWork "newagent" podman
           (trace (applyOn cfgWork "newagent" staleRangeHost))
           (result (applyOn cfgWork "newagent" staleRangeHost)));
    try reflexivity.
  apply run_exec.
Defined.

(** ** Further runs on scripted hosts *)

(** [openclaw:100000:65536], with and without a fourth field. *)
Lemma parseSubidRange_reads_back_witness :
  parseSubidRange "openclaw:100000:65536" = Some ("100000", "65536")
  /\ parseSubidRange "openclaw:100000:65536:x" = Some ("100000", "65536").
Proof.
  apply (parseSubidRange_reads_back "openclaw" "100000" "65536" "x"); reflexivity.
Defined.

(** A Linux host where both files hold a line for the user; the operator
    keeps the two ranges the prompts offer. *)
Definition keptRangesExec (cmd : string) (args : list string) : Settled ExecOutput :=
  if String.eqb cmd "grep" then
    if String.eqb (nth 1 args "") "/etc/subuid" then
      Fulfilled {| stdout := "testuser:100000:65536" +:+ Js.newline; stderr := "" |}
    else
      Fulfilled {| stdout := "testuser:200000:65536" +:+ Js.newline; stderr := "" |}
  else if String.eqb cmd "id" then
    if String.eqb (nth 1 args "") "openclaw" then Rejected "Error: no such user"
    else succeeded
  else succeeded.

Definition keptRangesHost : Script :=
  {| s_platform := "linux"; s_username := "testuser"; s_homedir := "/home/testuser";
     s_exec := keptRangesExec;
     s_texts := [Entered "testuser"; Entered "100000:65536"; Entered "200000:65536"];
     s_confirms := []; s_quadlet := [Entered skip]; s_backend := [];
     s_config := cfgEmpty; s_write := Fulfilled tt |}.

(** The run on that host: twelve observations come before the lookup of
    the two lines, and four more up to the answer to the second prompt. *)
Lemma offered_ranges_leave_lines_unchanged_witness :
  "100000:65536" = "100000" +:+ ":" +:+ "65536"
  /\ "200000:65536" = "200000" +:+ ":" +:+ "65536"
  /\ exists rest,
       skipn 16 (trace (wizardOn keptRangesHost))
       = OLog "subuid: testuser:100000:65536 (unchanged)"
         :: OLog "subgid: testuser:200000:65536 (unchanged)" :: rest
       /\ startsQuadletStep rest.
Proof.
  eapply (offered_ranges_leave_lines_unchanged plain
            "testuser" "100000" "65536" "200000" "65536"
            (trace (wizardOn keptRangesHost)) (firstn 12 (trace (wizardOn keptRangesHost)))
            (skipn 16 (trace (wizardOn keptRangesHost)))
            (result (wizardOn keptRangesHost)));
    try reflexivity.
  apply run_exec.
Defined.

Definition subidsOn (w : Script) : Subids * Script * list Obs :=
  run observe scripted (checkSubids "testuser") w.

(** A subuid line and no subgid line. *)
Lemma checkSubids_reads_both_files_witness :
  (exists r1 r2,
      trace (subidsOn staleRangeHost)
      = [OExec "grep" ["^testuser:"; "/etc/subuid"] 3000 r1;
         OExec "grep" ["^testuser:"; "/etc/subgid"] 3000 r2]
      /\ (isSome (ids_subuidRange (result (subidsOn staleRangeHost))) = true <->
          exists out, r1 = Fulfilled out /\ Js.blank (stdout out) = false)
      /\ (isSome (ids_subgidRange (result (subidsOn staleRangeHost))) = true <->
          exists out, r2 = Fulfilled out /\ Js.blank (stdout out) = false))
  /\ ids_hasSubuid (result (subidsOn staleRangeHost))
     = isSome (ids_subuidRange (result (subidsOn staleRangeHost)))
  /\ ids_hasSubgid (result (subidsOn staleRangeHost))
     = isSome (ids_subgidRange (result (subidsOn staleRangeHost)))
  /\ (forall line,
        ids_subuidRange (result (subidsOn staleRangeHost)) = Some line
        \/ ids_subgidRange (result (subidsOn staleRangeHost)) = Some line ->
        line <> "" /\ Js.trim line = line).
Proof.
  apply (checkSubids_reads_both_files "testuser" (trace (subidsOn staleRangeHost))
           (result (subidsOn staleRangeHost))).
  apply run_exec.
Defined.

Definition detectOn (w : Script) : PodmanHostInfo * Script * list Obs :=
  run observe scripted detectPodmanHost w.

Lemma detection_invariants_witness :
  let info := result (detectOn staleRangeHost) in
  let tr := trace (detectOn staleRangeHost) in
  (exists currentUser available probe rest,
      tr = OPlatform (platform info) :: OUsername currentUser
           :: OExec "podman" ["version"] 5000 available
           :: OExec "id" ["-u"; "openclaw"] 3000 probe :: rest
      /\ podmanAvailable info = isFulfilled available
      /\ user info = (if isFulfilled probe then "openclaw" else currentUser))
  /\ hasSubuid info = isSome (subuidRange info)
  /\ hasSubgid info = isSome (subgidRange info)
  /\ (String.eqb (platform info) "linux" = false ->
      subuidRange info = None /\ subgidRange info = None /\ existsb isGrep tr = false)
  /\ (quadletInstalled info = true ->
      systemdAvailable info = true /\ userExists info = true).
Proof.
  intros info tr. apply (detection_invariants tr info). apply run_exec.
Defined.

Lemma detection_only_probes_witness :
  forallb isProbe (trace (detectOn staleRangeHost)) = true
  /\ (length (List.filter isExec (trace (detectOn staleRangeHost))) <= 8)%nat.
Proof.
  apply (detection_only_probes (trace (detectOn staleRangeHost))
           (result (detectOn staleRangeHost))).
  apply run_exec.
Defined.

(** A macOS workstation: the operator asks for the unit as well. *)
Definition macHost : Script :=
  {| s_platform := "darwin"; s_username := "me"; s_homedir := "/Users/me";
     s_exec := lockedExec;
     s_texts := [Entered "openclaw"; Entered "100000:65536"; Entered "100000:65536"];
     s_confirms := []; s_quadlet := [Entered install]; s_backend := [Entered podman];
     s_config := cfgEmpty; s_write := Fulfilled tt |}.

Lemma remote_host_setup_runs_no_sudo_witness :
  existsb isSudo (trace (wizardOn macHost)) = false
  /\ forallb (fun o => implb (isExec o) (isProbe o)) (trace (wizardOn macHost)) = true.
Proof.
  apply (remote_host_setup_runs_no_sudo plain (trace (wizardOn macHost))
           (result (wizardOn macHost)) "darwin" (tl (trace (wizardOn macHost)))).
  - apply run_exec.
  - vm_compute. reflexivity.
  - reflexivity.
Defined.

(** The user is missing and the operator declines to create it. *)
Definition decliningHost : Script :=
  {| s_platform := "linux"; s_username := "me"; s_homedir := "/home/me";
     s_exec := lockedExec;
     s_texts := [Entered "sandbox"; Entered "100000:65536"; Entered "100000:65536"];
     s_confirms := [Entered false]; s_quadlet := [Entered skip]; s_backend := [];
     s_config := cfgEmpty; s_write := Fulfilled tt |}.

Definition declinedConfirm (o : Obs) : bool :=
  match o with OConfirm _ _ (Entered false) => true | _ => false end.

Lemma declined_user_is_not_created_witness :
  exists podmanUser r rest,
    createUserQuestion plain "sandbox" = createUserQuestion plain podmanUser
    /\ tl (from declinedConfirm (trace (wizardOn decliningHost)))
       = OLog ("Skipped. Create the user manually:" +:+ Js.newline
               +:+ "  sudo useradd -m -s /usr/sbin/nologin " +:+ podmanUser)
         :: OExec "grep" ["^" +:+ podmanUser +:+ ":"; "/etc/subuid"] 3000 r
         :: rest
    /\ existsb isUserCommand (tl (from declinedConfirm (trace (wizardOn decliningHost))))
       = false.
Proof.
  apply (declined_user_is_not_created plain
           (trace (wizardOn decliningHost)) (result (wizardOn decliningHost))
           (before declinedConfirm (trace (wizardOn decliningHost)))
           (tl (from declinedConfirm (trace (wizardOn decliningHost))))
           (createUserQuestion plain "sandbox") true).
  - apply run_exec.
  - vm_compute. reflexivity.
Defined.

(** The user is created, but lingering cannot be enabled. *)
Definition lingerlessExec (cmd : string) (args : list string) : Settled ExecOutput :=
  if String.eqb cmd "id" then Rejected "Error: no such user"
  else if String.eqb cmd "grep" then Rejected "Error: exit 1"
  else if String.eqb cmd "sudo" then
    if String.eqb (nth 0 args "") "loginctl"
    then Rejected "Error: Failed to connect to bus"
    else succeeded
  else succeeded.

Definition lingerlessHost : Script :=
  {| s_platform := "linux"; s_username := "me"; s_homedir := "/home/me";
     s_exec := lingerlessExec;
     s_texts := [Entered "sandbox"; Entered "100000:65536"; Entered "100000:65536"];
     s_confirms := [Entered true]; s_quadlet := [Entered skip]; s_backend := [];
     s_config := cfgEmpty; s_write := Fulfilled tt |}.

Definition isUseradd (o : Obs) : bool :=
  match o with
  | OExec _ (a :: _) _ _ => String.eqb a "useradd"
  | _ => false
  end.

Lemma linger_failure_is_ignored_witness :
  exists linger r rest,
    tl (from isUseradd (trace (wizardOn lingerlessHost)))
    = OLog ("Created user " +:+ Js.quote +:+ "sandbox" +:+ Js.quote +:+ ".")
      :: OExec "sudo" ["loginctl"; "enable-linger"; "sandbox"] 5000 linger
      :: OExec "grep" ["^" +:+ "sandbox" +:+ ":"; "/etc/subuid"] 3000 r
      :: rest.
Proof.
  apply (linger_failure_is_ignored plain
           (trace (wizardOn lingerlessHost)) (result (wizardOn lingerlessHost))
           (before isUseradd (trace (wizardOn lingerlessHost)))
           (tl (from isUseradd (trace (wizardOn lingerlessHost))))
           "sandbox" 30000 {| stdout := ""; stderr := "" |}).
  - apply run_exec.
  - vm_compute. reflexivity.
Defined.

Definition installOn (w : Script) : unit * Script * list Obs :=
  run observe scripted (installUnit "testuser") w.

(** The home directory is found, the directory cannot be made. *)
Lemma unit_install_stops_at_first_failure_witness :
  (exists message,
      tl (from failedExec (trace (installOn staleRangeHost))) = [OError message]
      \/ tl (from failedExec (trace (installOn staleRangeHost))) = [OLog message])
  /\ existsb isExec (tl (from failedExec (trace (installOn staleRangeHost)))) = false.
Proof.
  apply (unit_install_stops_at_first_failure "testuser"
           (trace (installOn staleRangeHost)) (result (installOn staleRangeHost))
           (before failedExec (trace (installOn staleRangeHost)))
           (tl (from failedExec (trace (installOn staleRangeHost))))
           (hd (OCancel "") (from failedExec (trace (installOn staleRangeHost))))).
  - apply run_exec.
  - vm_compute. reflexivity.
  - vm_compute. reflexivity.
Defined.

Lemma wizard_never_touches_configuration_witness :
  existsb isCommandCall (trace (wizardOn staleRangeHost)) = false.
Proof.
  apply (wizard_never_touches_configuration plain
           (trace (wizardOn staleRangeHost)) (result (wizardOn staleRangeHost))).
  apply run_exec.
Defined.

(** The creation prompt of the run on the host without the user. *)
Lemma creation_prompt_follows_failed_lookup_witness :
  exists podmanUser err rest,
    createUserQuestion plain "sandbox" = createUserQuestion plain podmanUser
    /\ true = true
    /\ before isConfirm (trace (wizardOn decliningHost)) = OPlatform "linux" :: rest
    /\ In (OExec "id" ["-u"; podmanUser] 3000 (Rejected err))
          (before isConfirm (trace (wizardOn decliningHost))).
Proof.
  apply (creation_prompt_follows_failed_lookup plain
           (trace (wizardOn decliningHost)) (result (wizardOn decliningHost))
           (before isConfirm (trace (wizardOn decliningHost)))
           (tl (from isConfirm (trace (wizardOn decliningHost))))
           (createUserQuestion plain "sandbox") true (Entered false)).
  - apply run_exec.
  - vm_compute. reflexivity.
Defined.

(** A Linux host with systemd where every command succeeds; the operator
    asks for the unit. *)
Definition readyHost : Script :=
  {| s_platform := "linux"; s_username := "me"; s_homedir := "/home/me";
     s_exec := fun _ _ => succeeded;
     s_texts := [Entered "openclaw"; Entered "100000:65536"; Entered "100000:65536"];
     s_confirms := []; s_quadlet := [Entered install]; s_backend := [];
     s_config := cfgEmpty; s_write := Fulfilled tt |}.

(** The first command run as the Podman user. *)
Lemma unit_commands_only_on_request_witness :
  (exists rest, before isUnitCommand (trace (wizardOn readyHost)) = OPlatform "linux" :: rest)
  /\ (exists out,
        In (OExec "systemctl" ["--version"] 3000 (Fulfilled out))
           (before isUnitCommand (trace (wizardOn readyHost))))
  /\ (exists message options initialValue,
        In (OSelectQuadlet message options initialValue (Entered install))
           (before isUnitCommand (trace (wizardOn readyHost)))).
Proof.
  apply (unit_commands_only_on_request plain
           (trace (wizardOn readyHost)) (result (wizardOn readyHost))
           (before isUnitCommand (trace (wizardOn readyHost)))
           (tl (from isUnitCommand (trace (wizardOn readyHost))))
           (OExec "sudo" ["-u"; "openclaw"; "mkdir"; "-p"; "/.config/containers/systemd"]
              5000 succeeded)).
  - apply run_exec.
  - vm_compute. reflexivity.
  - reflexivity.
Defined.

Definition jsonWithSet : SandboxBackendOptions :=
  {| set := Some "podman"; agent := Some "Work"; json := true |}.

(** [--json --set podman --agent Work] *)
Lemma json_mode_only_reports_witness :
  exists cfg,
    trace (runCommand jsonWithSet staleRangeHost)
    = [OLoadConfig cfg; OLog (jsonReport docker (Some "work"))]
    /\ result (runCommand jsonWithSet staleRangeHost) = Fulfilled tt.
Proof.
  apply (json_mode_only_reports plain untitled Js.toLowerCase alwaysDocker jsonWithSet
           (trace (runCommand jsonWithSet staleRangeHost))
           (result (runCommand jsonWithSet staleRangeHost))).
  - reflexivity.
  - apply run_exec.
Defined.

Definition setPodman : SandboxBackendOptions :=
  {| set := Some "Podman"; agent := None; json := false |}.

(** [--set Podman] while docker is in effect. *)
Lemma set_mode_is_not_interactive_witness :
  forallb isSetModeCall (trace (runCommand setPodman staleRangeHost)) = true
  /\ (length (List.filter isExec (trace (runCommand setPodman staleRangeHost))) <= 1)%nat
  /\ (length (List.filter isWrite (trace (runCommand setPodman staleRangeHost))) <= 1)%nat.
Proof.
  apply (set_mode_is_not_interactive plain untitled Js.toLowerCase alwaysDocker setPodman
           (trace (runCommand setPodman staleRangeHost))
           (result (runCommand setPodman staleRangeHost))).
  - reflexivity.
  - reflexivity.
  - apply run_exec.
Defined.

(** A host without podman. *)
Definition noPodmanExec (cmd : string) (args : list string) : Settled ExecOutput :=
  if String.eqb cmd "podman" then Rejected "Error: spawn podman ENOENT" else succeeded.

Definition noPodmanHost : Script :=
  {| s_platform := "linux"; s_username := "testuser"; s_homedir := "/home/testuser";
     s_exec := noPodmanExec;
     s_texts := []; s_confirms := []; s_quadlet := []; s_backend := [];
     s_config := cfgEmpty; s_write := Fulfilled tt |}.

Lemma set_mode_applies_whatever_availability_witness :
  exists available applied,
    tl (trace (runCommand setPodman noPodmanHost))
    = availabilityCheck podman available ++ applied
    /\ exec observe (applyBackend Js.toLowerCase cfgEmpty None podman) applied
         (result (runCommand setPodman noPodmanHost)).
Proof.
  apply (set_mode_applies_whatever_availability plain untitled Js.toLowerCase alwaysDocker
           setPodman "Podman" podman cfgEmpty
           (tl (trace (runCommand setPodman noPodmanHost)))
           (result (runCommand setPodman noPodmanHost))).
  - reflexivity.
  - reflexivity.
  - reflexivity.
  - discriminate.
  - exact (run_exec observe scripted
             (sandboxBackendCommand plain untitled Js.toLowerCase alwaysDocker setPodman)
             noPodmanHost).
Defined.

Definition interactive : SandboxBackendOptions :=
  {| set := None; agent := None; json := false |}.

(** Podman is picked at the prompt; the first call of the wizard comes
    after the write. *)
Lemma wizard_runs_only_after_switch_witness :
  exists message options current written,
    In (OSelectBackend message options current (Entered podman))
      (before isWizardCall (trace (runCommand interactive staleRangeHost)))
    /\ In (OWriteConfigFile written (Fulfilled tt))
         (before isWizardCall (trace (runCommand interactive staleRangeHost))).
Proof.
  apply (wizard_runs_only_after_switch plain untitled Js.toLowerCase alwaysDocker
           interactive
           (trace (runCommand interactive staleRangeHost))
           (result (runCommand interactive staleRangeHost))
           (before isWizardCall (trace (runCommand interactive staleRangeHost)))
           (tl (from isWizardCall (trace (runCommand interactive staleRangeHost))))
           (hd (OCancel "") (from isWizardCall (trace (runCommand interactive staleRangeHost))))).
  - apply run_exec.
  - vm_compute. reflexivity.
  - vm_compute. reflexivity.
Defined.

(** Podman is picked, then the operator leaves the wizard's first
    prompt. *)
Definition switchThenLeave : Script :=
  {| s_platform := "linux"; s_username := "testuser"; s_homedir := "/home/testuser";
     s_exec := staleRangeExec;
     s_texts := [CancelSymbol];
     s_confirms := []; s_quadlet := []; s_backend := [Entered podman];
     s_config := cfgEmpty; s_write := Fulfilled tt |}.

Lemma cancelled_prompt_ends_session_witness :
  result (runCommand interactive switchThenLeave) = Fulfilled tt
  /\ tl (from cancelledPrompt (trace (runCommand interactive switchThenLeave)))
     = [OCancel "Cancelled."; switchedTo untitled podman]
  /\ exists written,
       In (OWriteConfigFile written (Fulfilled tt))
         (before cancelledPrompt (trace (runCommand interactive switchThenLeave))).
Proof.
  apply (cancelled_prompt_ends_session plain untitled Js.toLowerCase alwaysDocker
           interactive
           (trace (runCommand interactive switchThenLeave))
           (result (runCommand interactive switchThenLeave))
           (before cancelledPrompt (trace (runCommand interactive switchThenLeave)))
           (tl (from cancelledPrompt (trace (runCommand interactive switchThenLeave))))
           (hd (OCancel "")
              (from cancelledPrompt (trace (runCommand interactive switchThenLeave))))).
  - apply run_exec.
  - vm_compute. reflexivity.
  - vm_compute. reflexivity.
Defined.

(** A configuration file that cannot be written. *)
Definition readOnlyHost : Script :=
  {| s_platform := "linux"; s_username := "testuser"; s_homedir := "/home/testuser";
     s_exec := staleRangeExec;
     s_texts := []; s_confirms := []; s_quadlet := []; s_backend := [Entered podman];
     s_config := cfgEmpty; s_write := Rejected "Error: EACCES: permission denied" |}.

(** What [applyBackend] makes of the empty configuration. *)
Definition cfgPodman : Config :=
  {| store :=
       [ emptyObject;
         {| props := [("agents", VRef 2)]; elems := None |};
         {| props := [("defaults", VRef 3)]; elems := None |};
         {| props := [("sandbox", VRef 4)]; elems := None |};
         {| props := [("backend", VString "podman")]; elems := None |} ];
     root := VRef 1 |}.

Lemma failed_write_ends_command_witness :
  result (runCommand interactive readOnlyHost)
  = Rejected "Error: EACCES: permission denied"
  /\ last (trace (runCommand interactive readOnlyHost))
     = Some (OWriteConfigFile cfgPodman (Rejected "Error: EACCES: permission denied")).
Proof.
  apply (failed_write_ends_command plain untitled Js.toLowerCase alwaysDocker interactive
           (trace (runCommand interactive readOnlyHost))
           (result (runCommand interactive readOnlyHost))).
  - apply run_exec.
  - vm_compute. auto 10.
Defined.



(** [--agent work] on a list that has [work]. *)
Lemma applyBackend_updates_existing_entry_witness :
  exists written w rest,
    trace (applyOn cfgWork "work" staleRangeHost) = OWriteConfigFile written w :: rest
    /\ agentEntryUpdated Js.toLowerCase cfgWork "work" podman written.
Proof.
  apply (applyBackend_updates_existing_entry Js.toLowerCase cfgWork "work" podman
           (trace (applyOn cfgWork "work" staleRangeHost))
           (result (applyOn cfgWork "work" staleRangeHost)));
    try reflexivity.
  apply run_exec.
Defined.

(** [--agent work] on the empty configuration: the entry is added. *)
Lemma applyBackend_entry_reads_back_witness :
  exists written w rest,
    trace (applyOn cfgEmpty "work" staleRangeHost) = OWriteConfigFile written w :: rest
    /\ wellTyped (store written) (root written) = true
    /\ sandboxTyped Js.toLowerCase (store written) (root written) "work" = true
    /\ agentBackendSet Js.toLowerCase written "work" podman.
Proof.
  apply (applyBackend_entry_reads_back Js.toLowerCase cfgEmpty "work" podman
           (trace (applyOn cfgEmpty "work" staleRangeHost))
           (result (applyOn cfgEmpty "work" staleRangeHost)));
    try reflexivity.
  apply run_exec.
Defined.

(** The configuration a run hands to the writer. *)
Definition writtenBy (tr : list Obs) : Config :=
  match tr with
  | OWriteConfigFile written _ :: _ => written
  | _ => cfgEmpty
  end.

(** [--set docker --agent work] after [--set podman --agent work]. *)
Definition applyAgain :=
  run observe scripted
    (applyBackend Js.toLowerCase
       (writtenBy (trace (applyOn cfgEmpty "work" staleRangeHost))) (Some "work") docker)
    staleRangeHost.

Lemma applyBackend_again_adds_no_entry_witness :
  exists again w2 rest2,
    trace applyAgain = OWriteConfigFile again w2 :: rest2
    /\ length (agentList (store again) (root again))
       = length (agentList
                   (store (writtenBy (trace (applyOn cfgEmpty "work" staleRangeHost))))
                   (root (writtenBy (trace (applyOn cfgEmpty "work" staleRangeHost)))))
    /\ agentBackendSet Js.toLowerCase again "work" docker.
Proof.
  apply (applyBackend_again_adds_no_entry Js.toLowerCase cfgEmpty
           (writtenBy (trace (applyOn cfgEmpty "work" staleRangeHost)))
           "work" podman docker
           (trace (applyOn cfgEmpty "work" staleRangeHost)) (trace applyAgain)
           (tl (trace (applyOn cfgEmpty "work" staleRangeHost)))
           (result (applyOn cfgEmpty "work" staleRangeHost)) (result applyAgain)
           (Fulfilled tt));
    try reflexivity; apply run_exec.
Defined.

(** [{ agents: "all" }] *)
Definition cfgIllTyped : Config :=
  {| store := [ {| props := [("agents", VString "all")]; elems := None |} ];
     root := VRef 0 |}.

Lemma applyBackend_rejects_primitive_agents_witness :
  trace (applyOn cfgIllTyped "work" staleRangeHost) = []
  /\ exists err, result (applyOn cfgIllTyped "work" staleRangeHost) = Rejected err.
Proof.
  apply (applyBackend_rejects_primitive_agents Js.toLowerCase cfgIllTyped (Some "work") podman
           (trace (applyOn cfgIllTyped "work" staleRangeHost))
           (result (applyOn cfgIllTyped "work" staleRangeHost)));
    try reflexivity.
  apply run_exec.
Defined.

End BackendCmd.
